(** * Primitive assembly (pa.h): a shallow embedding and its properties

    The three assemblers of [pa.h] are embedded as records with explicit
    state passing: [Opt] is [PA_STATE_OPT] (the optimized, cut-unaware state
    machine), [Cut] is [PA_STATE_CUT] (the cut-aware per-vertex state
    machine) and [Tess] is [PA_TESS] (the assembler of domain shader output).

    Conventions of the embedding:
    - a [uint32_t] is a [Z] kept in [0, 2^32) by [u32]; an [int32_t] is a [Z]
      kept in [-2^31, 2^31) by [s32];
    - a [simdscalar]/[simdscalari] is the list of its 8 lanes, a [simdvector]
      the list of its 4 components; a [float] is carried as its bit pattern,
      only moved around and never computed with;
    - a C array is a list, read by [load] and written by [store]; a write out
      of range (undefined behaviour in the source) leaves the list as it is;
    - memory reached through a pointer ([pStreamBase], [m_pVertexData], the
      index arrays of the tessellator) is a function from a byte (or word)
      offset to the value stored there;
    - [SWR_ASSERT]/[assert] failures are the [None] of an [option]. *)

From Stdlib Require Import ZArith Lia Bool.
From stdpp Require Import base list.

Local Open Scope Z_scope.

(** ** Machine integers and SIMD lanes *)

Definition u32 (x : Z) : Z := x mod 2 ^ 32.
Definition s32 (x : Z) : Z := (x + 2 ^ 31) mod 2 ^ 32 - 2 ^ 31.

(** [static_assert(KNOB_SIMD_WIDTH == 8, ...)] in [PA_TESS::Assemble]; the
    cut-aware assembler hard-codes the same width ([simdShift = 3],
    [simdMask = 0x7], [_mm256_set_epi32(7, ..., 0)]). *)
Definition KNOB_SIMD_WIDTH : Z := 8.

(** Modelled from the spec: [MAX_NUM_VERTS_PER_PRIM] is declared outside
    [pa.h]; the vertex window holds "at most the max vertex count of any
    supported primitive, including adjacency, e.g. 6". *)
Definition MAX_NUM_VERTS_PER_PRIM : Z := 6.

Definition simdscalar : Type := list Z.
Definition simdscalari : Type := list Z.
Definition simdvector : Type := list simdscalar.

Definition lanes : list nat := seq 0 (Z.to_nat KNOB_SIMD_WIDTH).

Definition load (a : list Z) (i : Z) : Z := nth (Z.to_nat i) a 0.
Definition store (a : list Z) (i : Z) (x : Z) : list Z :=
  if i <? 0 then a else <[Z.to_nat i := x]> a.

(** A two-dimensional array [a[v][n]] is the list of its rows. *)
Definition load2 (a : list (list Z)) (v n : Z) : Z :=
  load (nth (Z.to_nat v) a []) n.
Definition store2 (a : list (list Z)) (v n : Z) (x : Z) : list (list Z) :=
  if v <? 0 then a
  else <[Z.to_nat v := store (nth (Z.to_nat v) a []) n x]> a.

(** [for (uint32_t i = 0; i < n; ++i) body(i)] *)
Fixpoint for_ {A : Type} (n : nat) (body : nat -> A -> A) (a : A) : A :=
  match n with
  | O => a
  | S k => body k (for_ k body a)
  end.

Definition _simd_set1_epi32 (x : Z) : simdscalari :=
  repeat (s32 x) (Z.to_nat KNOB_SIMD_WIDTH).
Definition _simd_setzero_si : simdscalari := _simd_set1_epi32 0.
Definition _simd_setzero_ps : simdscalar :=
  repeat 0 (Z.to_nat KNOB_SIMD_WIDTH).
Definition _simd_add_epi32 (a b : simdscalari) : simdscalari :=
  zip_with (fun x y => s32 (x + y)) a b.
Definition _simd_mullo_epi32 (a b : simdscalari) : simdscalari :=
  zip_with (fun x y => s32 (x * y)) a b.
Definition _simd_and_si (a b : simdscalari) : simdscalari :=
  zip_with (fun x y => s32 (Z.land x y)) a b.
Definition _simd_srai_epi32 (a : simdscalari) (n : Z) : simdscalari :=
  map (fun x => Z.shiftr x n) a.
(** [_mm256_set_epi32(7, 6, 5, 4, 3, 2, 1, 0)]: lane [l] holds [l]. *)
Definition _mm256_set_epi32_7_0 : simdscalari := [0; 1; 2; 3; 4; 5; 6; 7].

(** [_simd_i32gather_ps(base, offsets, 1)]: lane [l] reads the float at byte
    [base + offsets[l]]. *)
Definition _simd_i32gather_ps (mem : Z -> Z) (base : Z) (offsets : simdscalari)
  : simdscalar :=
  map (fun l => mem (base + nth l offsets 0)) lanes.

(** [_simd_mask_i32gather_ps(src, base, vindex, mask, scale)]: a lane whose
    mask has its sign bit set reads the float at byte
    [base + vindex[l] * scale], the other lanes keep [src]. *)
Definition _simd_mask_i32gather_ps (src : simdscalar) (mem : Z -> Z) (base : Z)
  (vindex mask : simdscalari) (scale : Z) : simdscalar :=
  map (fun l => if nth l mask 0 <? 0
                then mem (base + nth l vindex 0 * scale)
                else nth l src 0) lanes.

(** The topologies [pa.h] names; the enumeration itself is declared outside
    it. *)
Inductive PRIMITIVE_TOPOLOGY : Type :=
| TOP_UNKNOWN
| TOP_POINT_LIST
| TOP_LINE_LIST
| TOP_LINE_STRIP
| TOP_TRIANGLE_LIST
| TOP_TRIANGLE_STRIP
| TOP_LINE_LIST_ADJ
| TOP_LISTSTRIP_ADJ
| TOP_TRI_LIST_ADJ
| TOP_TRI_STRIP_ADJ.

(** ** The optimized assembler, [PA_STATE_OPT] *)

Module Opt.
Section WithTopologyFunctions.

(** The per-topology functions the state machine points to are defined
    outside [pa.h]; a function pointer is a value of an abstract type. *)
Variables PFN_PA_FUNC PFN_PA_SINGLE_FUNC : Type.

Record PA_STATE_OPT : Type := mk_PA_STATE_OPT {
  streamSizeInVerts : Z;  (* total size of the input stream in verts *)
  numPrims : Z;  (* total number of primitives for draw *)
  numPrimsComplete : Z;  (* total number of complete primitives *)
  numSimdPrims : Z;  (* number of prims in current simd *)
  cur : Z;  (* index to current VS output *)
  prev : Z;  (* index to prev VS output *)
  first : Z;  (* index to first VS output *)
  counter : Z;  (* state counter *)
  reset : bool;  (* reset state *)
  primIDIncr : Z;  (* how much to increment for each vector *)
  primID : simdscalari;
  pfnPaFunc : PFN_PA_FUNC;
  pfnPaSingleFunc : PFN_PA_SINGLE_FUNC;
  pfnPaFuncReset : PFN_PA_FUNC;  (* initial state to set on reset *)
  pfnPaNextFunc : PFN_PA_FUNC;
  nextNumSimdPrims : Z;
  nextNumPrimsIncrement : Z;
  nextReset : bool;
  isStreaming : bool
}.

Definition set_numPrimsComplete (x : Z) (s : PA_STATE_OPT) : PA_STATE_OPT :=
  {| streamSizeInVerts := streamSizeInVerts s; numPrims := numPrims s;
     numPrimsComplete := x; numSimdPrims := numSimdPrims s; cur := cur s;
     prev := prev s; first := first s; counter := counter s;
     reset := reset s; primIDIncr := primIDIncr s; primID := primID s;
     pfnPaFunc := pfnPaFunc s; pfnPaSingleFunc := pfnPaSingleFunc s;
     pfnPaFuncReset := pfnPaFuncReset s; pfnPaNextFunc := pfnPaNextFunc s;
     nextNumSimdPrims := nextNumSimdPrims s;
     nextNumPrimsIncrement := nextNumPrimsIncrement s;
     nextReset := nextReset s; isStreaming := isStreaming s |}.
Definition set_numSimdPrims (x : Z) (s : PA_STATE_OPT) : PA_STATE_OPT :=
  {| streamSizeInVerts := streamSizeInVerts s; numPrims := numPrims s;
     numPrimsComplete := numPrimsComplete s; numSimdPrims := x; cur := cur s;
     prev := prev s; first := first s; counter := counter s;
     reset := reset s; primIDIncr := primIDIncr s; primID := primID s;
     pfnPaFunc := pfnPaFunc s; pfnPaSingleFunc := pfnPaSingleFunc s;
     pfnPaFuncReset := pfnPaFuncReset s; pfnPaNextFunc := pfnPaNextFunc s;
     nextNumSimdPrims := nextNumSimdPrims s;
     nextNumPrimsIncrement := nextNumPrimsIncrement s;
     nextReset := nextReset s; isStreaming := isStreaming s |}.
Definition set_cur (x : Z) (s : PA_STATE_OPT) : PA_STATE_OPT :=
  {| streamSizeInVerts := streamSizeInVerts s; numPrims := numPrims s;
     numPrimsComplete := numPrimsComplete s; numSimdPrims := numSimdPrims s;
     cur := x; prev := prev s; first := first s; counter := counter s;
     reset := reset s; primIDIncr := primIDIncr s; primID := primID s;
     pfnPaFunc := pfnPaFunc s; pfnPaSingleFunc := pfnPaSingleFunc s;
     pfnPaFuncReset := pfnPaFuncReset s; pfnPaNextFunc := pfnPaNextFunc s;
     nextNumSimdPrims := nextNumSimdPrims s;
     nextNumPrimsIncrement := nextNumPrimsIncrement s;
     nextReset := nextReset s; isStreaming := isStreaming s |}.
Definition set_prev (x : Z) (s : PA_STATE_OPT) : PA_STATE_OPT :=
  {| streamSizeInVerts := streamSizeInVerts s; numPrims := numPrims s;
     numPrimsComplete := numPrimsComplete s; numSimdPrims := numSimdPrims s;
     cur := cur s; prev := x; first := first s; counter := counter s;
     reset := reset s; primIDIncr := primIDIncr s; primID := primID s;
     pfnPaFunc := pfnPaFunc s; pfnPaSingleFunc := pfnPaSingleFunc s;
     pfnPaFuncReset := pfnPaFuncReset s; pfnPaNextFunc := pfnPaNextFunc s;
     nextNumSimdPrims := nextNumSimdPrims s;
     nextNumPrimsIncrement := nextNumPrimsIncrement s;
     nextReset := nextReset s; isStreaming := isStreaming s |}.
Definition set_first (x : Z) (s : PA_STATE_OPT) : PA_STATE_OPT :=
  {| streamSizeInVerts := streamSizeInVerts s; numPrims := numPrims s;
     numPrimsComplete := numPrimsComplete s; numSimdPrims := numSimdPrims s;
     cur := cur s; prev := prev s; first := x; counter := counter s;
     reset := reset s; primIDIncr := primIDIncr s; primID := primID s;
     pfnPaFunc := pfnPaFunc s; pfnPaSingleFunc := pfnPaSingleFunc s;
     pfnPaFuncReset := pfnPaFuncReset s; pfnPaNextFunc := pfnPaNextFunc s;
     nextNumSimdPrims := nextNumSimdPrims s;
     nextNumPrimsIncrement := nextNumPrimsIncrement s;
     nextReset := nextReset s; isStreaming := isStreaming s |}.
Definition set_counter (x : Z) (s : PA_STATE_OPT) : PA_STATE_OPT :=
  {| streamSizeInVerts := streamSizeInVerts s; numPrims := numPrims s;
     numPrimsComplete := numPrimsComplete s; numSimdPrims := numSimdPrims s;
     cur := cur s; prev := prev s; first := first s; counter := x;
     reset := reset s; primIDIncr := primIDIncr s; primID := primID s;
     pfnPaFunc := pfnPaFunc s; pfnPaSingleFunc := pfnPaSingleFunc s;
     pfnPaFuncReset := pfnPaFuncReset s; pfnPaNextFunc := pfnPaNextFunc s;
     nextNumSimdPrims := nextNumSimdPrims s;
     nextNumPrimsIncrement := nextNumPrimsIncrement s;
     nextReset := nextReset s; isStreaming := isStreaming s |}.
Definition set_reset (x : bool) (s : PA_STATE_OPT) : PA_STATE_OPT :=
  {| streamSizeInVerts := streamSizeInVerts s; numPrims := numPrims s;
     numPrimsComplete := numPrimsComplete s; numSimdPrims := numSimdPrims s;
     cur := cur s; prev := prev s; first := first s; counter := counter s;
     reset := x; primIDIncr := primIDIncr s; primID := primID s;
     pfnPaFunc := pfnPaFunc s; pfnPaSingleFunc := pfnPaSingleFunc s;
     pfnPaFuncReset := pfnPaFuncReset s; pfnPaNextFunc := pfnPaNextFunc s;
     nextNumSimdPrims := nextNumSimdPrims s;
     nextNumPrimsIncrement := nextNumPrimsIncrement s;
     nextReset := nextReset s; isStreaming := isStreaming s |}.
Definition set_pfnPaFunc (x : PFN_PA_FUNC) (s : PA_STATE_OPT) : PA_STATE_OPT :=
  {| streamSizeInVerts := streamSizeInVerts s; numPrims := numPrims s;
     numPrimsComplete := numPrimsComplete s; numSimdPrims := numSimdPrims s;
     cur := cur s; prev := prev s; first := first s; counter := counter s;
     reset := reset s; primIDIncr := primIDIncr s; primID := primID s;
     pfnPaFunc := x; pfnPaSingleFunc := pfnPaSingleFunc s;
     pfnPaFuncReset := pfnPaFuncReset s; pfnPaNextFunc := pfnPaNextFunc s;
     nextNumSimdPrims := nextNumSimdPrims s;
     nextNumPrimsIncrement := nextNumPrimsIncrement s;
     nextReset := nextReset s; isStreaming := isStreaming s |}.
Definition set_pfnPaSingleFunc (x : PFN_PA_SINGLE_FUNC) (s : PA_STATE_OPT) : PA_STATE_OPT :=
  {| streamSizeInVerts := streamSizeInVerts s; numPrims := numPrims s;
     numPrimsComplete := numPrimsComplete s; numSimdPrims := numSimdPrims s;
     cur := cur s; prev := prev s; first := first s; counter := counter s;
     reset := reset s; primIDIncr := primIDIncr s; primID := primID s;
     pfnPaFunc := pfnPaFunc s; pfnPaSingleFunc := x;
     pfnPaFuncReset := pfnPaFuncReset s; pfnPaNextFunc := pfnPaNextFunc s;
     nextNumSimdPrims := nextNumSimdPrims s;
     nextNumPrimsIncrement := nextNumPrimsIncrement s;
     nextReset := nextReset s; isStreaming := isStreaming s |}.
Definition set_pfnPaNextFunc (x : PFN_PA_FUNC) (s : PA_STATE_OPT) : PA_STATE_OPT :=
  {| streamSizeInVerts := streamSizeInVerts s; numPrims := numPrims s;
     numPrimsComplete := numPrimsComplete s; numSimdPrims := numSimdPrims s;
     cur := cur s; prev := prev s; first := first s; counter := counter s;
     reset := reset s; primIDIncr := primIDIncr s; primID := primID s;
     pfnPaFunc := pfnPaFunc s; pfnPaSingleFunc := pfnPaSingleFunc s;
     pfnPaFuncReset := pfnPaFuncReset s; pfnPaNextFunc := x;
     nextNumSimdPrims := nextNumSimdPrims s;
     nextNumPrimsIncrement := nextNumPrimsIncrement s;
     nextReset := nextReset s; isStreaming := isStreaming s |}.
Definition set_nextNumSimdPrims (x : Z) (s : PA_STATE_OPT) : PA_STATE_OPT :=
  {| streamSizeInVerts := streamSizeInVerts s; numPrims := numPrims s;
     numPrimsComplete := numPrimsComplete s; numSimdPrims := numSimdPrims s;
     cur := cur s; prev := prev s; first := first s; counter := counter s;
     reset := reset s; primIDIncr := primIDIncr s; primID := primID s;
     pfnPaFunc := pfnPaFunc s; pfnPaSingleFunc := pfnPaSingleFunc s;
     pfnPaFuncReset := pfnPaFuncReset s; pfnPaNextFunc := pfnPaNextFunc s;
     nextNumSimdPrims := x; nextNumPrimsIncrement := nextNumPrimsIncrement s;
     nextReset := nextReset s; isStreaming := isStreaming s |}.
Definition set_nextNumPrimsIncrement (x : Z) (s : PA_STATE_OPT) : PA_STATE_OPT :=
  {| streamSizeInVerts := streamSizeInVerts s; numPrims := numPrims s;
     numPrimsComplete := numPrimsComplete s; numSimdPrims := numSimdPrims s;
     cur := cur s; prev := prev s; first := first s; counter := counter s;
     reset := reset s; primIDIncr := primIDIncr s; primID := primID s;
     pfnPaFunc := pfnPaFunc s; pfnPaSingleFunc := pfnPaSingleFunc s;
     pfnPaFuncReset := pfnPaFuncReset s; pfnPaNextFunc := pfnPaNextFunc s;
     nextNumSimdPrims := nextNumSimdPrims s; nextNumPrimsIncrement := x;
     nextReset := nextReset s; isStreaming := isStreaming s |}.
Definition set_nextReset (x : bool) (s : PA_STATE_OPT) : PA_STATE_OPT :=
  {| streamSizeInVerts := streamSizeInVerts s; numPrims := numPrims s;
     numPrimsComplete := numPrimsComplete s; numSimdPrims := numSimdPrims s;
     cur := cur s; prev := prev s; first := first s; counter := counter s;
     reset := reset s; primIDIncr := primIDIncr s; primID := primID s;
     pfnPaFunc := pfnPaFunc s; pfnPaSingleFunc := pfnPaSingleFunc s;
     pfnPaFuncReset := pfnPaFuncReset s; pfnPaNextFunc := pfnPaNextFunc s;
     nextNumSimdPrims := nextNumSimdPrims s;
     nextNumPrimsIncrement := nextNumPrimsIncrement s; nextReset := x;
     isStreaming := isStreaming s |}.

Definition HasWork (s : PA_STATE_OPT) : bool :=
  if numPrimsComplete s <? numPrims s then true else false.

Definition NextPrim (s : PA_STATE_OPT) : bool * PA_STATE_OPT :=
  let s := set_pfnPaFunc (pfnPaNextFunc s) s in
  let s := set_numSimdPrims (nextNumSimdPrims s) s in
  let s := set_numPrimsComplete
             (u32 (numPrimsComplete s + nextNumPrimsIncrement s)) s in
  let s := set_reset (nextReset s) s in
  let s := if isStreaming s then set_reset false s else s in
  let morePrims := false in
  let '(morePrims, s) :=
    if 0 <? numSimdPrims s
    then (true, set_numSimdPrims (u32 (numSimdPrims s - 1)) s)
    else
      let s := set_counter (if reset s then 0 else u32 (counter s + 1)) s in
      (morePrims, set_reset false s) in
  let s := set_pfnPaFunc (pfnPaNextFunc s) s in
  let morePrims := if negb (HasWork s) then false else morePrims in
  (morePrims, s).

(** The state part of [GetNextVsOutput]; the reference it returns is the
    batch [cur] of the vertex stream.  [counter % numSimdVerts] is undefined
    for a stream of fewer than 8 vertices: [None]. *)
Definition GetNextVsOutput (s : PA_STATE_OPT) : option PA_STATE_OPT :=
  let numSimdVerts := streamSizeInVerts s / KNOB_SIMD_WIDTH in
  if numSimdVerts =? 0 then None
  else
    let s := set_prev (cur s) s in
    Some (set_cur (counter s mod numSimdVerts) s).

Definition GetNextStreamOutput (s : PA_STATE_OPT) : bool * PA_STATE_OPT :=
  let s := set_prev (cur s) s in
  let s := set_cur (counter s) s in
  (HasWork s, s).

Definition NumPrims (s : PA_STATE_OPT) : Z :=
  if numPrims s <? u32 (numPrimsComplete s + nextNumPrimsIncrement s)
  then u32 (KNOB_SIMD_WIDTH
            - u32 (u32 (numPrimsComplete s + nextNumPrimsIncrement s)
                   - numPrims s))
  else KNOB_SIMD_WIDTH.

Definition SetNextState (pfnPaNextFunc' : PFN_PA_FUNC)
  (pfnPaNextSingleFunc : PFN_PA_SINGLE_FUNC)
  (numSimdPrims' numPrimsIncrement : Z) (reset' : bool)
  (s : PA_STATE_OPT) : PA_STATE_OPT :=
  let s := set_pfnPaNextFunc pfnPaNextFunc' s in
  let s := set_nextNumSimdPrims numSimdPrims' s in
  let s := set_nextNumPrimsIncrement numPrimsIncrement s in
  let s := set_nextReset reset' s in
  set_pfnPaSingleFunc pfnPaNextSingleFunc s.

Definition Reset (s : PA_STATE_OPT) : PA_STATE_OPT :=
  let s := set_pfnPaFunc (pfnPaFuncReset s) s in
  let s := set_numPrimsComplete 0 s in
  let s := set_numSimdPrims 0 s in
  let s := set_cur 0 s in
  let s := set_prev 0 s in
  let s := set_first 0 s in
  let s := set_counter 0 s in
  set_reset false s.

Definition GetPrimID (startID : Z) (s : PA_STATE_OPT) : simdscalari :=
  _simd_add_epi32 (primID s)
    (_simd_set1_epi32
       (u32 (startID
             + u32 (primIDIncr s * (numPrimsComplete s / KNOB_SIMD_WIDTH))))).

End WithTopologyFunctions.

Arguments streamSizeInVerts {_ _} _.
Arguments numPrims {_ _} _.
Arguments numPrimsComplete {_ _} _.
Arguments numSimdPrims {_ _} _.
Arguments cur {_ _} _.
Arguments prev {_ _} _.
Arguments first {_ _} _.
Arguments counter {_ _} _.
Arguments reset {_ _} _.
Arguments primIDIncr {_ _} _.
Arguments primID {_ _} _.
Arguments pfnPaFunc {_ _} _.
Arguments pfnPaSingleFunc {_ _} _.
Arguments pfnPaFuncReset {_ _} _.
Arguments pfnPaNextFunc {_ _} _.
Arguments nextNumSimdPrims {_ _} _.
Arguments nextNumPrimsIncrement {_ _} _.
Arguments nextReset {_ _} _.
Arguments isStreaming {_ _} _.
Arguments HasWork {_ _} _.
Arguments NextPrim {_ _} _.
Arguments NumPrims {_ _} _.
Arguments SetNextState {_ _} _ _ _ _ _ _.
Arguments Reset {_ _} _.
Arguments GetNextVsOutput {_ _} _.
Arguments GetNextStreamOutput {_ _} _.
Arguments GetPrimID {_ _} _ _.

End Opt.

(** ** Lane swizzles

    The free functions [swizzleLane0] ... [swizzleLane7] and [swizzleLaneN]
    turn one lane of a [simdvector] (its components [x], [y], [z], [w] are
    [v[0]] ... [v[3]]) into an [__m128], the list of its 4 floats. *)

(** [_mm256_unpacklo_ps(a, b)]: in each 128-bit half, the two low floats of
    [a] and [b], interleaved. *)
Definition _mm256_unpacklo_ps (a b : simdscalar) : simdscalar :=
  [nth 0 a 0; nth 0 b 0; nth 1 a 0; nth 1 b 0;
   nth 4 a 0; nth 4 b 0; nth 5 a 0; nth 5 b 0].

(** [_mm256_unpackhi_ps(a, b)]: in each 128-bit half, the two high floats of
    [a] and [b], interleaved. *)
Definition _mm256_unpackhi_ps (a b : simdscalar) : simdscalar :=
  [nth 2 a 0; nth 2 b 0; nth 3 a 0; nth 3 b 0;
   nth 6 a 0; nth 6 b 0; nth 7 a 0; nth 7 b 0].

(** [_mm256_extractf128_ps(a, imm8)]: the half of [a] that bit 0 of [imm8]
    selects. *)
Definition _mm256_extractf128_ps (a : simdscalar) (imm8 : Z) : list Z :=
  if Z.testbit imm8 0
  then [nth 4 a 0; nth 5 a 0; nth 6 a 0; nth 7 a 0]
  else [nth 0 a 0; nth 1 a 0; nth 2 a 0; nth 3 a 0].

Definition _mm_setzero_ps : list Z := [0; 0; 0; 0].

Definition simdvector_x (a : simdvector) : simdscalar := nth 0 a [].
Definition simdvector_y (a : simdvector) : simdscalar := nth 1 a [].
Definition simdvector_z (a : simdvector) : simdscalar := nth 2 a [].
Definition simdvector_w (a : simdvector) : simdscalar := nth 3 a [].

Definition swizzleLane0 (a : simdvector) : list Z :=
  let tmp0 := _mm256_unpacklo_ps (simdvector_x a) (simdvector_z a) in
  let tmp1 := _mm256_unpacklo_ps (simdvector_y a) (simdvector_w a) in
  _mm256_extractf128_ps (_mm256_unpacklo_ps tmp0 tmp1) 0.

Definition swizzleLane1 (a : simdvector) : list Z :=
  let tmp0 := _mm256_unpacklo_ps (simdvector_x a) (simdvector_z a) in
  let tmp1 := _mm256_unpacklo_ps (simdvector_y a) (simdvector_w a) in
  _mm256_extractf128_ps (_mm256_unpackhi_ps tmp0 tmp1) 0.

Definition swizzleLane2 (a : simdvector) : list Z :=
  let tmp0 := _mm256_unpackhi_ps (simdvector_x a) (simdvector_z a) in
  let tmp1 := _mm256_unpackhi_ps (simdvector_y a) (simdvector_w a) in
  _mm256_extractf128_ps (_mm256_unpacklo_ps tmp0 tmp1) 0.

Definition swizzleLane3 (a : simdvector) : list Z :=
  let tmp0 := _mm256_unpackhi_ps (simdvector_x a) (simdvector_z a) in
  let tmp1 := _mm256_unpackhi_ps (simdvector_y a) (simdvector_w a) in
  _mm256_extractf128_ps (_mm256_unpackhi_ps tmp0 tmp1) 0.

Definition swizzleLane4 (a : simdvector) : list Z :=
  let tmp0 := _mm256_unpacklo_ps (simdvector_x a) (simdvector_z a) in
  let tmp1 := _mm256_unpacklo_ps (simdvector_y a) (simdvector_w a) in
  _mm256_extractf128_ps (_mm256_unpacklo_ps tmp0 tmp1) 1.

Definition swizzleLane5 (a : simdvector) : list Z :=
  let tmp0 := _mm256_unpacklo_ps (simdvector_x a) (simdvector_z a) in
  let tmp1 := _mm256_unpacklo_ps (simdvector_y a) (simdvector_w a) in
  _mm256_extractf128_ps (_mm256_unpackhi_ps tmp0 tmp1) 1.

Definition swizzleLane6 (a : simdvector) : list Z :=
  let tmp0 := _mm256_unpackhi_ps (simdvector_x a) (simdvector_z a) in
  let tmp1 := _mm256_unpackhi_ps (simdvector_y a) (simdvector_w a) in
  _mm256_extractf128_ps (_mm256_unpacklo_ps tmp0 tmp1) 1.

Definition swizzleLane7 (a : simdvector) : list Z :=
  let tmp0 := _mm256_unpackhi_ps (simdvector_x a) (simdvector_z a) in
  let tmp1 := _mm256_unpackhi_ps (simdvector_y a) (simdvector_w a) in
  _mm256_extractf128_ps (_mm256_unpackhi_ps tmp0 tmp1) 1.

Definition swizzleLaneN (a : simdvector) (lane : Z) : list Z :=
  match lane with
  | 0 => swizzleLane0 a
  | 1 => swizzleLane1 a
  | 2 => swizzleLane2 a
  | 3 => swizzleLane3 a
  | 4 => swizzleLane4 a
  | 5 => swizzleLane5 a
  | 6 => swizzleLane6 a
  | 7 => swizzleLane7 a
  | _ => _mm_setzero_ps
  end.

(** ** The assembler of domain shader output, [PA_TESS] *)

Module Tess.

Record PA_TESS : Type := mk_PA_TESS {
  binTopology : PRIMITIVE_TOPOLOGY;
  m_pVertexData : Z -> Z;  (* domain shader output, one float per index *)
  m_attributeStrideInVectors : Z;
  m_numAttributes : Z;
  m_numPrims : Z;
  m_ppIndices : list Z;  (* three pointers into the index memory *)
  m_numVertsPerPrim : Z;
  m_vPrimId : simdscalari
}.

Definition set_m_numPrims (x : Z) (s : PA_TESS) : PA_TESS :=
  {| binTopology := binTopology s; m_pVertexData := m_pVertexData s;
     m_attributeStrideInVectors := m_attributeStrideInVectors s;
     m_numAttributes := m_numAttributes s; m_numPrims := x;
     m_ppIndices := m_ppIndices s; m_numVertsPerPrim := m_numVertsPerPrim s;
     m_vPrimId := m_vPrimId s |}.
Definition set_m_ppIndices (x : list Z) (s : PA_TESS) : PA_TESS :=
  {| binTopology := binTopology s; m_pVertexData := m_pVertexData s;
     m_attributeStrideInVectors := m_attributeStrideInVectors s;
     m_numAttributes := m_numAttributes s; m_numPrims := m_numPrims s;
     m_ppIndices := x; m_numVertsPerPrim := m_numVertsPerPrim s;
     m_vPrimId := m_vPrimId s |}.

(** [in_ppIndices] are the addresses of the three caller-owned index arrays,
    in words of the index memory.  An unsupported topology trips the
    constructor's [SWR_ASSERT]. *)
Definition PA_TESS_ctor (in_pVertData : Z -> Z)
  (in_attributeStrideInVectors in_numAttributes : Z) (in_ppIndices : list Z)
  (in_numPrims : Z) (in_binTopology : PRIMITIVE_TOPOLOGY) : option PA_TESS :=
  let s := {| binTopology := in_binTopology;
              m_pVertexData := in_pVertData;
              m_attributeStrideInVectors := in_attributeStrideInVectors;
              m_numAttributes := in_numAttributes;
              m_numPrims := in_numPrims;
              m_ppIndices := [load in_ppIndices 0; load in_ppIndices 1;
                              load in_ppIndices 2];
              m_numVertsPerPrim := 0;
              m_vPrimId := _simd_setzero_si |} in
  let set_m_numVertsPerPrim x :=
    {| binTopology := binTopology s; m_pVertexData := m_pVertexData s;
       m_attributeStrideInVectors := m_attributeStrideInVectors s;
       m_numAttributes := m_numAttributes s; m_numPrims := m_numPrims s;
       m_ppIndices := m_ppIndices s; m_numVertsPerPrim := x;
       m_vPrimId := m_vPrimId s |} in
  match in_binTopology with
  | TOP_POINT_LIST => Some (set_m_numVertsPerPrim 1)
  | TOP_LINE_LIST => Some (set_m_numVertsPerPrim 2)
  | TOP_TRIANGLE_LIST => Some (set_m_numVertsPerPrim 3)
  | _ => None
  end.

Definition HasWork (s : PA_TESS) : bool := negb (m_numPrims s =? 0).

Definition NumPrims (s : PA_TESS) : Z := Z.min (m_numPrims s) KNOB_SIMD_WIDTH.

Definition maskGen : list Z :=
  [-1; -1; -1; -1; -1; -1; -1; -1; 0; 0; 0; 0; 0; 0; 0; 0].

(** [_simd_loadu_si(&maskGen[KNOB_SIMD_WIDTH - numPrims])] *)
Definition GenPrimMask (numPrims : Z) : option simdscalari :=
  if negb (numPrims <=? KNOB_SIMD_WIDTH) then None
  else Some (map (fun l => load maskGen (KNOB_SIMD_WIDTH - numPrims + Z.of_nat l))
               lanes).

(** The 8 words at [p], read as [int32] lanes. *)
Definition read_lanes (imem : Z -> Z) (p : Z) : simdscalari :=
  map (fun l => s32 (imem (p + Z.of_nat l))) lanes.

Definition sizeof_uint32_t : Z := 4.
Definition sizeof_simdscalari : Z := KNOB_SIMD_WIDTH * 4.

(** [_simd_load_si((const simdscalari* )p)], the aligned load
    ([_simd_loadu_si] is the unaligned one): it faults unless the address
    is a multiple of the size of a [simdscalari].  The index memory is
    addressed in words ([uint32_t]) from an aligned base, so that word [p]
    is at byte [4 p]. *)
Definition _simd_load_si (imem : Z -> Z) (p : Z) : option simdscalari :=
  if (sizeof_uint32_t * p) mod sizeof_simdscalari =? 0
  then Some (read_lanes imem p)
  else None.

Definition sizeof_float : Z := 4.
(** A [simdscalar] is 8 floats. *)
Definition sizeof_simdscalar : Z := KNOB_SIMD_WIDTH * sizeof_float.

(** [imem] is the index memory the three pointers of [m_ppIndices] point
    into; [verts] is the caller's output array.  A load that faults ends
    the call: the result is [None], as for a failed [SWR_ASSERT]. *)
Definition Assemble (imem : Z -> Z) (slot : Z) (verts : list simdvector)
  (s : PA_TESS) : option (bool * list simdvector) :=
  if negb (slot <? m_numAttributes s) then None
  else
    let numPrimsToAssemble := NumPrims s in
    if 0 =? numPrimsToAssemble then Some (false, verts)
    else
      match GenPrimMask numPrimsToAssemble with
      | None => None
      | Some mask =>
        let pBaseAttrib :=
          sizeof_simdscalar
          * u32 (u32 (slot * m_attributeStrideInVectors s) * 4) in
        match
          for_ (Z.to_nat (m_numVertsPerPrim s)) (fun i verts =>
            match verts with
            | None => None
            | Some verts =>
                match _simd_load_si imem (load (m_ppIndices s) (Z.of_nat i)) with
                | None => None
                | Some indices =>
                    let pBase := pBaseAttrib in
                    let '(v, _) :=
                      for_ 4 (fun c '(v, pBase) =>
                        (<[c := _simd_mask_i32gather_ps _simd_setzero_ps
                                  (m_pVertexData s) pBase indices mask 4]> v,
                         pBase + sizeof_float
                                 * u32 (m_attributeStrideInVectors s
                                        * KNOB_SIMD_WIDTH)))
                        (nth i verts [], pBase) in
                    Some (<[i := v]> verts)
                end
            end) (Some verts)
        with
        | None => None
        | Some verts => Some (true, verts)
        end
      end.

(** [verts] is the caller's array of [__m128], each the list of its 4
    floats. *)
Definition AssembleSingle (imem : Z -> Z) (slot primIndex : Z)
  (verts : list (list Z)) (s : PA_TESS) : option (list (list Z)) :=
  if negb (slot <? m_numAttributes s) then None
  else if negb (primIndex <? NumPrims s) then None
  else
    let pVertDataBase :=
      sizeof_simdscalar
      * u32 (u32 (slot * m_attributeStrideInVectors s) * 4) in
    Some (for_ (Z.to_nat (m_numVertsPerPrim s)) (fun i verts =>
      let index := imem (load (m_ppIndices s) (Z.of_nat i) + primIndex) in
      let pVertData := pVertDataBase in
      let '(pVert, _) :=
        for_ 4 (fun c '(pVert, pVertData) =>
          (<[c := m_pVertexData s (pVertData + sizeof_float * index)]> pVert,
           pVertData + sizeof_float
                       * u32 (m_attributeStrideInVectors s * KNOB_SIMD_WIDTH)))
          (nth i verts [], pVertData) in
      <[i := pVert]> verts) verts).

Definition NextPrim (s : PA_TESS) : bool * PA_TESS :=
  let numPrims := NumPrims s in
  let s := set_m_numPrims (u32 (m_numPrims s - numPrims)) s in
  let s := set_m_ppIndices (store (m_ppIndices s) 0
                              (load (m_ppIndices s) 0 + numPrims)) s in
  let s := set_m_ppIndices (store (m_ppIndices s) 1
                              (load (m_ppIndices s) 1 + numPrims)) s in
  let s := set_m_ppIndices (store (m_ppIndices s) 2
                              (load (m_ppIndices s) 2 + numPrims)) s in
  (HasWork s, s).

(** [void Reset() { SWR_ASSERT(0); }] *)
Definition Reset (s : PA_TESS) : option PA_TESS := None.

Definition GetPrimID (startID : Z) (s : PA_TESS) : simdscalari :=
  _simd_add_epi32 (_simd_set1_epi32 startID) (m_vPrimId s).

(** The float at index [idx] of the lane array of component [c] of attribute
    [slot]: an attribute is 4 component arrays of
    [m_attributeStrideInVectors] vectors each, one after the other. *)
Definition component_lane_array (s : PA_TESS) (slot c idx : Z) : Z :=
  m_pVertexData s
    (sizeof_float
     * ((slot * 4 + c) * m_attributeStrideInVectors s * KNOB_SIMD_WIDTH + idx)).

(** The calls a caller makes between construction and the end of the draw;
    [Assemble] and [AssembleSingle] write to the caller's arrays only. *)
Inductive op : Type :=
| op_Assemble (slot : Z) (verts : list simdvector)
| op_AssembleSingle (slot primIndex : Z) (verts : list (list Z))
| op_NextPrim.

Definition run_op (o : op) (s : PA_TESS) : PA_TESS :=
  match o with
  | op_NextPrim => snd (NextPrim s)
  | op_Assemble _ _ | op_AssembleSingle _ _ _ => s
  end.

Definition run_ops (ops : list op) (s : PA_TESS) : PA_TESS :=
  fold_left (fun s o => run_op o s) ops s.

End Tess.

(** ** The cut-aware assembler, [PA_STATE_CUT] *)

Module Cut.

(** What [pa.h] takes from its environment: the number of attribute slots of
    a [simdvertex] (it fixes [sizeof(simdvertex)]) and the word found in
    storage that the source reads or copies without having written it (the
    members the constructor leaves unset, and [nextTri[3]]). *)
Record Knobs : Type := {
  KNOB_NUM_ATTRIBUTES : Z;
  uninit : Z
}.

Definition sizeof_float : Z := 4.
(** A [simdvector] is 4 components of 8 floats. *)
Definition sizeof_simdvector : Z := 4 * KNOB_SIMD_WIDTH * sizeof_float.
Definition sizeof_simdvertex (k : Knobs) : Z :=
  KNOB_NUM_ATTRIBUTES k * sizeof_simdvector.

(** The member functions [pfnPa] can point to. *)
Inductive PFN_PA_FUNC : Type :=
| pfn_ProcessVertTriList
| pfn_ProcessVertTriListAdj
| pfn_ProcessVertTriListAdjNoGs
| pfn_ProcessVertTriStrip
| pfn_ProcessVertTriStripAdj (gsEnabled : bool)
| pfn_ProcessVertPointList
| pfn_ProcessVertLineList
| pfn_ProcessVertLineListAdj
| pfn_ProcessVertLineListAdjNoGs
| pfn_ProcessVertLineStrip
| pfn_ProcessVertLineStripAdj
| pfn_ProcessVertLineStripAdjNoGs.

Record PA_STATE_CUT : Type := mk_PA_STATE_CUT {
  pStreamBase : Z -> Z;  (* vertex stream: the float stored at a byte offset *)
  streamSizeInVerts : Z;  (* total size of the input stream in verts *)
  binTopology : PRIMITIVE_TOPOLOGY;
  pCutIndices : list Z;  (* cut indices buffer, 1 bit per vertex *)
  numVerts : Z;  (* number of vertices available in buffer store *)
  numAttribs : Z;  (* number of attributes *)
  numRemainingVerts : Z;  (* int32: number of verts remaining to be assembled *)
  numVertsToAssemble : Z;  (* total number of verts to assemble for the draw *)
  indices : list (list Z);  (* current index buffer for gather *)
  vOffsets : list simdscalari;  (* byte offsets for currently assembling simd *)
  numPrimsAssembled : Z;  (* number of primitives that are fully assembled *)
  headVertex : Z;  (* current unused vertex slot in vertex buffer store *)
  tailVertex : Z;  (* beginning vertex currently assembling *)
  curVertex : Z;  (* current unprocessed vertex *)
  startPrimId : Z;  (* starting prim id *)
  vPrimId : simdscalari;  (* vector of prim ID *)
  needOffsets : bool;  (* need to compute gather offsets for current SIMD *)
  vertsPerPrim : Z;
  processCutVerts : bool;  (* vertex indices with cuts are processed as normal *)
  vert : list Z;  (* topology state tracking *)
  curIndex : Z;
  reverseWinding : bool;  (* indicates reverse winding for strips *)
  adjExtraVert : Z;  (* int32: extra vert uses for tristrip w/ adj *)
  pfnPa : PFN_PA_FUNC  (* per-topology function that processes a single vert *)
}.

Definition set_pStreamBase (x : Z -> Z) (s : PA_STATE_CUT) : PA_STATE_CUT :=
  {| pStreamBase := x; streamSizeInVerts := streamSizeInVerts s;
     binTopology := binTopology s; pCutIndices := pCutIndices s;
     numVerts := numVerts s; numAttribs := numAttribs s;
     numRemainingVerts := numRemainingVerts s;
     numVertsToAssemble := numVertsToAssemble s; indices := indices s;
     vOffsets := vOffsets s; numPrimsAssembled := numPrimsAssembled s;
     headVertex := headVertex s; tailVertex := tailVertex s;
     curVertex := curVertex s; startPrimId := startPrimId s;
     vPrimId := vPrimId s; needOffsets := needOffsets s;
     vertsPerPrim := vertsPerPrim s; processCutVerts := processCutVerts s;
     vert := vert s; curIndex := curIndex s;
     reverseWinding := reverseWinding s; adjExtraVert := adjExtraVert s;
     pfnPa := pfnPa s |}.
Definition set_pCutIndices (x : list Z) (s : PA_STATE_CUT) : PA_STATE_CUT :=
  {| pStreamBase := pStreamBase s; streamSizeInVerts := streamSizeInVerts s;
     binTopology := binTopology s; pCutIndices := x; numVerts := numVerts s;
     numAttribs := numAttribs s; numRemainingVerts := numRemainingVerts s;
     numVertsToAssemble := numVertsToAssemble s; indices := indices s;
     vOffsets := vOffsets s; numPrimsAssembled := numPrimsAssembled s;
     headVertex := headVertex s; tailVertex := tailVertex s;
     curVertex := curVertex s; startPrimId := startPrimId s;
     vPrimId := vPrimId s; needOffsets := needOffsets s;
     vertsPerPrim := vertsPerPrim s; processCutVerts := processCutVerts s;
     vert := vert s; curIndex := curIndex s;
     reverseWinding := reverseWinding s; adjExtraVert := adjExtraVert s;
     pfnPa := pfnPa s |}.
Definition set_numRemainingVerts (x : Z) (s : PA_STATE_CUT) : PA_STATE_CUT :=
  {| pStreamBase := pStreamBase s; streamSizeInVerts := streamSizeInVerts s;
     binTopology := binTopology s; pCutIndices := pCutIndices s;
     numVerts := numVerts s; numAttribs := numAttribs s;
     numRemainingVerts := x; numVertsToAssemble := numVertsToAssemble s;
     indices := indices s; vOffsets := vOffsets s;
     numPrimsAssembled := numPrimsAssembled s; headVertex := headVertex s;
     tailVertex := tailVertex s; curVertex := curVertex s;
     startPrimId := startPrimId s; vPrimId := vPrimId s;
     needOffsets := needOffsets s; vertsPerPrim := vertsPerPrim s;
     processCutVerts := processCutVerts s; vert := vert s;
     curIndex := curIndex s; reverseWinding := reverseWinding s;
     adjExtraVert := adjExtraVert s; pfnPa := pfnPa s |}.
Definition set_indices (x : list (list Z)) (s : PA_STATE_CUT) : PA_STATE_CUT :=
  {| pStreamBase := pStreamBase s; streamSizeInVerts := streamSizeInVerts s;
     binTopology := binTopology s; pCutIndices := pCutIndices s;
     numVerts := numVerts s; numAttribs := numAttribs s;
     numRemainingVerts := numRemainingVerts s;
     numVertsToAssemble := numVertsToAssemble s; indices := x;
     vOffsets := vOffsets s; numPrimsAssembled := numPrimsAssembled s;
     headVertex := headVertex s; tailVertex := tailVertex s;
     curVertex := curVertex s; startPrimId := startPrimId s;
     vPrimId := vPrimId s; needOffsets := needOffsets s;
     vertsPerPrim := vertsPerPrim s; processCutVerts := processCutVerts s;
     vert := vert s; curIndex := curIndex s;
     reverseWinding := reverseWinding s; adjExtraVert := adjExtraVert s;
     pfnPa := pfnPa s |}.
Definition set_vOffsets (x : list simdscalari) (s : PA_STATE_CUT) : PA_STATE_CUT :=
  {| pStreamBase := pStreamBase s; streamSizeInVerts := streamSizeInVerts s;
     binTopology := binTopology s; pCutIndices := pCutIndices s;
     numVerts := numVerts s; numAttribs := numAttribs s;
     numRemainingVerts := numRemainingVerts s;
     numVertsToAssemble := numVertsToAssemble s; indices := indices s;
     vOffsets := x; numPrimsAssembled := numPrimsAssembled s;
     headVertex := headVertex s; tailVertex := tailVertex s;
     curVertex := curVertex s; startPrimId := startPrimId s;
     vPrimId := vPrimId s; needOffsets := needOffsets s;
     vertsPerPrim := vertsPerPrim s; processCutVerts := processCutVerts s;
     vert := vert s; curIndex := curIndex s;
     reverseWinding := reverseWinding s; adjExtraVert := adjExtraVert s;
     pfnPa := pfnPa s |}.
Definition set_numPrimsAssembled (x : Z) (s : PA_STATE_CUT) : PA_STATE_CUT :=
  {| pStreamBase := pStreamBase s; streamSizeInVerts := streamSizeInVerts s;
     binTopology := binTopology s; pCutIndices := pCutIndices s;
     numVerts := numVerts s; numAttribs := numAttribs s;
     numRemainingVerts := numRemainingVerts s;
     numVertsToAssemble := numVertsToAssemble s; indices := indices s;
     vOffsets := vOffsets s; numPrimsAssembled := x;
     headVertex := headVertex s; tailVertex := tailVertex s;
     curVertex := curVertex s; startPrimId := startPrimId s;
     vPrimId := vPrimId s; needOffsets := needOffsets s;
     vertsPerPrim := vertsPerPrim s; processCutVerts := processCutVerts s;
     vert := vert s; curIndex := curIndex s;
     reverseWinding := reverseWinding s; adjExtraVert := adjExtraVert s;
     pfnPa := pfnPa s |}.
Definition set_headVertex (x : Z) (s : PA_STATE_CUT) : PA_STATE_CUT :=
  {| pStreamBase := pStreamBase s; streamSizeInVerts := streamSizeInVerts s;
     binTopology := binTopology s; pCutIndices := pCutIndices s;
     numVerts := numVerts s; numAttribs := numAttribs s;
     numRemainingVerts := numRemainingVerts s;
     numVertsToAssemble := numVertsToAssemble s; indices := indices s;
     vOffsets := vOffsets s; numPrimsAssembled := numPrimsAssembled s;
     headVertex := x; tailVertex := tailVertex s; curVertex := curVertex s;
     startPrimId := startPrimId s; vPrimId := vPrimId s;
     needOffsets := needOffsets s; vertsPerPrim := vertsPerPrim s;
     processCutVerts := processCutVerts s; vert := vert s;
     curIndex := curIndex s; reverseWinding := reverseWinding s;
     adjExtraVert := adjExtraVert s; pfnPa := pfnPa s |}.
Definition set_tailVertex (x : Z) (s : PA_STATE_CUT) : PA_STATE_CUT :=
  {| pStreamBase := pStreamBase s; streamSizeInVerts := streamSizeInVerts s;
     binTopology := binTopology s; pCutIndices := pCutIndices s;
     numVerts := numVerts s; numAttribs := numAttribs s;
     numRemainingVerts := numRemainingVerts s;
     numVertsToAssemble := numVertsToAssemble s; indices := indices s;
     vOffsets := vOffsets s; numPrimsAssembled := numPrimsAssembled s;
     headVertex := headVertex s; tailVertex := x; curVertex := curVertex s;
     startPrimId := startPrimId s; vPrimId := vPrimId s;
     needOffsets := needOffsets s; vertsPerPrim := vertsPerPrim s;
     processCutVerts := processCutVerts s; vert := vert s;
     curIndex := curIndex s; reverseWinding := reverseWinding s;
     adjExtraVert := adjExtraVert s; pfnPa := pfnPa s |}.
Definition set_curVertex (x : Z) (s : PA_STATE_CUT) : PA_STATE_CUT :=
  {| pStreamBase := pStreamBase s; streamSizeInVerts := streamSizeInVerts s;
     binTopology := binTopology s; pCutIndices := pCutIndices s;
     numVerts := numVerts s; numAttribs := numAttribs s;
     numRemainingVerts := numRemainingVerts s;
     numVertsToAssemble := numVertsToAssemble s; indices := indices s;
     vOffsets := vOffsets s; numPrimsAssembled := numPrimsAssembled s;
     headVertex := headVertex s; tailVertex := tailVertex s; curVertex := x;
     startPrimId := startPrimId s; vPrimId := vPrimId s;
     needOffsets := needOffsets s; vertsPerPrim := vertsPerPrim s;
     processCutVerts := processCutVerts s; vert := vert s;
     curIndex := curIndex s; reverseWinding := reverseWinding s;
     adjExtraVert := adjExtraVert s; pfnPa := pfnPa s |}.
Definition set_vPrimId (x : simdscalari) (s : PA_STATE_CUT) : PA_STATE_CUT :=
  {| pStreamBase := pStreamBase s; streamSizeInVerts := streamSizeInVerts s;
     binTopology := binTopology s; pCutIndices := pCutIndices s;
     numVerts := numVerts s; numAttribs := numAttribs s;
     numRemainingVerts := numRemainingVerts s;
     numVertsToAssemble := numVertsToAssemble s; indices := indices s;
     vOffsets := vOffsets s; numPrimsAssembled := numPrimsAssembled s;
     headVertex := headVertex s; tailVertex := tailVertex s;
     curVertex := curVertex s; startPrimId := startPrimId s; vPrimId := x;
     needOffsets := needOffsets s; vertsPerPrim := vertsPerPrim s;
     processCutVerts := processCutVerts s; vert := vert s;
     curIndex := curIndex s; reverseWinding := reverseWinding s;
     adjExtraVert := adjExtraVert s; pfnPa := pfnPa s |}.
Definition set_needOffsets (x : bool) (s : PA_STATE_CUT) : PA_STATE_CUT :=
  {| pStreamBase := pStreamBase s; streamSizeInVerts := streamSizeInVerts s;
     binTopology := binTopology s; pCutIndices := pCutIndices s;
     numVerts := numVerts s; numAttribs := numAttribs s;
     numRemainingVerts := numRemainingVerts s;
     numVertsToAssemble := numVertsToAssemble s; indices := indices s;
     vOffsets := vOffsets s; numPrimsAssembled := numPrimsAssembled s;
     headVertex := headVertex s; tailVertex := tailVertex s;
     curVertex := curVertex s; startPrimId := startPrimId s;
     vPrimId := vPrimId s; needOffsets := x; vertsPerPrim := vertsPerPrim s;
     processCutVerts := processCutVerts s; vert := vert s;
     curIndex := curIndex s; reverseWinding := reverseWinding s;
     adjExtraVert := adjExtraVert s; pfnPa := pfnPa s |}.
Definition set_vert (x : list Z) (s : PA_STATE_CUT) : PA_STATE_CUT :=
  {| pStreamBase := pStreamBase s; streamSizeInVerts := streamSizeInVerts s;
     binTopology := binTopology s; pCutIndices := pCutIndices s;
     numVerts := numVerts s; numAttribs := numAttribs s;
     numRemainingVerts := numRemainingVerts s;
     numVertsToAssemble := numVertsToAssemble s; indices := indices s;
     vOffsets := vOffsets s; numPrimsAssembled := numPrimsAssembled s;
     headVertex := headVertex s; tailVertex := tailVertex s;
     curVertex := curVertex s; startPrimId := startPrimId s;
     vPrimId := vPrimId s; needOffsets := needOffsets s;
     vertsPerPrim := vertsPerPrim s; processCutVerts := processCutVerts s;
     vert := x; curIndex := curIndex s; reverseWinding := reverseWinding s;
     adjExtraVert := adjExtraVert s; pfnPa := pfnPa s |}.
Definition set_curIndex (x : Z) (s : PA_STATE_CUT) : PA_STATE_CUT :=
  {| pStreamBase := pStreamBase s; streamSizeInVerts := streamSizeInVerts s;
     binTopology := binTopology s; pCutIndices := pCutIndices s;
     numVerts := numVerts s; numAttribs := numAttribs s;
     numRemainingVerts := numRemainingVerts s;
     numVertsToAssemble := numVertsToAssemble s; indices := indices s;
     vOffsets := vOffsets s; numPrimsAssembled := numPrimsAssembled s;
     headVertex := headVertex s; tailVertex := tailVertex s;
     curVertex := curVertex s; startPrimId := startPrimId s;
     vPrimId := vPrimId s; needOffsets := needOffsets s;
     vertsPerPrim := vertsPerPrim s; processCutVerts := processCutVerts s;
     vert := vert s; curIndex := x; reverseWinding := reverseWinding s;
     adjExtraVert := adjExtraVert s; pfnPa := pfnPa s |}.
Definition set_reverseWinding (x : bool) (s : PA_STATE_CUT) : PA_STATE_CUT :=
  {| pStreamBase := pStreamBase s; streamSizeInVerts := streamSizeInVerts s;
     binTopology := binTopology s; pCutIndices := pCutIndices s;
     numVerts := numVerts s; numAttribs := numAttribs s;
     numRemainingVerts := numRemainingVerts s;
     numVertsToAssemble := numVertsToAssemble s; indices := indices s;
     vOffsets := vOffsets s; numPrimsAssembled := numPrimsAssembled s;
     headVertex := headVertex s; tailVertex := tailVertex s;
     curVertex := curVertex s; startPrimId := startPrimId s;
     vPrimId := vPrimId s; needOffsets := needOffsets s;
     vertsPerPrim := vertsPerPrim s; processCutVerts := processCutVerts s;
     vert := vert s; curIndex := curIndex s; reverseWinding := x;
     adjExtraVert := adjExtraVert s; pfnPa := pfnPa s |}.
Definition set_adjExtraVert (x : Z) (s : PA_STATE_CUT) : PA_STATE_CUT :=
  {| pStreamBase := pStreamBase s; streamSizeInVerts := streamSizeInVerts s;
     binTopology := binTopology s; pCutIndices := pCutIndices s;
     numVerts := numVerts s; numAttribs := numAttribs s;
     numRemainingVerts := numRemainingVerts s;
     numVertsToAssemble := numVertsToAssemble s; indices := indices s;
     vOffsets := vOffsets s; numPrimsAssembled := numPrimsAssembled s;
     headVertex := headVertex s; tailVertex := tailVertex s;
     curVertex := curVertex s; startPrimId := startPrimId s;
     vPrimId := vPrimId s; needOffsets := needOffsets s;
     vertsPerPrim := vertsPerPrim s; processCutVerts := processCutVerts s;
     vert := vert s; curIndex := curIndex s;
     reverseWinding := reverseWinding s; adjExtraVert := x; pfnPa := pfnPa s |}.

(** Modelled from the spec: [NumVertsPerPrim] is defined outside [pa.h]; a
    primitive is "formed from 1-6 vertices per the active topology", the
    adjacency forms keeping their adjacency vertices (4 for lines, 6 for
    triangles) only when they are forwarded to a geometry stage. *)
Definition NumVertsPerPrim (topo : PRIMITIVE_TOPOLOGY) (includeAdjVerts : bool)
  : Z :=
  match topo with
  | TOP_UNKNOWN => 0
  | TOP_POINT_LIST => 1
  | TOP_LINE_LIST | TOP_LINE_STRIP => 2
  | TOP_LINE_LIST_ADJ | TOP_LISTSTRIP_ADJ => if includeAdjVerts then 4 else 2
  | TOP_TRIANGLE_LIST | TOP_TRIANGLE_STRIP => 3
  | TOP_TRI_LIST_ADJ | TOP_TRI_STRIP_ADJ => if includeAdjVerts then 6 else 3
  end.

Section WithKnobs.

Variable k : Knobs.

(** [gsEnabled] is [pDC->pState->state.gsState.gsEnable].  The members the
    constructor does not assign hold [uninit k]; an unimplemented topology
    trips its [assert]. *)
Definition PA_STATE_CUT_ctor (gsEnabled : bool) (in_pStream : Z -> Z)
  (in_streamSizeInVerts : Z) (in_pIndices : list Z)
  (in_numVerts in_numAttribs : Z) (topo : PRIMITIVE_TOPOLOGY)
  (in_processCutVerts : bool) : option PA_STATE_CUT :=
  let mk pfn :=
    Some {| pStreamBase := in_pStream;
            streamSizeInVerts := in_streamSizeInVerts;
            binTopology := topo;
            pCutIndices := in_pIndices;
            numVerts := in_streamSizeInVerts;
            numAttribs := in_numAttribs;
            numRemainingVerts := s32 in_numVerts;
            numVertsToAssemble := u32 (s32 in_numVerts);
            indices := repeat (repeat 0 (Z.to_nat KNOB_SIMD_WIDTH))
                         (Z.to_nat MAX_NUM_VERTS_PER_PRIM);
            vOffsets := repeat (repeat (uninit k) (Z.to_nat KNOB_SIMD_WIDTH))
                          (Z.to_nat MAX_NUM_VERTS_PER_PRIM);
            numPrimsAssembled := 0;
            headVertex := 0;
            tailVertex := 0;
            curVertex := 0;
            startPrimId := uninit k;
            vPrimId := _mm256_set_epi32_7_0;
            needOffsets := false;
            vertsPerPrim := NumVertsPerPrim topo gsEnabled;
            processCutVerts := in_processCutVerts;
            vert := repeat (uninit k) (Z.to_nat MAX_NUM_VERTS_PER_PRIM);
            curIndex := 0;
            reverseWinding := false;
            adjExtraVert := -1;
            pfnPa := pfn |} in
  match topo with
  | TOP_TRIANGLE_LIST => mk pfn_ProcessVertTriList
  | TOP_TRI_LIST_ADJ =>
      mk (if gsEnabled then pfn_ProcessVertTriListAdj
          else pfn_ProcessVertTriListAdjNoGs)
  | TOP_TRIANGLE_STRIP => mk pfn_ProcessVertTriStrip
  | TOP_TRI_STRIP_ADJ =>
      if gsEnabled then mk (pfn_ProcessVertTriStripAdj true)
      else mk (pfn_ProcessVertTriStripAdj false)
  | TOP_POINT_LIST => mk pfn_ProcessVertPointList
  | TOP_LINE_LIST => mk pfn_ProcessVertLineList
  | TOP_LINE_LIST_ADJ =>
      mk (if gsEnabled then pfn_ProcessVertLineListAdj
          else pfn_ProcessVertLineListAdjNoGs)
  | TOP_LINE_STRIP => mk pfn_ProcessVertLineStrip
  | TOP_LISTSTRIP_ADJ =>
      mk (if gsEnabled then pfn_ProcessVertLineStripAdj
          else pfn_ProcessVertLineStripAdjNoGs)
  | TOP_UNKNOWN => None
  end.

(** The state part of [GetNextVsOutput]; the reference it returns is batch
    [headVertex / KNOB_SIMD_WIDTH] of the vertex store ([fst]).  The source
    divides by [numVerts], which the factory sets to
    [MAX_NUM_VERTS_PER_PRIM * KNOB_SIMD_WIDTH]. *)
Definition GetNextVsOutput (s : PA_STATE_CUT) : Z * PA_STATE_CUT :=
  let vertexIndex := headVertex s / KNOB_SIMD_WIDTH in
  let s := set_headVertex (u32 (headVertex s + KNOB_SIMD_WIDTH) mod numVerts s) s in
  let s := set_needOffsets true s in
  (vertexIndex, s).

(** The reference [GetNextVsIndices] returns is entry
    [headVertex / KNOB_SIMD_WIDTH] of the cut buffer; the caller stores the
    batch's restart mask through it. *)
Definition GetNextVsIndices (s : PA_STATE_CUT) : Z :=
  headVertex s / KNOB_SIMD_WIDTH.

Definition write_cut_mask (mask : Z) (s : PA_STATE_CUT) : PA_STATE_CUT :=
  set_pCutIndices (store (pCutIndices s) (GetNextVsIndices s) mask) s.

Definition HasWork (s : PA_STATE_CUT) : bool :=
  (0 <? numRemainingVerts s) || negb (adjExtraVert s =? -1).

Definition GetNextStreamOutput (s : PA_STATE_CUT) : bool * PA_STATE_CUT :=
  let s := set_headVertex (u32 (headVertex s + KNOB_SIMD_WIDTH)) s in
  let s := set_needOffsets true s in
  (HasWork s, s).

Definition GetPrimID (startID : Z) (s : PA_STATE_CUT) : simdscalari :=
  _simd_add_epi32 (_simd_set1_epi32 startID) (vPrimId s).

Definition Reset (s : PA_STATE_CUT) : PA_STATE_CUT :=
  let s := set_numRemainingVerts (s32 (numVertsToAssemble s)) s in
  let s := set_numPrimsAssembled 0 s in
  let s := set_curIndex 0 s in
  let s := set_curVertex 0 s in
  let s := set_tailVertex 0 s in
  let s := set_headVertex 0 s in
  let s := set_reverseWinding false s in
  let s := set_adjExtraVert (-1) s in
  set_vPrimId _mm256_set_epi32_7_0 s.

Definition IsVertexStoreFull (s : PA_STATE_CUT) : bool :=
  u32 (headVertex s + KNOB_SIMD_WIDTH) mod numVerts s =? tailVertex s.

Definition RestartTopology (s : PA_STATE_CUT) : PA_STATE_CUT :=
  let s := set_curIndex 0 s in
  let s := set_reverseWinding false s in
  set_adjExtraVert (-1) s.

Definition IsCutIndex (vertex : Z) (s : PA_STATE_CUT) : bool :=
  let vertexIndex := vertex / KNOB_SIMD_WIDTH in
  let vertexOffset := Z.land vertex (KNOB_SIMD_WIDTH - 1) in
  Z.testbit (load (pCutIndices s) vertexIndex) vertexOffset.

(** *** Per-topology functions

    Each takes the vertex [index] to process and the [finish] flag, and
    assembles zero or one primitive into column [numPrimsAssembled] of the
    gather table. *)

Definition ProcessVertTriStrip (index : Z) (finish : bool) (s : PA_STATE_CUT)
  : PA_STATE_CUT :=
  let s := set_vert (store (vert s) (curIndex s) index) s in
  let s := set_curIndex (u32 (curIndex s + 1)) s in
  if curIndex s =? 3 then
    let s := set_indices (store2 (indices s) 0 (numPrimsAssembled s)
                            (load (vert s) 0)) s in
    let s :=
      if reverseWinding s then
        let s := set_indices (store2 (indices s) 1 (numPrimsAssembled s)
                                (load (vert s) 2)) s in
        set_indices (store2 (indices s) 2 (numPrimsAssembled s)
                       (load (vert s) 1)) s
      else
        let s := set_indices (store2 (indices s) 1 (numPrimsAssembled s)
                                (load (vert s) 1)) s in
        set_indices (store2 (indices s) 2 (numPrimsAssembled s)
                       (load (vert s) 2)) s in
    let s := set_numPrimsAssembled (u32 (numPrimsAssembled s + 1)) s in
    let s := set_vert (store (vert s) 0 (load (vert s) 1)) s in
    let s := set_vert (store (vert s) 1 (load (vert s) 2)) s in
    let s := set_curIndex 2 s in
    set_reverseWinding (negb (reverseWinding s)) s
  else s.

Definition AssembleTriStripAdj (gsEnabled : bool) (s : PA_STATE_CUT)
  : PA_STATE_CUT :=
  let s :=
    if negb gsEnabled then
      let s := set_vert (store (vert s) 1 (load (vert s) 2)) s in
      let s := set_vert (store (vert s) 2 (load (vert s) 4)) s in
      let s := set_indices (store2 (indices s) 0 (numPrimsAssembled s)
                              (load (vert s) 0)) s in
      let s := set_indices (store2 (indices s) 1 (numPrimsAssembled s)
                              (load (vert s) 1)) s in
      let s := set_indices (store2 (indices s) 2 (numPrimsAssembled s)
                              (load (vert s) 2)) s in
      let s := set_vert (store (vert s) 4 (load (vert s) 2)) s in
      set_vert (store (vert s) 2 (load (vert s) 1)) s
    else
      let s := set_indices (store2 (indices s) 0 (numPrimsAssembled s)
                              (load (vert s) 0)) s in
      let s := set_indices (store2 (indices s) 1 (numPrimsAssembled s)
                              (load (vert s) 1)) s in
      let s := set_indices (store2 (indices s) 2 (numPrimsAssembled s)
                              (load (vert s) 2)) s in
      let s := set_indices (store2 (indices s) 3 (numPrimsAssembled s)
                              (load (vert s) 3)) s in
      let s := set_indices (store2 (indices s) 4 (numPrimsAssembled s)
                              (load (vert s) 4)) s in
      set_indices (store2 (indices s) 5 (numPrimsAssembled s)
                     (load (vert s) 5)) s in
  set_numPrimsAssembled (u32 (numPrimsAssembled s + 1)) s.

(** The local array [nextTri] of [ProcessVertTriStripAdj]: five of its six
    entries are assigned, [nextTri[3]] is copied as it is found. *)
Definition nextTri (s : PA_STATE_CUT) : list Z :=
  if reverseWinding s then
    [load (vert s) 4; load (vert s) 0; load (vert s) 2; uninit k;
     load (vert s) 3; u32 (adjExtraVert s)]
  else
    [load (vert s) 2; u32 (adjExtraVert s); load (vert s) 3; uninit k;
     load (vert s) 4; load (vert s) 0].

Definition copy_nextTri (s : PA_STATE_CUT) : PA_STATE_CUT :=
  let nextTri := nextTri s in
  for_ 6 (fun i s =>
    set_vert (store (vert s) (Z.of_nat i) (load nextTri (Z.of_nat i))) s) s.

(** The [SWR_ASSERT] of case 6 is left out: case 6 is entered from case 5
    only, with an extra vertex pending. *)
Definition ProcessVertTriStripAdj (gsEnabled : bool) (index : Z)
  (finish : bool) (s : PA_STATE_CUT) : PA_STATE_CUT :=
  if finish && negb (adjExtraVert s =? -1) then
    let s := set_vert (store (vert s) 3 (u32 (adjExtraVert s))) s in
    let s := AssembleTriStripAdj gsEnabled s in
    set_adjExtraVert (-1) s
  else
    match curIndex s with
    | 0 | 1 | 2 | 4 =>
        let s := set_vert (store (vert s) (curIndex s) index) s in
        set_curIndex (u32 (curIndex s + 1)) s
    | 3 =>
        let s := set_vert (store (vert s) 5 index) s in
        set_curIndex (u32 (curIndex s + 1)) s
    | 5 =>
        if adjExtraVert s =? -1 then set_adjExtraVert (s32 index) s
        else
          let s := set_vert (store (vert s) 3 index) s in
          if negb gsEnabled then
            let s := AssembleTriStripAdj gsEnabled s in
            let s := copy_nextTri s in
            let s := set_adjExtraVert (-1) s in
            set_reverseWinding (negb (reverseWinding s)) s
          else set_curIndex (u32 (curIndex s + 1)) s
    | 6 =>
        let s := AssembleTriStripAdj gsEnabled s in
        let s := copy_nextTri s in
        let s := set_reverseWinding (negb (reverseWinding s)) s in
        let s := set_adjExtraVert (s32 index) s in
        set_curIndex (u32 (curIndex s - 1)) s
    | _ => s
    end.

Definition ProcessVertTriList (index : Z) (finish : bool) (s : PA_STATE_CUT)
  : PA_STATE_CUT :=
  let s := set_vert (store (vert s) (curIndex s) index) s in
  let s := set_curIndex (u32 (curIndex s + 1)) s in
  if curIndex s =? 3 then
    let s := set_indices (store2 (indices s) 0 (numPrimsAssembled s)
                            (load (vert s) 0)) s in
    let s := set_indices (store2 (indices s) 1 (numPrimsAssembled s)
                            (load (vert s) 1)) s in
    let s := set_indices (store2 (indices s) 2 (numPrimsAssembled s)
                            (load (vert s) 2)) s in
    let s := set_numPrimsAssembled (u32 (numPrimsAssembled s + 1)) s in
    set_curIndex 0 s
  else s.

Definition ProcessVertTriListAdj (index : Z) (finish : bool)
  (s : PA_STATE_CUT) : PA_STATE_CUT :=
  let s := set_vert (store (vert s) (curIndex s) index) s in
  let s := set_curIndex (u32 (curIndex s + 1)) s in
  if curIndex s =? 6 then
    let s := set_indices (store2 (indices s) 0 (numPrimsAssembled s)
                            (load (vert s) 0)) s in
    let s := set_indices (store2 (indices s) 1 (numPrimsAssembled s)
                            (load (vert s) 1)) s in
    let s := set_indices (store2 (indices s) 2 (numPrimsAssembled s)
                            (load (vert s) 2)) s in
    let s := set_indices (store2 (indices s) 3 (numPrimsAssembled s)
                            (load (vert s) 3)) s in
    let s := set_indices (store2 (indices s) 4 (numPrimsAssembled s)
                            (load (vert s) 4)) s in
    let s := set_indices (store2 (indices s) 5 (numPrimsAssembled s)
                            (load (vert s) 5)) s in
    let s := set_numPrimsAssembled (u32 (numPrimsAssembled s + 1)) s in
    set_curIndex 0 s
  else s.

Definition ProcessVertTriListAdjNoGs (index : Z) (finish : bool)
  (s : PA_STATE_CUT) : PA_STATE_CUT :=
  let s := set_vert (store (vert s) (curIndex s) index) s in
  let s := set_curIndex (u32 (curIndex s + 1)) s in
  if curIndex s =? 6 then
    let s := set_indices (store2 (indices s) 0 (numPrimsAssembled s)
                            (load (vert s) 0)) s in
    let s := set_indices (store2 (indices s) 1 (numPrimsAssembled s)
                            (load (vert s) 2)) s in
    let s := set_indices (store2 (indices s) 2 (numPrimsAssembled s)
                            (load (vert s) 4)) s in
    let s := set_numPrimsAssembled (u32 (numPrimsAssembled s + 1)) s in
    set_curIndex 0 s
  else s.

Definition ProcessVertLineList (index : Z) (finish : bool) (s : PA_STATE_CUT)
  : PA_STATE_CUT :=
  let s := set_vert (store (vert s) (curIndex s) index) s in
  let s := set_curIndex (u32 (curIndex s + 1)) s in
  if curIndex s =? 2 then
    let s := set_indices (store2 (indices s) 0 (numPrimsAssembled s)
                            (load (vert s) 0)) s in
    let s := set_indices (store2 (indices s) 1 (numPrimsAssembled s)
                            (load (vert s) 1)) s in
    let s := set_numPrimsAssembled (u32 (numPrimsAssembled s + 1)) s in
    set_curIndex 0 s
  else s.

Definition ProcessVertLineStrip (index : Z) (finish : bool) (s : PA_STATE_CUT)
  : PA_STATE_CUT :=
  let s := set_vert (store (vert s) (curIndex s) index) s in
  let s := set_curIndex (u32 (curIndex s + 1)) s in
  if curIndex s =? 2 then
    let s := set_indices (store2 (indices s) 0 (numPrimsAssembled s)
                            (load (vert s) 0)) s in
    let s := set_indices (store2 (indices s) 1 (numPrimsAssembled s)
                            (load (vert s) 1)) s in
    let s := set_numPrimsAssembled (u32 (numPrimsAssembled s + 1)) s in
    let s := set_vert (store (vert s) 0 (load (vert s) 1)) s in
    set_curIndex 1 s
  else s.

Definition ProcessVertLineStripAdj (index : Z) (finish : bool)
  (s : PA_STATE_CUT) : PA_STATE_CUT :=
  let s := set_vert (store (vert s) (curIndex s) index) s in
  let s := set_curIndex (u32 (curIndex s + 1)) s in
  if curIndex s =? 4 then
    let s := set_indices (store2 (indices s) 0 (numPrimsAssembled s)
                            (load (vert s) 0)) s in
    let s := set_indices (store2 (indices s) 1 (numPrimsAssembled s)
                            (load (vert s) 1)) s in
    let s := set_indices (store2 (indices s) 2 (numPrimsAssembled s)
                            (load (vert s) 2)) s in
    let s := set_indices (store2 (indices s) 3 (numPrimsAssembled s)
                            (load (vert s) 3)) s in
    let s := set_numPrimsAssembled (u32 (numPrimsAssembled s + 1)) s in
    let s := set_vert (store (vert s) 0 (load (vert s) 1)) s in
    let s := set_vert (store (vert s) 1 (load (vert s) 2)) s in
    let s := set_vert (store (vert s) 2 (load (vert s) 3)) s in
    set_curIndex 3 s
  else s.

Definition ProcessVertLineStripAdjNoGs (index : Z) (finish : bool)
  (s : PA_STATE_CUT) : PA_STATE_CUT :=
  let s := set_vert (store (vert s) (curIndex s) index) s in
  let s := set_curIndex (u32 (curIndex s + 1)) s in
  if curIndex s =? 4 then
    let s := set_indices (store2 (indices s) 0 (numPrimsAssembled s)
                            (load (vert s) 1)) s in
    let s := set_indices (store2 (indices s) 1 (numPrimsAssembled s)
                            (load (vert s) 2)) s in
    let s := set_numPrimsAssembled (u32 (numPrimsAssembled s + 1)) s in
    let s := set_vert (store (vert s) 0 (load (vert s) 1)) s in
    let s := set_vert (store (vert s) 1 (load (vert s) 2)) s in
    let s := set_vert (store (vert s) 2 (load (vert s) 3)) s in
    set_curIndex 3 s
  else s.

Definition ProcessVertLineListAdj (index : Z) (finish : bool)
  (s : PA_STATE_CUT) : PA_STATE_CUT :=
  let s := set_vert (store (vert s) (curIndex s) index) s in
  let s := set_curIndex (u32 (curIndex s + 1)) s in
  if curIndex s =? 4 then
    let s := set_indices (store2 (indices s) 0 (numPrimsAssembled s)
                            (load (vert s) 0)) s in
    let s := set_indices (store2 (indices s) 1 (numPrimsAssembled s)
                            (load (vert s) 1)) s in
    let s := set_indices (store2 (indices s) 2 (numPrimsAssembled s)
                            (load (vert s) 2)) s in
    let s := set_indices (store2 (indices s) 3 (numPrimsAssembled s)
                            (load (vert s) 3)) s in
    let s := set_numPrimsAssembled (u32 (numPrimsAssembled s + 1)) s in
    set_curIndex 0 s
  else s.

Definition ProcessVertLineListAdjNoGs (index : Z) (finish : bool)
  (s : PA_STATE_CUT) : PA_STATE_CUT :=
  let s := set_vert (store (vert s) (curIndex s) index) s in
  let s := set_curIndex (u32 (curIndex s + 1)) s in
  if curIndex s =? 4 then
    let s := set_indices (store2 (indices s) 0 (numPrimsAssembled s)
                            (load (vert s) 1)) s in
    let s := set_indices (store2 (indices s) 1 (numPrimsAssembled s)
                            (load (vert s) 2)) s in
    let s := set_numPrimsAssembled (u32 (numPrimsAssembled s + 1)) s in
    set_curIndex 0 s
  else s.

Definition ProcessVertPointList (index : Z) (finish : bool)
  (s : PA_STATE_CUT) : PA_STATE_CUT :=
  let s := set_vert (store (vert s) (curIndex s) index) s in
  let s := set_curIndex (u32 (curIndex s + 1)) s in
  if curIndex s =? 1 then
    let s := set_indices (store2 (indices s) 0 (numPrimsAssembled s)
                            (load (vert s) 0)) s in
    let s := set_numPrimsAssembled (u32 (numPrimsAssembled s + 1)) s in
    set_curIndex 0 s
  else s.

(** [(this->*pfnPa)(vert, finish)] *)
Definition call_pfnPa (index : Z) (finish : bool) (s : PA_STATE_CUT)
  : PA_STATE_CUT :=
  match pfnPa s with
  | pfn_ProcessVertTriList => ProcessVertTriList index finish s
  | pfn_ProcessVertTriListAdj => ProcessVertTriListAdj index finish s
  | pfn_ProcessVertTriListAdjNoGs => ProcessVertTriListAdjNoGs index finish s
  | pfn_ProcessVertTriStrip => ProcessVertTriStrip index finish s
  | pfn_ProcessVertTriStripAdj gsEnabled =>
      ProcessVertTriStripAdj gsEnabled index finish s
  | pfn_ProcessVertPointList => ProcessVertPointList index finish s
  | pfn_ProcessVertLineList => ProcessVertLineList index finish s
  | pfn_ProcessVertLineListAdj => ProcessVertLineListAdj index finish s
  | pfn_ProcessVertLineListAdjNoGs => ProcessVertLineListAdjNoGs index finish s
  | pfn_ProcessVertLineStrip => ProcessVertLineStrip index finish s
  | pfn_ProcessVertLineStripAdj => ProcessVertLineStripAdj index finish s
  | pfn_ProcessVertLineStripAdjNoGs =>
      ProcessVertLineStripAdjNoGs index finish s
  end.

(** *** The vertex loop *)

(** The condition of the [while] of [ProcessVerts]. *)
Definition ProcessVerts_cond (s : PA_STATE_CUT) : bool :=
  negb (numPrimsAssembled s =? KNOB_SIMD_WIDTH)
  && (0 <? numRemainingVerts s)
  && negb (curVertex s =? headVertex s).

(** What one turn of the [while] does with the current vertex: a cut
    restarts the topology, any other vertex goes to the per-topology
    function. *)
Definition ProcessVerts_vertex (s : PA_STATE_CUT) : PA_STATE_CUT :=
  if IsCutIndex (curVertex s) s then
    let s := if processCutVerts s
             then call_pfnPa (curVertex s) false s else s in
    let s := if negb (adjExtraVert s =? -1)
             then call_pfnPa (curVertex s) true s else s in
    RestartTopology s
  else call_pfnPa (curVertex s) false s.

(** One turn of the [while] of [ProcessVerts]. *)
Definition ProcessVerts_body (s : PA_STATE_CUT) : PA_STATE_CUT :=
  let s := ProcessVerts_vertex s in
  let s := set_curVertex (u32 (curVertex s + 1) mod numVerts s) s in
  set_numRemainingVerts (s32 (numRemainingVerts s - 1)) s.

Fixpoint ProcessVerts_loop (fuel : nat) (s : PA_STATE_CUT) : PA_STATE_CUT :=
  match fuel with
  | O => s
  | S fuel' =>
      if ProcessVerts_cond s then ProcessVerts_loop fuel' (ProcessVerts_body s)
      else s
  end.

(** The condition of the [if] that ends [ProcessVerts]: the last primitive
    of a triangle strip with adjacency is still pending. *)
Definition ProcessVerts_last_cond (s : PA_STATE_CUT) : bool :=
  negb (numPrimsAssembled s =? KNOB_SIMD_WIDTH)
  && (numRemainingVerts s =? 0)
  && negb (adjExtraVert s =? -1).

(** Each turn of the loop takes one vertex off [numRemainingVerts], which
    the condition wants positive: [numRemainingVerts] turns are all the loop
    can make ([ProcessVerts_loop_done] below). *)
Definition ProcessVerts (s : PA_STATE_CUT) : PA_STATE_CUT :=
  let s := ProcessVerts_loop (Z.to_nat (numRemainingVerts s)) s in
  if ProcessVerts_last_cond s then call_pfnPa (curVertex s) true s else s.

Definition Advance (s : PA_STATE_CUT) : PA_STATE_CUT :=
  let s := set_tailVertex (curVertex s) s in
  let s := set_numPrimsAssembled 0 s in
  set_vPrimId (_simd_add_epi32 (vPrimId s) (_simd_set1_epi32 KNOB_SIMD_WIDTH)) s.

Definition NextPrim (s : PA_STATE_CUT) : bool * PA_STATE_CUT :=
  let s := if (numPrimsAssembled s =? KNOB_SIMD_WIDTH)
              || (numRemainingVerts s <=? 0)
           then Advance s else s in
  (false, s).

Definition ComputeOffsets (s : PA_STATE_CUT) : PA_STATE_CUT :=
  for_ (Z.to_nat (vertsPerPrim s)) (fun v s =>
    let vIndices := map s32 (nth v (indices s) []) in
    let simdShift := 3 in
    let vVertexBatch := _simd_srai_epi32 vIndices simdShift in
    let s := set_vOffsets
               (<[v := _simd_mullo_epi32 vVertexBatch
                         (_simd_set1_epi32 (sizeof_simdvertex k))]>
                  (vOffsets s)) s in
    let simdMask := 7 in
    let vVertexIndex := _simd_and_si vIndices (_simd_set1_epi32 simdMask) in
    set_vOffsets
      (<[v := _simd_add_epi32 (nth v (vOffsets s) [])
                (_simd_mullo_epi32 vVertexIndex
                   (_simd_set1_epi32 sizeof_float))]>
         (vOffsets s)) s) s.

(** [result] is the caller's output array; the triple is the value
    returned, the array as [Assemble] leaves it, and the new state. *)
Definition Assemble (slot : Z) (result : list simdvector) (s : PA_STATE_CUT)
  : bool * list simdvector * PA_STATE_CUT :=
  let s := ProcessVerts s in
  if negb (numPrimsAssembled s =? KNOB_SIMD_WIDTH) && (0 <? numRemainingVerts s)
  then (false, result, s)
  else
    let s := if needOffsets s
             then set_needOffsets false (ComputeOffsets s) else s in
    let result :=
      for_ (Z.to_nat (vertsPerPrim s)) (fun v result =>
        let offsets := nth v (vOffsets s) [] in
        let offsets := _simd_add_epi32 offsets
                         (_simd_set1_epi32 (slot * sizeof_simdvector)) in
        let pBase := 0 in
        let '(r, _) :=
          for_ 4 (fun c '(r, pBase) =>
            (<[c := _simd_i32gather_ps (pStreamBase s) pBase offsets]> r,
             pBase + KNOB_SIMD_WIDTH * sizeof_float))
            (nth v result [], pBase) in
        <[v := r]> result) result in
    (true, result, s).

(** [tri] is the caller's array of [__m128], each the list of its 4
    floats. *)
Definition AssembleSingle (slot triIndex : Z) (tri : list (list Z))
  (s : PA_STATE_CUT) : list (list Z) :=
  for_ (Z.to_nat (vertsPerPrim s)) (fun v tri =>
    let offset := u32 (load (nth v (vOffsets s) []) triIndex) in
    let offset := u32 (offset + sizeof_simdvector * slot) in
    let '(pVert, _) :=
      for_ 4 (fun c '(pVert, offset) =>
        (<[c := pStreamBase s offset]> pVert,
         u32 (offset + KNOB_SIMD_WIDTH * sizeof_float)))
        (nth v tri [], offset) in
    <[v := pVert]> tri) tri.

Definition NumPrims (s : PA_STATE_CUT) : Z := numPrimsAssembled s.

(** *** What a batch holds, and the draw loop *)

(** The gather indices of the primitive in lane [lane] of the current batch:
    one vertex index per vertex-in-primitive slot. *)
Definition prim_indices (s : PA_STATE_CUT) (lane : nat) : list Z :=
  map (fun v => load2 (indices s) (Z.of_nat v) (Z.of_nat lane))
    (seq 0 (Z.to_nat (vertsPerPrim s))).

(** The primitives of the current batch, lanes [0 .. NumPrims() - 1]. *)
Definition assembled_prims (s : PA_STATE_CUT) : list (list Z) :=
  map (prim_indices s) (seq 0 (Z.to_nat (NumPrims s))).

(** The construction of the cut-aware assembler by [PA_FACTORY]: the ring is
    [vertexStore], of [MAX_NUM_VERTS_PER_PRIM] batches, the cut buffer is the
    zeroed [indexStore], and cut vertices are not processed. *)
Definition PA_FACTORY_paCut (gsEnabled : bool) (vertexStore : Z -> Z)
  (numVerts numAttribs : Z) (topo : PRIMITIVE_TOPOLOGY) : option PA_STATE_CUT :=
  PA_STATE_CUT_ctor gsEnabled vertexStore
    (MAX_NUM_VERTS_PER_PRIM * KNOB_SIMD_WIDTH)
    (repeat 0 (Z.to_nat MAX_NUM_VERTS_PER_PRIM))
    numVerts numAttribs topo false.

Definition VERTEX_POSITION_SLOT : Z := 0.

(** The caller's array [simdvector prim[MAX_NUM_VERTS_PER_PRIM]]. *)
Definition prim_array : list simdvector :=
  repeat (repeat _simd_setzero_ps 4) (Z.to_nat MAX_NUM_VERTS_PER_PRIM).

(** Modelled from the spec: the draw loop that feeds the assembler is the
    caller's and is outside [pa.h].  While [HasWork()], the caller feeds a
    batch unless [IsVertexStoreFull()] (the write cursor must not catch up
    with the unconsumed tail: "guarded by the store full check before each
    new batch is requested"): it stores the batch's restart mask through
    [GetNextVsIndices()] and its vertices through [GetNextVsOutput()].  Then
    it calls [Assemble]; when it returns true the batch holds [NumPrims()]
    primitives, and [NextPrim()] tells whether to assemble again before
    feeding ("returns whether the assembler still has complete work queued
    without requiring new input").  [masks] are the restart masks of the
    batches still to feed (none left: no restart); [draw] returns the gather
    indices of the primitives assembled, in order, in [fuel] turns of the
    loop. *)
Fixpoint draw (fuel : nat) (masks : list Z) (feed : bool) (s : PA_STATE_CUT)
  : list (list Z) :=
  match fuel with
  | O => []
  | S fuel' =>
      if feed && negb (HasWork s) then []
      else
        let feed := feed && negb (IsVertexStoreFull s) in
        let s := if feed
                 then snd (GetNextVsOutput (write_cut_mask (hd 0 masks) s))
                 else s in
        let masks := if feed then tl masks else masks in
        let '(assemble, _, s) := Assemble VERTEX_POSITION_SLOT prim_array s in
        let prims := if assemble then assembled_prims s else [] in
        let '(more, s) := NextPrim s in
        prims ++ draw fuel' masks (negb more) s
  end.

(** The calls a caller makes on the assembler between its construction and
    the end of a draw: feeding a batch (the restart mask stored through
    [GetNextVsIndices()], the vertices through [GetNextVsOutput()], which
    leaves the stream [stream]), [GetNextStreamOutput], [Assemble],
    [NextPrim] and [Reset].  [AssembleSingle], [NumPrims], [GetPrimID],
    [HasWork] and [IsVertexStoreFull] only read the state. *)
Inductive op : Type :=
| op_feed (mask : Z) (stream : Z -> Z)
| op_GetNextStreamOutput
| op_Assemble (slot : Z) (result : list simdvector)
| op_NextPrim
| op_Reset.

Definition run_op (o : op) (s : PA_STATE_CUT) : PA_STATE_CUT :=
  match o with
  | op_feed mask stream =>
      set_pStreamBase stream (snd (GetNextVsOutput (write_cut_mask mask s)))
  | op_GetNextStreamOutput => snd (GetNextStreamOutput s)
  | op_Assemble slot result => snd (Assemble slot result s)
  | op_NextPrim => snd (NextPrim s)
  | op_Reset => Reset s
  end.

Definition run_ops (ops : list op) (s : PA_STATE_CUT) : PA_STATE_CUT :=
  fold_left (fun s o => run_op o s) ops s.

(** A caller that honours the store-full predicate feeds a batch only when
    [IsVertexStoreFull()] is false: [guards_hold ops s] tells whether the
    calls [ops], made from [s] on, do so. *)
Fixpoint guards_hold (ops : list op) (s : PA_STATE_CUT) : bool :=
  match ops with
  | [] => true
  | o :: ops' =>
      match o with
      | op_feed _ _ => negb (IsVertexStoreFull s)
      | _ => true
      end
      && guards_hold ops' (run_op o s)
  end.

End WithKnobs.

End Cut.


(** ** The factory, [PA_FACTORY] *)

Definition topology_eq (a b : PRIMITIVE_TOPOLOGY) : bool :=
  match a, b with
  | TOP_UNKNOWN, TOP_UNKNOWN
  | TOP_POINT_LIST, TOP_POINT_LIST
  | TOP_LINE_LIST, TOP_LINE_LIST
  | TOP_LINE_STRIP, TOP_LINE_STRIP
  | TOP_TRIANGLE_LIST, TOP_TRIANGLE_LIST
  | TOP_TRIANGLE_STRIP, TOP_TRIANGLE_STRIP
  | TOP_LINE_LIST_ADJ, TOP_LINE_LIST_ADJ
  | TOP_LISTSTRIP_ADJ, TOP_LISTSTRIP_ADJ
  | TOP_TRI_LIST_ADJ, TOP_TRI_LIST_ADJ
  | TOP_TRI_STRIP_ADJ, TOP_TRI_STRIP_ADJ => true
  | _, _ => false
  end.

(** The test of the constructor of [PA_FACTORY<IsIndexedT>] for the
    cut-aware assembler, compiled in when [KNOB_ENABLE_CUT_AWARE_PA] is
    [TRUE]; its value is the member [cutPA]. *)
Definition PA_FACTORY_cutPA (KNOB_ENABLE_CUT_AWARE_PA IsIndexedT : bool)
  (topo : PRIMITIVE_TOPOLOGY) : bool :=
  KNOB_ENABLE_CUT_AWARE_PA
  && ((IsIndexedT
       && (topology_eq topo TOP_TRIANGLE_STRIP
           || topology_eq topo TOP_POINT_LIST
           || topology_eq topo TOP_LINE_LIST
           || topology_eq topo TOP_LINE_STRIP
           || topology_eq topo TOP_TRIANGLE_LIST
           || topology_eq topo TOP_LINE_LIST_ADJ
           || topology_eq topo TOP_LISTSTRIP_ADJ
           || topology_eq topo TOP_TRI_LIST_ADJ
           || topology_eq topo TOP_TRI_STRIP_ADJ))
      || (negb IsIndexedT
          && (topology_eq topo TOP_LINE_LIST_ADJ
              || topology_eq topo TOP_LISTSTRIP_ADJ
              || topology_eq topo TOP_TRI_LIST_ADJ
              || topology_eq topo TOP_TRI_STRIP_ADJ))).

(** [_BitScanReverse(&index, mask)]: the position of the highest bit set;
    [index] is left as it is found for a zero mask. *)
Definition _BitScanReverse (k : Cut.Knobs) (mask : Z) : Z :=
  if mask =? 0 then Cut.uninit k else Z.log2 mask.

(** The cut-aware assembler as the constructor of [PA_FACTORY] makes it when
    [cutPA] is set: [feAttribMask] and [state_topology] are
    [state.feAttribMask] and [state.topology] of the API state. *)
Definition PA_FACTORY_cut (k : Cut.Knobs) (gsEnabled : bool)
  (feAttribMask : Z) (state_topology : PRIMITIVE_TOPOLOGY)
  (vertexStore : Z -> Z) (numVerts : Z) : option Cut.PA_STATE_CUT :=
  let numAttribs := _BitScanReverse k feAttribMask in
  let numAttribs := u32 (numAttribs + 1) in
  Cut.PA_FACTORY_paCut k gsEnabled vertexStore numVerts numAttribs
    state_topology.

(** * Vocabulary of the properties

    What the statements below are written with: relations between states,
    invariants, the primitives a topology defines, and sample states. *)

(** The body of a loop that rewrites entry [i] of an array at turn [i],
    from the entry as it is found. *)
Definition update_entry {A : Type} (d : A) (h : nat -> A -> A) (i : nat)
  (l : list A) : list A :=
  <[i := h i (nth i l d)]> l.

(** The per-topology functions write the topology state, the gather table and
    the batch counter; [frame s s'] says that [s'] has every other member as
    [s] has it. *)
Record frame (s s' : Cut.PA_STATE_CUT) : Prop := {
  fr_pStreamBase : Cut.pStreamBase s' = Cut.pStreamBase s;
  fr_streamSizeInVerts : Cut.streamSizeInVerts s' = Cut.streamSizeInVerts s;
  fr_binTopology : Cut.binTopology s' = Cut.binTopology s;
  fr_pCutIndices : Cut.pCutIndices s' = Cut.pCutIndices s;
  fr_numVerts : Cut.numVerts s' = Cut.numVerts s;
  fr_numAttribs : Cut.numAttribs s' = Cut.numAttribs s;
  fr_numRemainingVerts : Cut.numRemainingVerts s' = Cut.numRemainingVerts s;
  fr_numVertsToAssemble :
    Cut.numVertsToAssemble s' = Cut.numVertsToAssemble s;
  fr_vOffsets : Cut.vOffsets s' = Cut.vOffsets s;
  fr_headVertex : Cut.headVertex s' = Cut.headVertex s;
  fr_tailVertex : Cut.tailVertex s' = Cut.tailVertex s;
  fr_curVertex : Cut.curVertex s' = Cut.curVertex s;
  fr_startPrimId : Cut.startPrimId s' = Cut.startPrimId s;
  fr_vPrimId : Cut.vPrimId s' = Cut.vPrimId s;
  fr_needOffsets : Cut.needOffsets s' = Cut.needOffsets s;
  fr_vertsPerPrim : Cut.vertsPerPrim s' = Cut.vertsPerPrim s;
  fr_processCutVerts : Cut.processCutVerts s' = Cut.processCutVerts s;
  fr_pfnPa : Cut.pfnPa s' = Cut.pfnPa s
}.

(** No per-topology function but the one of triangle strips with adjacency
    ever holds an extra vertex. *)
Definition extra_vert_ok (s : Cut.PA_STATE_CUT) : Prop :=
  match Cut.pfnPa s with
  | Cut.pfn_ProcessVertTriStripAdj _ => True
  | _ => Cut.adjExtraVert s = -1
  end.

(** No extra vertex is pending. *)
Definition no_extra_vert (s : Cut.PA_STATE_CUT) : Prop :=
  Cut.adjExtraVert s = -1.

(** The invariant of the assembler the loop relies on: [numRemainingVerts]
    is an [int32_t], and [adjExtraVert] is used by its topology only. *)
Definition cut_inv (s : Cut.PA_STATE_CUT) : Prop :=
  - 2 ^ 31 <= Cut.numRemainingVerts s < 2 ^ 31 /\ extra_vert_ok s.

(** The state [Assemble] leaves when it returns true: the offsets are
    computed if they were due, and no longer due. *)
Definition offsets_cached (k : Cut.Knobs) (s : Cut.PA_STATE_CUT)
  : Cut.PA_STATE_CUT :=
  if Cut.needOffsets s
  then Cut.set_needOffsets false (Cut.ComputeOffsets k s) else s.

(** The gather of [Assemble] into the caller's array. *)
Definition gather_vertex (slot : Z) (s : Cut.PA_STATE_CUT) (v : nat)
  (old : simdvector) : simdvector :=
  fst (for_ 4 (fun c '(r, pBase) =>
         (<[c := _simd_i32gather_ps (Cut.pStreamBase s) pBase
                   (_simd_add_epi32 (nth v (Cut.vOffsets s) [])
                      (_simd_set1_epi32 (slot * Cut.sizeof_simdvector)))]> r,
          pBase + KNOB_SIMD_WIDTH * Cut.sizeof_float))
        (old, 0)).

(** The gather table has [MAX_NUM_VERTS_PER_PRIM] rows of [KNOB_SIMD_WIDTH]
    lanes. *)
Definition table_shape (t : list (list Z)) : Prop :=
  length t = 6%nat /\ Forall (fun r => length r = 8%nat) t.

(** The primitives [q], [q + 1], ..., [q + cnt - 1] of a topology whose
    primitive number [q] is [P q]. *)
Definition prims_from (P : Z -> list Z) (q : Z) (cnt : nat) : list (list Z) :=
  map (fun l => P (q + Z.of_nat l)) (seq 0 cnt).

(** A topology, for a draw of [n] vertices on a ring of [N]: its function
    [h], its vertices per primitive [vpp], the number [c i] of primitives
    complete after [i] vertices, the gather indices [P q] of primitive [q],
    and what the topology state is after [i] vertices, [T i]. *)
Section Topology.

Variables N n : Z.
Variable h : Cut.PFN_PA_FUNC.
Variable vpp : Z.
Variable c : Z -> Z.
Variable P : Z -> list Z.
Variable T : Z -> list Z -> Z -> bool -> Prop.

(** [s'] is [s] with one more primitive, [P q], in the next free lane. *)
Definition emits_prim (s s' : Cut.PA_STATE_CUT) (q : Z) : Prop :=
  Cut.numPrimsAssembled s' = Cut.numPrimsAssembled s + 1
  /\ (forall v l, 0 <= v -> 0 <= l -> l <> Cut.numPrimsAssembled s ->
      load2 (Cut.indices s') v l = load2 (Cut.indices s) v l)
  /\ map (fun v => load2 (Cut.indices s') (Z.of_nat v)
                     (Cut.numPrimsAssembled s))
       (seq 0 (Z.to_nat vpp)) = P q.

(** The assembler after [i] vertices of the draw, [e] primitives retired and
    [f] batches fed; the tail of the ring is at the vertex the last batch
    was retired at. *)
Record draw_inv (s : Cut.PA_STATE_CUT) (i e f : Z) : Prop := {
  inv_pfn : Cut.pfnPa s = h;
  inv_nocut : Forall (fun m => m = 0) (Cut.pCutIndices s);
  inv_numVerts : Cut.numVerts s = N;
  inv_adj : Cut.adjExtraVert s = -1;
  inv_vpp : Cut.vertsPerPrim s = vpp;
  inv_shape : table_shape (Cut.indices s);
  inv_i : 0 <= i <= n;
  inv_rem : Cut.numRemainingVerts s = n - i;
  inv_cur : Cut.curVertex s = i mod N;
  inv_T : T i (Cut.vert s) (Cut.curIndex s) (Cut.reverseWinding s);
  inv_np : Cut.numPrimsAssembled s = c i - e;
  inv_np_range : 0 <= c i - e <= 8;
  inv_prims :
    forall l, 0 <= l < c i - e ->
      Cut.prim_indices s (Z.to_nat l) = P (e + l);
  inv_head : Cut.headVertex s = (8 * f) mod N;
  inv_f : i <= 8 * f < i + N;
  inv_tail :
    exists t, 0 <= t <= i /\ c t = e /\ Cut.tailVertex s = t mod N
}.

(** The assembler at the head of the draw loop: everything assembled is
    retired when the draw is exhausted; before that the batch is not full,
    at most 7 vertices fed are waiting, and none is waiting unless the
    batch is empty. *)
Definition draw_at_head (s : Cut.PA_STATE_CUT) (i e f : Z) : Prop :=
  draw_inv s i e f
  /\ (i = n -> c i = e)
  /\ (i < n -> c i - e < 8 /\ 8 * f - i <= 7 /\ (c i <> e -> i = 8 * f)).

(** The store has room for the batches of the draw: the vertices that a
    batch of primitives takes, with the batch being fed, fit in the ring. *)
Definition draw_room : Prop :=
  forall t i f,
    0 <= t <= i -> i < n -> i <= 8 * f -> 8 * f - i <= 7 ->
    c i - c t < 8 -> (c i <> c t -> i = 8 * f) ->
    8 * f + 8 - t < N.

End Topology.

Arguments inv_pfn {N n h vpp c P T s i e f} _.
Arguments inv_nocut {N n h vpp c P T s i e f} _.
Arguments inv_numVerts {N n h vpp c P T s i e f} _.
Arguments inv_adj {N n h vpp c P T s i e f} _.
Arguments inv_vpp {N n h vpp c P T s i e f} _.
Arguments inv_shape {N n h vpp c P T s i e f} _.
Arguments inv_i {N n h vpp c P T s i e f} _.
Arguments inv_rem {N n h vpp c P T s i e f} _.
Arguments inv_cur {N n h vpp c P T s i e f} _.
Arguments inv_T {N n h vpp c P T s i e f} _.
Arguments inv_np {N n h vpp c P T s i e f} _.
Arguments inv_np_range {N n h vpp c P T s i e f} _.
Arguments inv_prims {N n h vpp c P T s i e f} _.
Arguments inv_head {N n h vpp c P T s i e f} _.
Arguments inv_f {N n h vpp c P T s i e f} _.
Arguments inv_tail {N n h vpp c P T s i e f} _.

(** The state of a triangle list after [i] vertices: the cursor is
    [i mod 3] and the window holds the vertices of the primitive under
    way. *)
Definition trilist_T (N i : Z) (vert : list Z) (curIndex : Z)
  (reverseWinding : bool) : Prop :=
  length vert = 6%nat
  /\ curIndex = i mod 3
  /\ (1 <= i mod 3 -> load vert 0 = (i - i mod 3) mod N)
  /\ (i mod 3 = 2 -> load vert 1 = (i - 1) mod N).

(** Triangle [q] of a list, in ring positions. *)
Definition trilist_P (N q : Z) : list Z :=
  [(3 * q) mod N; (3 * q + 1) mod N; (3 * q + 2) mod N].

(** The state of a triangle strip after [i] vertices: the window holds the
    last two vertices, and the winding is reversed when an odd number of
    triangles is complete. *)
Definition tristrip_T (N i : Z) (vert : list Z) (curIndex : Z)
  (reverseWinding : bool) : Prop :=
  length vert = 6%nat
  /\ curIndex = Z.min i 2
  /\ reverseWinding = Z.odd (Z.max 0 (i - 2))
  /\ (1 <= i -> load vert 0 = Z.max 0 (i - 2) mod N)
  /\ (2 <= i -> load vert 1 = (i - 1) mod N).

(** Triangle [q] of a strip, in ring positions: the vertices [q], [q + 1],
    [q + 2], the last two swapped for an odd [q]. *)
Definition tristrip_P (N q : Z) : list Z :=
  if Z.odd q then [q mod N; (q + 2) mod N; (q + 1) mod N]
  else [q mod N; (q + 1) mod N; (q + 2) mod N].

(** A draw of 3 primitives with a full batch staged: assembled, then retired
    by [NextPrim()]. *)
Definition opt_draw3 : Opt.PA_STATE_OPT unit unit :=
  Opt.SetNextState tt tt 0 KNOB_SIMD_WIDTH true
    (Opt.Reset
       {| Opt.streamSizeInVerts := 48; Opt.numPrims := 3;
          Opt.numPrimsComplete := 0; Opt.numSimdPrims := 0;
          Opt.cur := 0; Opt.prev := 0; Opt.first := 0; Opt.counter := 0;
          Opt.reset := false; Opt.primIDIncr := 8;
          Opt.primID := _mm256_set_epi32_7_0;
          Opt.pfnPaFunc := tt; Opt.pfnPaSingleFunc := tt;
          Opt.pfnPaFuncReset := tt; Opt.pfnPaNextFunc := tt;
          Opt.nextNumSimdPrims := 0; Opt.nextNumPrimsIncrement := 0;
          Opt.nextReset := false; Opt.isStreaming := false |}).

(** Eleven triangles: index arrays at words 100, 200 and 300. *)
Definition tess_eleven : Tess.PA_TESS :=
  {| Tess.binTopology := TOP_TRIANGLE_LIST;
     Tess.m_pVertexData := fun a => 1000 + a;
     Tess.m_attributeStrideInVectors := 2;
     Tess.m_numAttributes := 2;
     Tess.m_numPrims := 11;
     Tess.m_ppIndices := [100; 200; 300];
     Tess.m_numVertsPerPrim := 3;
     Tess.m_vPrimId := _simd_setzero_si |}.

(** The index arrays that [Assemble] loads are aligned for the load. *)
Definition indices_aligned (s : Tess.PA_TESS) : Prop :=
  forall v : nat, (v < Z.to_nat (Tess.m_numVertsPerPrim s))%nat ->
    (Tess.sizeof_uint32_t * load (Tess.m_ppIndices s) (Z.of_nat v))
      mod Tess.sizeof_simdscalari = 0.

(** Eleven triangles: aligned index arrays at words 96, 200 and 304. *)
Definition tess_aligned : Tess.PA_TESS :=
  {| Tess.binTopology := TOP_TRIANGLE_LIST;
     Tess.m_pVertexData := fun a => 1000 + a;
     Tess.m_attributeStrideInVectors := 2;
     Tess.m_numAttributes := 2;
     Tess.m_numPrims := 11;
     Tess.m_ppIndices := [96; 200; 304];
     Tess.m_numVertsPerPrim := 3;
     Tess.m_vPrimId := _simd_setzero_si |}.

(** The same, with component arrays of [2^29] vectors: the stride in floats
    does not fit 32 bits. *)
Definition tess_wide : Tess.PA_TESS :=
  {| Tess.binTopology := TOP_TRIANGLE_LIST;
     Tess.m_pVertexData := fun a => 1000 + a;
     Tess.m_attributeStrideInVectors := 2 ^ 29;
     Tess.m_numAttributes := 2;
     Tess.m_numPrims := 11;
     Tess.m_ppIndices := [96; 200; 304];
     Tess.m_numVertsPerPrim := 3;
     Tess.m_vPrimId := _simd_setzero_si |}.

(** Knobs for the draws evaluated below. *)
Definition knobs0 : Cut.Knobs :=
  {| Cut.KNOB_NUM_ATTRIBUTES := 4; Cut.uninit := 0 |}.


(** One more than the largest value [curIndex] takes between two calls of a
    per-topology function: the entries [vert[0 .. curIndex_bound - 1]] are
    all it writes through [curIndex]. *)
Definition curIndex_bound (h : Cut.PFN_PA_FUNC) : Z :=
  match h with
  | Cut.pfn_ProcessVertPointList => 1
  | Cut.pfn_ProcessVertLineList | Cut.pfn_ProcessVertLineStrip => 2
  | Cut.pfn_ProcessVertTriList | Cut.pfn_ProcessVertTriStrip => 3
  | Cut.pfn_ProcessVertLineListAdj | Cut.pfn_ProcessVertLineListAdjNoGs
  | Cut.pfn_ProcessVertLineStripAdj | Cut.pfn_ProcessVertLineStripAdjNoGs => 4
  | Cut.pfn_ProcessVertTriListAdj | Cut.pfn_ProcessVertTriListAdjNoGs => 6
  | Cut.pfn_ProcessVertTriStripAdj gsEnabled => if gsEnabled then 7 else 6
  end.

(** The tables of the assembler have the sizes they are declared with, and
    what indexes them is in range. *)
Record cut_bounds (s : Cut.PA_STATE_CUT) : Prop := {
  bd_vert : length (Cut.vert s) = 6%nat;
  bd_indices : table_shape (Cut.indices s);
  bd_vOffsets : length (Cut.vOffsets s) = 6%nat;
  bd_numPrimsAssembled : 0 <= Cut.numPrimsAssembled s <= 8;
  bd_curIndex : 0 <= Cut.curIndex s < curIndex_bound (Cut.pfnPa s);
  bd_numVerts : 0 < Cut.numVerts s;
  bd_curVertex : 0 <= Cut.curVertex s < Cut.numVerts s;
  bd_tailVertex : 0 <= Cut.tailVertex s < Cut.numVerts s;
  bd_vertsPerPrim : 0 <= Cut.vertsPerPrim s <= 6
}.

(** Row [v] of [vOffsets] as [ComputeOffsets] computes it from row [v] of the
    gather table: per lane, the byte offset of the vertex's batch plus the
    byte offset of its lane in the batch. *)
Definition offsets_row (k : Cut.Knobs) (row : list Z) : simdscalari :=
  let vIndices := map s32 row in
  _simd_add_epi32
    (_simd_mullo_epi32 (_simd_srai_epi32 vIndices 3)
       (_simd_set1_epi32 (Cut.sizeof_simdvertex k)))
    (_simd_mullo_epi32 (_simd_and_si vIndices (_simd_set1_epi32 7))
       (_simd_set1_epi32 Cut.sizeof_float)).

(** The byte offset, in a stream of [simdvertex] batches, of the float that
    vertex [index] has in component [c] of attribute [slot]: a batch holds 8
    vertices and is an array of attributes, an attribute is 4 components,
    and a component is the 8 floats of the 8 vertices. *)
Definition attrib_addr (k : Cut.Knobs) (index slot c : Z) : Z :=
  index / KNOB_SIMD_WIDTH * Cut.sizeof_simdvertex k
  + slot * Cut.sizeof_simdvector
  + c * (KNOB_SIMD_WIDTH * Cut.sizeof_float)
  + index mod KNOB_SIMD_WIDTH * Cut.sizeof_float.

(** The column [np] of the gather table written from row [v] on, one row per
    value: what a per-topology function does when a primitive is
    complete. *)
Fixpoint write_col_from (v : Z) (t : list (list Z)) (np : Z) (xs : list Z)
  : list (list Z) :=
  match xs with
  | [] => t
  | x :: xs' => write_col_from (v + 1) (store2 t v np x) np xs'
  end.

(** The state of a list topology of [m] vertices per primitive after [i]
    vertices: the cursor is [i mod m] and the window holds the vertices of
    the primitive under way. *)
Definition list_T (m N i : Z) (vert : list Z) (curIndex : Z)
  (reverseWinding : bool) : Prop :=
  length vert = 6%nat
  /\ curIndex = i mod m
  /\ forall j, 0 <= j < i mod m -> load vert j = (i - i mod m + j) mod N.

(** Primitive [q] of a list topology of [m] vertices per primitive that
    forwards the vertices [picks] of each: ring positions. *)
Definition list_P (m : Z) (picks : list Z) (N q : Z) : list Z :=
  map (fun j => (m * q + j) mod N) picks.

(** The state of a strip topology that keeps the last [w] vertices, after
    [i] vertices. *)
Definition strip_T (w N i : Z) (vert : list Z) (curIndex : Z)
  (reverseWinding : bool) : Prop :=
  length vert = 6%nat
  /\ curIndex = Z.min i w
  /\ forall j, 0 <= j < Z.min i w ->
       load vert j = (i - Z.min i w + j) mod N.

(** Primitive [q] of a strip topology that forwards the vertices [picks] of
    the window that starts at vertex [q]: ring positions. *)
Definition strip_P (picks : list Z) (N q : Z) : list Z :=
  map (fun j => (q + j) mod N) picks.

(** * Properties *)

(** ** Machine integers, arrays and loops *)

Lemma u32_small (x : Z) : 0 <= x < 2 ^ 32 -> u32 x = x.
Proof. intros H. unfold u32. apply Z.mod_small. exact H. Qed.

Lemma u32_range (x : Z) : 0 <= u32 x < 2 ^ 32.
Proof. unfold u32. apply Z.mod_pos_bound. lia. Qed.

Lemma s32_small (x : Z) : - 2 ^ 31 <= x < 2 ^ 31 -> s32 x = x.
Proof. intros H. unfold s32. rewrite Z.mod_small; lia. Qed.

Lemma s32_range (x : Z) : - 2 ^ 31 <= s32 x < 2 ^ 31.
Proof.
  unfold s32. pose proof (Z.mod_pos_bound (x + 2 ^ 31) (2 ^ 32)). lia.
Qed.

Lemma s32_u32 (x : Z) : s32 (u32 x) = s32 x.
Proof.
  unfold s32, u32.
  rewrite <- (Zplus_mod_idemp_l x). reflexivity.
Qed.

Lemma s32_idem (x : Z) : s32 (s32 x) = s32 x.
Proof. apply s32_small, s32_range. Qed.

Lemma nth_map_lanes {A : Type} (f : nat -> A) (d : A) (i : nat) :
  (i < 8)%nat -> nth i (map f lanes) d = f i.
Proof.
  intros H. do 8 (destruct i as [|i]; [reflexivity|]). lia.
Qed.

Lemma for_ext {A : Type} (f g : nat -> A -> A) (n : nat) (a : A) :
  (forall i x, f i x = g i x) -> for_ n f a = for_ n g a.
Proof.
  intros H. induction n as [|n IH]; simpl; [reflexivity|].
  rewrite IH. apply H.
Qed.

Section ForUpdate.

Context {A : Type} (d : A) (h : nat -> A -> A).

Local Abbreviation update_entry := (update_entry d h).

Lemma for_update_length (n : nat) (l : list A) :
  length (for_ n update_entry l) = length l.
Proof.
  induction n as [|n IH]; simpl; [reflexivity|].
  unfold update_entry at 1. rewrite length_insert. exact IH.
Qed.

Lemma nth_insert_eq (l : list A) (i : nat) (x : A) :
  (i < length l)%nat -> nth i (<[i := x]> l) d = x.
Proof.
  intros H. apply nth_lookup_Some. apply list_lookup_insert_eq. exact H.
Qed.

Lemma nth_insert_ne (l : list A) (i j : nat) (x : A) :
  i <> j -> nth j (<[i := x]> l) d = nth j l d.
Proof.
  intros H. rewrite !nth_lookup. rewrite list_lookup_insert_ne by exact H.
  reflexivity.
Qed.

Lemma for_update_nth_ge (n : nat) (l : list A) (v : nat) :
  (n <= v)%nat -> nth v (for_ n update_entry l) d = nth v l d.
Proof.
  induction n as [|n IH]; simpl; intros H; [reflexivity|].
  unfold update_entry at 1. rewrite nth_insert_ne by lia. apply IH. lia.
Qed.

Lemma for_update_nth (n : nat) (l : list A) (v : nat) :
  (v < n)%nat -> (v < length l)%nat ->
  nth v (for_ n update_entry l) d = h v (nth v l d).
Proof.
  induction n as [|n IH]; simpl; intros Hv Hn; [lia|].
  unfold update_entry at 1.
  destruct (Nat.eq_dec v n) as [->|Hne].
  - rewrite nth_insert_eq by (rewrite for_update_length; lia).
    rewrite for_update_nth_ge by lia. reflexivity.
  - rewrite nth_insert_ne by lia. apply IH; lia.
Qed.

Lemma for_update_idem (n : nat) (l : list A) :
  (forall i x, h i (h i x) = h i x) ->
  for_ n update_entry (for_ n update_entry l) = for_ n update_entry l.
Proof.
  intros Hh. apply (nth_ext _ _ d d).
  - rewrite !for_update_length. reflexivity.
  - intros v Hv. rewrite !for_update_length in Hv.
    destruct (Nat.lt_ge_cases v n).
    + rewrite for_update_nth by (rewrite ?for_update_length; lia).
      rewrite for_update_nth by lia. apply Hh.
    + rewrite !for_update_nth_ge by lia. reflexivity.
Qed.

End ForUpdate.

(** ** The optimized assembler *)

Section OptFacts.

Context {PFN_PA_FUNC PFN_PA_SINGLE_FUNC : Type}.
Local Abbreviation PA_STATE_OPT :=
  (Opt.PA_STATE_OPT PFN_PA_FUNC PFN_PA_SINGLE_FUNC).

Lemma Opt_HasWork_true (s : PA_STATE_OPT) :
  Opt.HasWork s = true <-> Opt.numPrimsComplete s < Opt.numPrims s.
Proof.
  unfold Opt.HasWork. destruct (Z.ltb_spec (Opt.numPrimsComplete s) (Opt.numPrims s));
    split; intros; try lia; congruence.
Qed.

(** C4, as amended.  While the draw has work left, with at most a batch
    staged and no 32-bit overflow, [NumPrims()] is the batch width when the
    staged batch fits in the draw and otherwise the width less the excess; it
    is positive and never exceeds the width; and for a staged full batch it
    is the number of primitives of the draw not yet retired, capped at the
    width: the valid lanes of the final partial batch. *)
Theorem NumPrims_opt_valid_lanes (s : PA_STATE_OPT) :
  0 <= Opt.numPrimsComplete s ->
  Opt.numPrims s + KNOB_SIMD_WIDTH < 2 ^ 32 ->
  0 <= Opt.nextNumPrimsIncrement s <= KNOB_SIMD_WIDTH ->
  Opt.HasWork s = true ->
  Opt.NumPrims s
  = (if Opt.numPrimsComplete s + Opt.nextNumPrimsIncrement s <=? Opt.numPrims s
     then KNOB_SIMD_WIDTH
     else KNOB_SIMD_WIDTH
          - (Opt.numPrimsComplete s + Opt.nextNumPrimsIncrement s
             - Opt.numPrims s))
  /\ 0 < Opt.NumPrims s <= KNOB_SIMD_WIDTH
  /\ (Opt.nextNumPrimsIncrement s = KNOB_SIMD_WIDTH ->
      Opt.NumPrims s
      = Z.min KNOB_SIMD_WIDTH (Opt.numPrims s - Opt.numPrimsComplete s)).
Proof.
  intros Hc Hn Hi Hw. apply Opt_HasWork_true in Hw.
  unfold Opt.NumPrims, KNOB_SIMD_WIDTH in *.
  rewrite (u32_small (Opt.numPrimsComplete s + Opt.nextNumPrimsIncrement s))
    by lia.
  destruct (Z.ltb_spec (Opt.numPrims s)
              (Opt.numPrimsComplete s + Opt.nextNumPrimsIncrement s)) as [Hlt|Hge];
    destruct (Z.leb_spec (Opt.numPrimsComplete s + Opt.nextNumPrimsIncrement s)
                (Opt.numPrims s)); try lia.
  rewrite (u32_small (_ - Opt.numPrims s)) by lia.
  rewrite u32_small by lia. lia.
Qed.

(** What [NextPrim()] of the optimized assembler returns: true exactly when
    the staged state carries further SIMD primitives and the draw has work
    left once the staged increment is counted. *)
Lemma NextPrim_opt_result (s : PA_STATE_OPT) :
  fst (Opt.NextPrim s)
  = (0 <? Opt.nextNumSimdPrims s)
    && (u32 (Opt.numPrimsComplete s + Opt.nextNumPrimsIncrement s)
        <? Opt.numPrims s).
Proof.
  unfold Opt.NextPrim, Opt.HasWork. cbn.
  destruct (Opt.isStreaming s); cbn;
    destruct (0 <? Opt.nextNumSimdPrims s); cbn;
    destruct (_ <? Opt.numPrims s); reflexivity.
Qed.

(** What [Reset()] of the optimized assembler does: it reinstalls the reset
    function and zeroes the counters and batch cursors; the total of the
    draw, the staged next state and the primitive ids are left as they
    are. *)
Lemma Reset_opt_fields (s : PA_STATE_OPT) :
  let r := Opt.Reset s in
  Opt.pfnPaFunc r = Opt.pfnPaFuncReset s
  /\ Opt.numPrimsComplete r = 0 /\ Opt.numSimdPrims r = 0
  /\ Opt.cur r = 0 /\ Opt.prev r = 0 /\ Opt.first r = 0
  /\ Opt.counter r = 0 /\ Opt.reset r = false
  /\ Opt.numPrims r = Opt.numPrims s
  /\ Opt.pfnPaNextFunc r = Opt.pfnPaNextFunc s
  /\ Opt.nextNumSimdPrims r = Opt.nextNumSimdPrims s
  /\ Opt.nextNumPrimsIncrement r = Opt.nextNumPrimsIncrement s
  /\ Opt.nextReset r = Opt.nextReset s
  /\ Opt.primID r = Opt.primID s
  /\ Opt.primIDIncr r = Opt.primIDIncr s.
Proof. cbn. repeat split. Qed.

End OptFacts.

Lemma NumPrims_opt_valid_lanes_witness :
  Opt.HasWork opt_draw3 = true /\ Opt.NumPrims opt_draw3 = 3.
Proof.
  split; [reflexivity|].
  destruct (NumPrims_opt_valid_lanes opt_draw3) as (_ & _ & H);
    [unfold opt_draw3, KNOB_SIMD_WIDTH; simpl; lia ..| reflexivity |].
  rewrite H; reflexivity.
Defined.

(** C4, as stated, fails once [NextPrim()] has retired the last batch of the
    draw: the state is reached through the interface alone, and there
    [NumPrims()] has wrapped around, far above the batch width. *)
Lemma NumPrims_opt_exceeds_width_after_draw :
  let s := snd (Opt.NextPrim opt_draw3) in
  Opt.HasWork s = false
  /\ Opt.NumPrims s = 4294967291
  /\ ~ Opt.NumPrims s <= KNOB_SIMD_WIDTH.
Proof.
  cbv zeta. split; [reflexivity|]. split; [reflexivity|].
  apply Z.lt_nge. reflexivity.
Qed.

(** ** The assembler of domain shader output *)

Section TessFacts.

Implicit Types s : Tess.PA_TESS.

Lemma load_maskGen (j : Z) :
  0 <= j < 16 -> load Tess.maskGen j = if j <? 8 then -1 else 0.
Proof.
  intros H. unfold load.
  rewrite <- (Z2Nat.id j) at 2 by lia.
  assert (Hm : (Z.to_nat j < 16)%nat) by lia.
  generalize dependent (Z.to_nat j). intros m Hm.
  do 16 (destruct m as [|m]; [reflexivity|]). lia.
Qed.

Lemma GenPrimMask_lane (n : Z) (i : nat) :
  0 <= n <= KNOB_SIMD_WIDTH -> (i < 8)%nat ->
  exists mask, Tess.GenPrimMask n = Some mask
    /\ nth i mask 0 = if Z.of_nat i <? n then -1 else 0.
Proof.
  unfold KNOB_SIMD_WIDTH. intros Hn Hi. unfold Tess.GenPrimMask, KNOB_SIMD_WIDTH.
  destruct (Z.leb_spec n 8); [|lia]. simpl negb. cbv iota.
  eexists. split; [reflexivity|].
  rewrite nth_map_lanes by exact Hi.
  rewrite load_maskGen by lia.
  destruct (Z.ltb_spec (8 - n + Z.of_nat i) 8);
    destruct (Z.ltb_spec (Z.of_nat i) n); try lia; reflexivity.
Qed.

Lemma Tess_NumPrims_bounds s :
  0 <= Tess.m_numPrims s ->
  Tess.NumPrims s = Z.min (Tess.m_numPrims s) KNOB_SIMD_WIDTH
  /\ 0 <= Tess.NumPrims s <= KNOB_SIMD_WIDTH
  /\ Tess.NumPrims s <= Tess.m_numPrims s.
Proof. unfold Tess.NumPrims, KNOB_SIMD_WIDTH. lia. Qed.

Lemma Tess_HasWork_false s :
  Tess.HasWork s = false <-> Tess.m_numPrims s = 0.
Proof.
  unfold Tess.HasWork.
  destruct (Z.eqb_spec (Tess.m_numPrims s) 0); simpl; split; intros;
    congruence.
Qed.

Lemma Tess_NextPrim_numPrims s :
  0 <= Tess.m_numPrims s < 2 ^ 32 ->
  Tess.m_numPrims (snd (Tess.NextPrim s))
  = Tess.m_numPrims s - Tess.NumPrims s.
Proof.
  intros H. cbn. apply u32_small.
  unfold Tess.NumPrims, KNOB_SIMD_WIDTH. lia.
Qed.

Lemma Tess_NextPrim_countdown s :
  0 <= Tess.m_numPrims s < 2 ^ 32 ->
  Tess.m_numPrims (snd (Tess.NextPrim s))
  = Z.max 0 (Tess.m_numPrims s - KNOB_SIMD_WIDTH).
Proof.
  intros H. rewrite Tess_NextPrim_numPrims by exact H.
  unfold Tess.NumPrims, KNOB_SIMD_WIDTH. lia.
Qed.

Lemma Tess_run_ops_numPrims (ops : list Tess.op) s :
  0 <= Tess.m_numPrims s < 2 ^ 32 ->
  0 <= Tess.m_numPrims (Tess.run_ops ops s) <= Tess.m_numPrims s.
Proof.
  revert s. induction ops as [|o ops IH]; intros s H; [simpl; lia|].
  change (Tess.run_ops (o :: ops) s) with (Tess.run_ops ops (Tess.run_op o s)).
  destruct o; unfold Tess.run_op; try (apply IH; exact H).
  pose proof (Tess_NextPrim_countdown s H) as Hn.
  unfold KNOB_SIMD_WIDTH in Hn.
  specialize (IH (snd (Tess.NextPrim s))). lia.
Qed.

Lemma Tess_iter_NextPrim (n : nat) s :
  0 <= Tess.m_numPrims s < 2 ^ 32 ->
  Tess.m_numPrims (Nat.iter n (fun s => snd (Tess.NextPrim s)) s)
  = Z.max 0 (Tess.m_numPrims s - KNOB_SIMD_WIDTH * Z.of_nat n).
Proof.
  intros H. induction n as [|n IH].
  - simpl. lia.
  - rewrite Nat.iter_succ.
    rewrite Tess_NextPrim_countdown by (rewrite IH; unfold KNOB_SIMD_WIDTH; lia).
    rewrite IH. unfold KNOB_SIMD_WIDTH. lia.
Qed.

(** C10.  [NumPrims()] is [min(m_numPrims, W)], at most the batch width;
    [NextPrim()] takes exactly that many primitives off [m_numPrims] and moves
    the three index pointers on by as many, returning whether work is left;
    through any sequence of [Assemble]/[AssembleSingle]/[NextPrim] calls the
    count stays between 0 and where it started, and [HasWork()] is false
    exactly when it is 0; [n] calls of [NextPrim()] leave
    [max(0, m_numPrims - W * n)], so the count goes down to 0. *)
Theorem tess_numPrims_countdown s :
  0 <= Tess.m_numPrims s < 2 ^ 32 ->
  length (Tess.m_ppIndices s) = 3%nat ->
  (Tess.NumPrims s = Z.min (Tess.m_numPrims s) KNOB_SIMD_WIDTH
   /\ Tess.NumPrims s <= KNOB_SIMD_WIDTH)
  /\ (let s' := snd (Tess.NextPrim s) in
      Tess.m_numPrims s' = Tess.m_numPrims s - Tess.NumPrims s
      /\ Tess.m_ppIndices s'
         = map (fun p => p + Tess.NumPrims s) (Tess.m_ppIndices s)
      /\ Tess.m_numPrims s' <= Tess.m_numPrims s
      /\ (0 < Tess.m_numPrims s -> Tess.m_numPrims s' < Tess.m_numPrims s)
      /\ fst (Tess.NextPrim s) = Tess.HasWork s')
  /\ (forall ops : list Tess.op,
      let s' := Tess.run_ops ops s in
      0 <= Tess.m_numPrims s' <= Tess.m_numPrims s
      /\ (Tess.HasWork s' = false <-> Tess.m_numPrims s' = 0))
  /\ (forall n : nat,
      Tess.m_numPrims (Nat.iter n (fun s => snd (Tess.NextPrim s)) s)
      = Z.max 0 (Tess.m_numPrims s - KNOB_SIMD_WIDTH * Z.of_nat n)).
Proof.
  intros H Hlen.
  split; [pose proof (Tess_NumPrims_bounds s); lia|].
  split.
  - cbv zeta. rewrite Tess_NextPrim_numPrims by exact H.
    pose proof (Tess_NumPrims_bounds s).
    split; [reflexivity|]. split.
    + destruct (Tess.m_ppIndices s) as [|a [|b [|c [|]]]] eqn:E;
        try discriminate Hlen.
      cbn. rewrite E. reflexivity.
    + split; [lia|]. split; [|reflexivity].
      unfold Tess.NumPrims, KNOB_SIMD_WIDTH. lia.
  - split.
    + intros ops. cbv zeta. split.
      * apply Tess_run_ops_numPrims; exact H.
      * apply Tess_HasWork_false.
    + intros n. apply Tess_iter_NextPrim; exact H.
Qed.

(** What [NextPrim()] of the tessellation assembler returns: whether
    primitives are left once the batch is taken off the count. *)
Lemma NextPrim_tess_result s :
  fst (Tess.NextPrim s)
  = negb (u32 (Tess.m_numPrims s - Tess.NumPrims s) =? 0).
Proof. reflexivity. Qed.

End TessFacts.

Lemma tess_numPrims_countdown_witness :
  Tess.NumPrims tess_eleven = 8
  /\ Tess.m_numPrims (snd (Tess.NextPrim tess_eleven)) = 3
  /\ Tess.m_ppIndices (snd (Tess.NextPrim tess_eleven)) = [108; 208; 308]
  /\ Tess.m_numPrims
       (Nat.iter 2 (fun s => snd (Tess.NextPrim s)) tess_eleven) = 0.
Proof.
  destruct (tess_numPrims_countdown tess_eleven) as ((Hn & _) & Hs & _ & Hi);
    [unfold tess_eleven; simpl; lia | reflexivity |].
  cbv zeta in Hs. destruct Hs as (H1 & H2 & _).
  split; [rewrite Hn; reflexivity|].
  split; [rewrite H1; reflexivity|].
  split; [rewrite H2; reflexivity|].
  rewrite (Hi 2%nat). reflexivity.
Defined.

Section TessGather.

Variable imem : Z -> Z.
Implicit Types s : Tess.PA_TESS.

Lemma Tess_attrib_base s (slot : Z) :
  0 <= slot -> 0 <= Tess.m_attributeStrideInVectors s ->
  slot * Tess.m_attributeStrideInVectors s * 4 < 2 ^ 32 ->
  u32 (u32 (slot * Tess.m_attributeStrideInVectors s) * 4)
  = slot * Tess.m_attributeStrideInVectors s * 4.
Proof.
  intros H1 H2 H3.
  assert (0 <= slot * Tess.m_attributeStrideInVectors s) by nia.
  rewrite (u32_small (slot * _)) by lia. apply u32_small. lia.
Qed.

(** The four components [Assemble] gathers for one vertex slot. *)
Lemma Tess_Assemble_components (mem : Z -> Z) (indices mask : simdscalari)
  (base step : Z) (old : simdvector) (c : nat) :
  length old = 4%nat -> (c < 4)%nat ->
  nth c (fst (for_ 4 (fun c '(v, pBase) =>
                 (<[c := _simd_mask_i32gather_ps _simd_setzero_ps mem pBase
                           indices mask 4]> v, pBase + step))
                (old, base))) []
  = _simd_mask_i32gather_ps _simd_setzero_ps mem (base + Z.of_nat c * step)
      indices mask 4.
Proof.
  intros Hlen Hc.
  destruct old as [|x0 [|x1 [|x2 [|x3 [|]]]]]; try discriminate Hlen.
  do 4 (destruct c as [|c];
        [cbn [for_ fst nth]; simpl insert; cbn [nth]; f_equal; lia|]).
  lia.
Qed.

(** The four floats [AssembleSingle] reads for one vertex slot. *)
Lemma Tess_AssembleSingle_components (mem : Z -> Z) (index base step : Z)
  (old : list Z) (c : nat) :
  length old = 4%nat -> (c < 4)%nat ->
  nth c (fst (for_ 4 (fun c '(pVert, pVertData) =>
                 (<[c := mem (pVertData + Tess.sizeof_float * index)]> pVert,
                  pVertData + step))
                (old, base))) 0
  = mem (base + Z.of_nat c * step + Tess.sizeof_float * index).
Proof.
  intros Hlen Hc.
  destruct old as [|x0 [|x1 [|x2 [|x3 [|]]]]]; try discriminate Hlen.
  do 4 (destruct c as [|c];
        [cbn [for_ fst nth]; simpl insert; cbn [nth]; f_equal; lia|]).
  lia.
Qed.

Lemma mask_gather_lane (mem : Z -> Z) (base : Z) (indices mask : simdscalari)
  (i : nat) :
  (i < 8)%nat ->
  nth i (_simd_mask_i32gather_ps _simd_setzero_ps mem base indices mask 4) 0
  = if nth i mask 0 <? 0 then mem (base + nth i indices 0 * 4) else 0.
Proof.
  intros Hi. unfold _simd_mask_i32gather_ps.
  rewrite nth_map_lanes by exact Hi.
  destruct (nth i mask 0 <? 0); [reflexivity|].
  do 8 (destruct i as [|i]; [reflexivity|]). lia.
Qed.

Lemma for_S {A : Type} (n : nat) (body : nat -> A -> A) (a : A) :
  for_ (S n) body a = body n (for_ n body a).
Proof. reflexivity. Qed.

(** The loop of [Assemble] over the vertices of the primitives: with the
    index arrays aligned every load succeeds, and the loop rewrites entry
    [i] of the caller's array at turn [i]. *)
Lemma Tess_Assemble_loop s (base : Z) (mask : simdscalari) (n : nat)
  (verts : list simdvector) :
  (forall i : nat, (i < n)%nat ->
     (Tess.sizeof_uint32_t * load (Tess.m_ppIndices s) (Z.of_nat i))
       mod Tess.sizeof_simdscalari = 0) ->
  for_ n (fun i verts =>
    match verts with
    | None => None
    | Some verts =>
        match Tess._simd_load_si imem (load (Tess.m_ppIndices s) (Z.of_nat i))
        with
        | None => None
        | Some indices =>
            let pBase := base in
            let '(v, _) :=
              for_ 4 (fun c '(v, pBase) =>
                (<[c := _simd_mask_i32gather_ps _simd_setzero_ps
                          (Tess.m_pVertexData s) pBase indices mask 4]> v,
                 pBase + Tess.sizeof_float
                         * u32 (Tess.m_attributeStrideInVectors s
                                * KNOB_SIMD_WIDTH)))
                (nth i verts [], pBase) in
            Some (<[i := v]> verts)
        end
    end) (Some verts)
  = Some (for_ n (update_entry [] (fun i old =>
      fst (for_ 4 (fun c '(v, pBase) =>
             (<[c := _simd_mask_i32gather_ps _simd_setzero_ps
                       (Tess.m_pVertexData s) pBase
                       (Tess.read_lanes imem
                          (load (Tess.m_ppIndices s) (Z.of_nat i)))
                       mask 4]> v,
              pBase + Tess.sizeof_float
                      * u32 (Tess.m_attributeStrideInVectors s
                             * KNOB_SIMD_WIDTH)))
            (old, base)))) verts).
Proof.
  induction n as [|n IH]; intros Hal; [reflexivity|].
  rewrite !for_S. rewrite IH by (intros i Hi; apply Hal; lia).
  unfold Tess._simd_load_si. rewrite (Hal n) by lia. cbn [Z.eqb].
  unfold update_entry. cbv zeta. destruct (for_ 4 _ _). reflexivity.
Qed.

(** A load from an index array that is not aligned faults, and so does
    every turn after it. *)
Lemma Tess_Assemble_loop_fault {A : Type} (g : nat -> A -> option A)
  (n i : nat) (a : option A) :
  (i < n)%nat -> (forall x, g i x = None) ->
  for_ n (fun i acc => match acc with None => None | Some x => g i x end) a
  = None.
Proof.
  intros Hi Hg. induction n as [|n IH]; [lia|]. rewrite for_S.
  destruct (Nat.eq_dec i n) as [->|Hne].
  - destruct (for_ n _ a); [apply Hg|reflexivity].
  - rewrite IH by lia. reflexivity.
Qed.

(** C6, as amended.  With the attribute slot in range, primitives left, an
    output array with room for [m_numVertsPerPrim] vertices, no 32-bit
    overflow in the attribute strides, index arrays aligned for the load of
    [Assemble] and index values that the gather reads as they are stored
    (below [2^31]): [Assemble] succeeds, and in what it writes, lane [i] of
    component [c] of vertex [v] is the float found at index
    [m_ppIndices[v][i]] of the lane array of component [c] of the attribute
    when [i < NumPrims()], and zero in the lanes beyond; [AssembleSingle] of
    primitive [i < NumPrims()] writes the same float as component [c] of
    vertex [v]. *)
Theorem tess_gather_round_trip s (slot : Z) (verts : list simdvector)
  (verts1 : list (list Z)) (v c i : nat) :
  0 <= slot < Tess.m_numAttributes s ->
  0 < Tess.m_numPrims s ->
  0 <= Tess.m_attributeStrideInVectors s ->
  slot * Tess.m_attributeStrideInVectors s * 4 < 2 ^ 32 ->
  Tess.m_attributeStrideInVectors s * KNOB_SIMD_WIDTH < 2 ^ 32 ->
  (v < Z.to_nat (Tess.m_numVertsPerPrim s))%nat ->
  (Z.to_nat (Tess.m_numVertsPerPrim s) <= length verts)%nat ->
  (Z.to_nat (Tess.m_numVertsPerPrim s) <= length verts1)%nat ->
  length (nth v verts []) = 4%nat ->
  length (nth v verts1 []) = 4%nat ->
  (c < 4)%nat -> (i < 8)%nat ->
  indices_aligned s ->
  (forall j, 0 <= j < Tess.NumPrims s ->
     0 <= imem (load (Tess.m_ppIndices s) (Z.of_nat v) + j) < 2 ^ 31) ->
  let index := imem (load (Tess.m_ppIndices s) (Z.of_nat v) + Z.of_nat i) in
  exists out,
    Tess.Assemble imem slot verts s = Some (true, out)
    /\ nth i (nth c (nth v out []) []) 0
       = (if Z.of_nat i <? Tess.NumPrims s
          then Tess.component_lane_array s slot (Z.of_nat c) index
          else 0)
    /\ (Z.of_nat i < Tess.NumPrims s ->
        exists out1,
          Tess.AssembleSingle imem slot (Z.of_nat i) verts1 s = Some out1
          /\ nth c (nth v out1 []) 0
             = Tess.component_lane_array s slot (Z.of_nat c) index).
Proof.
  intros Hslot Hprims Hstride Hovf1 Hovf2 Hv Hlen Hlen1 Hshape Hshape1 Hc Hi
    Hal Hidx index.
  assert (Hn : 0 < Tess.NumPrims s <= KNOB_SIMD_WIDTH)
    by (unfold Tess.NumPrims, KNOB_SIMD_WIDTH; lia).
  destruct (GenPrimMask_lane (Tess.NumPrims s) i) as (mask & Hmask & Hlane);
    [lia | exact Hi |].
  pose proof (Tess_attrib_base s slot) as Hbase.
  unfold Tess.Assemble, Tess.AssembleSingle.
  destruct (Z.ltb_spec slot (Tess.m_numAttributes s)); [|lia]. simpl negb.
  cbv iota.
  destruct (Z.eqb_spec 0 (Tess.NumPrims s)); [lia|].
  rewrite Hmask. cbv zeta. rewrite Tess_Assemble_loop by exact Hal.
  eexists. split; [reflexivity|]. split.
  - (* Assemble *)
    rewrite for_update_nth by lia.
    rewrite Tess_Assemble_components by assumption.
    rewrite mask_gather_lane by exact Hi.
    rewrite Hlane.
    destruct (Z.ltb_spec (Z.of_nat i) (Tess.NumPrims s)) as [Hlt|Hge];
      [|reflexivity].
    simpl (-1 <? 0). cbv iota.
    unfold Tess.read_lanes. rewrite nth_map_lanes by exact Hi.
    rewrite s32_small by (specialize (Hidx (Z.of_nat i)); lia).
    unfold Tess.component_lane_array, index.
    rewrite Hbase by lia.
    rewrite (u32_small (_ * KNOB_SIMD_WIDTH))
      by (unfold KNOB_SIMD_WIDTH in *; lia).
    unfold Tess.sizeof_simdscalar, Tess.sizeof_float, KNOB_SIMD_WIDTH.
    f_equal. ring.
  - (* AssembleSingle *)
    intros Hlt.
    destruct (Z.ltb_spec (Z.of_nat i) (Tess.NumPrims s)); [|lia]. simpl negb.
    cbv iota. eexists. split; [reflexivity|].
    set (base := Tess.sizeof_simdscalar * _).
    set (step := Tess.sizeof_float * u32 _).
    set (h := fun (i0 : nat) (old : list Z) =>
      fst (for_ 4 (fun c '(pVert, pVertData) =>
             (<[c := Tess.m_pVertexData s
                       (pVertData
                        + Tess.sizeof_float
                          * imem (load (Tess.m_ppIndices s) (Z.of_nat i0)
                                  + Z.of_nat i))]> pVert,
              pVertData + step))
            (old, base))).
    rewrite (for_ext _ (update_entry [] h))
      by (intros i0 x; unfold update_entry, h; cbv zeta;
          destruct (for_ 4 _ _); reflexivity).
    rewrite for_update_nth by lia.
    unfold h. rewrite Tess_AssembleSingle_components by assumption.
    unfold Tess.component_lane_array, index, base, step.
    rewrite Hbase by lia.
    rewrite (u32_small (_ * KNOB_SIMD_WIDTH))
      by (unfold KNOB_SIMD_WIDTH in *; lia).
    unfold Tess.sizeof_simdscalar, Tess.sizeof_float, KNOB_SIMD_WIDTH.
    f_equal. ring.
Qed.

End TessGather.

Lemma tess_gather_round_trip_witness :
  exists out,
    Tess.Assemble (fun a => a mod 16) 1 (repeat (repeat _simd_setzero_ps 4) 3)
      tess_aligned = Some (true, out)
    /\ nth 2 (nth 1 (nth 0 out []) []) 0 = 1328.
Proof.
  destruct (tess_gather_round_trip (fun a => a mod 16) tess_aligned 1
              (repeat (repeat _simd_setzero_ps 4) 3)
              (repeat (repeat 0 4) 3) 0 1 2) as (out & H1 & H2 & _);
    try (unfold tess_aligned, KNOB_SIMD_WIDTH; simpl; lia).
  - intros v Hv. do 3 (destruct v as [|v]; [reflexivity|]).
    unfold tess_aligned in Hv. simpl in Hv. lia.
  - intros j _. cbv beta.
    match goal with
    | |- 0 <= ?x mod 16 < _ => pose proof (Z.mod_pos_bound x 16)
    end.
    lia.
  - exists out. split; [exact H1|]. rewrite H2. reflexivity.
Defined.

(** C6 as it is stated fails in three ways.  On index arrays that are not
    aligned (words 100, 200 and 300) [Assemble] writes nothing: its load
    faults.  On an index with its top bit set [Assemble] gathers with the
    index read as a negative [int], and writes another float than the one
    at that index, which [AssembleSingle] reads.  On a stride of [2^29]
    vectors the step from one component to the next wraps to 0 in 32 bits,
    and both write for component 1 the float of component 0. *)
Lemma tess_gather_without_provisos :
  Tess.Assemble (fun a => a mod 16) 1 (repeat (repeat _simd_setzero_ps 4) 3)
    tess_eleven = None
  /\ (let imem := fun a => 2 ^ 31 + a mod 16 in
      let index := imem (96 + 2) in
      exists out out1,
        Tess.Assemble imem 1 (repeat (repeat _simd_setzero_ps 4) 3)
          tess_aligned = Some (true, out)
        /\ Tess.AssembleSingle imem 1 2 (repeat (repeat 0 4) 3) tess_aligned
           = Some out1
        /\ Tess.component_lane_array tess_aligned 1 1 index = 8589935920
        /\ nth 1 (nth 0 out1 []) 0 = 8589935920
        /\ nth 2 (nth 1 (nth 0 out []) []) 0 = -8589933264)
  /\ (let imem := fun a => a mod 16 in
      let index := imem (96 + 2) in
      exists out out1,
        Tess.Assemble imem 1 (repeat (repeat _simd_setzero_ps 4) 3)
          tess_wide = Some (true, out)
        /\ Tess.AssembleSingle imem 1 2 (repeat (repeat 0 4) 3) tess_wide
           = Some out1
        /\ Tess.component_lane_array tess_wide 1 1 index = 85899346928
        /\ nth 1 (nth 0 out1 []) 0 = 68719477744
        /\ nth 2 (nth 1 (nth 0 out []) []) 0 = 68719477744).
Proof.
  split; [vm_compute; reflexivity|].
  split; cbv zeta; eexists; eexists;
    (split; [vm_compute; reflexivity|]);
    (split; [vm_compute; reflexivity|]);
    (split; [vm_compute; reflexivity|]);
    split; vm_compute; reflexivity.
Qed.

(** ** The cut-aware assembler *)

Arguments u32 : simpl never.
Arguments s32 : simpl never.
Arguments load : simpl never.
Arguments store : simpl never.
Arguments store2 : simpl never.
Arguments load2 : simpl never.

(** *** What the per-topology functions leave alone *)

Lemma frame_refl (s : Cut.PA_STATE_CUT) : frame s s.
Proof. constructor; reflexivity. Qed.

Lemma frame_trans (s1 s2 s3 : Cut.PA_STATE_CUT) :
  frame s1 s2 -> frame s2 s3 -> frame s1 s3.
Proof. intros [] []. constructor; congruence. Qed.

Lemma frame_let (s0 e : Cut.PA_STATE_CUT)
  (b : Cut.PA_STATE_CUT -> Cut.PA_STATE_CUT) :
  frame s0 e -> (forall s, frame s0 s -> frame s0 (b s)) ->
  frame s0 (let s := e in b s).
Proof. intros He Hb. apply Hb, He. Qed.

Lemma frame_set_vert (x : list Z) (s0 s : Cut.PA_STATE_CUT) :
  frame s0 s -> frame s0 (Cut.set_vert x s).
Proof. intros []. constructor; assumption. Qed.

Lemma frame_set_curIndex (x : Z) (s0 s : Cut.PA_STATE_CUT) :
  frame s0 s -> frame s0 (Cut.set_curIndex x s).
Proof. intros []. constructor; assumption. Qed.

Lemma frame_set_reverseWinding (x : bool) (s0 s : Cut.PA_STATE_CUT) :
  frame s0 s -> frame s0 (Cut.set_reverseWinding x s).
Proof. intros []. constructor; assumption. Qed.

Lemma frame_set_adjExtraVert (x : Z) (s0 s : Cut.PA_STATE_CUT) :
  frame s0 s -> frame s0 (Cut.set_adjExtraVert x s).
Proof. intros []. constructor; assumption. Qed.

Lemma frame_set_indices (x : list (list Z)) (s0 s : Cut.PA_STATE_CUT) :
  frame s0 s -> frame s0 (Cut.set_indices x s).
Proof. intros []. constructor; assumption. Qed.

Lemma frame_set_numPrimsAssembled (x : Z) (s0 s : Cut.PA_STATE_CUT) :
  frame s0 s -> frame s0 (Cut.set_numPrimsAssembled x s).
Proof. intros []. constructor; assumption. Qed.

Ltac frame_tac :=
  lazymatch goal with
  | H : frame ?s0 ?s |- frame ?s0 ?s => exact H
  | |- frame ?s ?s => apply frame_refl
  | |- frame ?s0 (let s := ?e in @?b s) =>
      apply (frame_let s0 e b);
      [frame_tac | let s' := fresh "s" in
                   let H := fresh "Hfr" in
                   intros s' H; cbv beta; frame_tac]
  | |- frame _ (Cut.set_vert _ _) => apply frame_set_vert; frame_tac
  | |- frame _ (Cut.set_curIndex _ _) => apply frame_set_curIndex; frame_tac
  | |- frame _ (Cut.set_reverseWinding _ _) =>
      apply frame_set_reverseWinding; frame_tac
  | |- frame _ (Cut.set_adjExtraVert _ _) =>
      apply frame_set_adjExtraVert; frame_tac
  | |- frame _ (Cut.set_indices _ _) => apply frame_set_indices; frame_tac
  | |- frame _ (Cut.set_numPrimsAssembled _ _) =>
      apply frame_set_numPrimsAssembled; frame_tac
  | |- frame _ (if ?b then _ else _) => destruct b; frame_tac
  | |- frame _ (match ?x with _ => _ end) => destruct x; frame_tac
  end.

(** Evaluates member reads and updates, innermost first. *)
Ltac cut_eval :=
  cbv beta iota zeta delta [
    Cut.pStreamBase Cut.streamSizeInVerts Cut.binTopology Cut.pCutIndices
    Cut.numVerts Cut.numAttribs Cut.numRemainingVerts Cut.numVertsToAssemble
    Cut.indices Cut.vOffsets Cut.numPrimsAssembled Cut.headVertex
    Cut.tailVertex Cut.curVertex Cut.startPrimId Cut.vPrimId Cut.needOffsets
    Cut.vertsPerPrim Cut.processCutVerts Cut.vert Cut.curIndex
    Cut.reverseWinding Cut.adjExtraVert Cut.pfnPa Cut.set_pStreamBase
    Cut.set_pCutIndices Cut.set_numRemainingVerts Cut.set_indices
    Cut.set_vOffsets Cut.set_numPrimsAssembled Cut.set_headVertex
    Cut.set_tailVertex Cut.set_curVertex Cut.set_vPrimId Cut.set_needOffsets
    Cut.set_vert Cut.set_curIndex Cut.set_reverseWinding
    Cut.set_adjExtraVert].

Ltac case_splits :=
  repeat match goal with
         | |- context [if ?b then _ else _] => destruct b
         | |- context [match ?x with _ => _ end] => destruct x
         end.

(** Unfolds the per-topology functions and keeps their [let]s. *)
Ltac unfold_handlers :=
  cbv beta delta [Cut.call_pfnPa Cut.ProcessVertTriList
    Cut.ProcessVertTriListAdj Cut.ProcessVertTriListAdjNoGs
    Cut.ProcessVertTriStrip Cut.ProcessVertPointList Cut.ProcessVertLineList
    Cut.ProcessVertLineListAdj Cut.ProcessVertLineListAdjNoGs
    Cut.ProcessVertLineStrip Cut.ProcessVertLineStripAdj
    Cut.ProcessVertLineStripAdjNoGs].

Lemma inv_let {Q : Cut.PA_STATE_CUT -> Prop} (e : Cut.PA_STATE_CUT)
  (b : Cut.PA_STATE_CUT -> Cut.PA_STATE_CUT) :
  Q e -> (forall s, Q s -> Q (b s)) -> Q (let s := e in b s).
Proof. intros He Hb. apply Hb, He. Qed.

(** [peel Q] proves [Q] of a chain of [let]s, [if]s and member updates that
    [Q] does not read, from [Q] of the state the chain starts from. *)
Ltac peel Q :=
  lazymatch goal with
  | H : Q ?s |- Q ?s => exact H
  | |- Q (let s := ?e in @?b s) =>
      apply (@inv_let Q e b);
      [peel Q | let s' := fresh "s" in
                let H := fresh "HQ" in
                intros s' H; cbv beta; peel Q]
  | |- Q (if ?c then _ else _) => destruct c; peel Q
  | |- Q (_ _ ?s) => change (Q s); peel Q
  end.

(** The case analysis of [ProcessVertTriStripAdj] on [curIndex]. *)
Lemma curIndex_cases {T : Type} (Q : T -> Prop) (x : Z) (a b c d e : T) :
  Q a -> Q b -> Q c -> Q d -> Q e ->
  Q (match x with
     | 0 | 1 | 2 | 4 => a
     | 3 => b
     | 5 => c
     | 6 => d
     | _ => e
     end).
Proof. intros. case_splits; assumption. Qed.

Section CutFrame.

Variable k : Cut.Knobs.
Implicit Types s : Cut.PA_STATE_CUT.

Lemma AssembleTriStripAdj_frame (gsEnabled : bool) s0 s :
  frame s0 s -> frame s0 (Cut.AssembleTriStripAdj gsEnabled s).
Proof. intros H. unfold Cut.AssembleTriStripAdj. frame_tac. Qed.

Lemma copy_nextTri_frame s0 s :
  frame s0 s -> frame s0 (Cut.copy_nextTri k s).
Proof.
  intros H. unfold Cut.copy_nextTri. cbv zeta.
  generalize (Cut.nextTri k s). intros t. cbn [for_]. frame_tac.
Qed.

Lemma ProcessVertTriStripAdj_frame (gsEnabled : bool) (index : Z)
  (finish : bool) s :
  frame s (Cut.ProcessVertTriStripAdj k gsEnabled index finish s).
Proof.
  unfold Cut.ProcessVertTriStripAdj.
  destruct (finish && _); [|apply (curIndex_cases (frame s))];
    repeat lazymatch goal with
      | |- frame _ (if ?b then _ else _) => destruct b
      | |- frame _ (Cut.AssembleTriStripAdj _ _) =>
          apply AssembleTriStripAdj_frame
      | |- frame _ (Cut.copy_nextTri _ _) => apply copy_nextTri_frame
      | |- frame _ (Cut.set_vert _ _) => apply frame_set_vert
      | |- frame _ (Cut.set_curIndex _ _) => apply frame_set_curIndex
      | |- frame _ (Cut.set_reverseWinding _ _) =>
          apply frame_set_reverseWinding
      | |- frame _ (Cut.set_adjExtraVert _ _) => apply frame_set_adjExtraVert
      | |- frame ?s ?s => apply frame_refl
      end.
Qed.

Lemma call_pfnPa_frame (index : Z) (finish : bool) s :
  frame s (Cut.call_pfnPa k index finish s).
Proof.
  unfold Cut.call_pfnPa.
  destruct (Cut.pfnPa s); try apply ProcessVertTriStripAdj_frame;
    unfold_handlers; frame_tac.
Qed.

End CutFrame.

(** *** The vertex loop ends, and leaves nothing to do *)

Section CutLoop.

Variable k : Cut.Knobs.
Implicit Types s : Cut.PA_STATE_CUT.

Lemma RestartTopology_frame s0 s :
  frame s0 s -> frame s0 (Cut.RestartTopology s).
Proof. intros H. unfold Cut.RestartTopology. frame_tac. Qed.

Lemma ProcessVerts_vertex_frame s : frame s (Cut.ProcessVerts_vertex k s).
Proof.
  unfold Cut.ProcessVerts_vertex.
  destruct (Cut.IsCutIndex _ s); [|apply call_pfnPa_frame].
  cbv zeta. apply RestartTopology_frame.
  destruct (Cut.processCutVerts s).
  - destruct (negb _); [|apply call_pfnPa_frame].
    eapply frame_trans; apply call_pfnPa_frame.
  - destruct (negb _); [apply call_pfnPa_frame | apply frame_refl].
Qed.

Lemma call_pfnPa_adjExtraVert (index : Z) (finish : bool) s :
  extra_vert_ok s -> extra_vert_ok (Cut.call_pfnPa k index finish s).
Proof.
  unfold extra_vert_ok.
  rewrite (fr_pfnPa _ _ (call_pfnPa_frame k index finish s)).
  unfold Cut.call_pfnPa.
  destruct (Cut.pfnPa s); try (intros _; exact I); intros H;
    change (no_extra_vert s) in H;
    match goal with |- Cut.adjExtraVert ?t = -1 => change (no_extra_vert t) end;
    unfold_handlers; peel no_extra_vert.
Qed.

Lemma ProcessVerts_vertex_extra_vert_ok s :
  extra_vert_ok s -> extra_vert_ok (Cut.ProcessVerts_vertex k s).
Proof.
  intros H. unfold Cut.ProcessVerts_vertex.
  destruct (Cut.IsCutIndex _ s); [|apply call_pfnPa_adjExtraVert, H].
  unfold extra_vert_ok. cbn. case_splits; trivial.
Qed.

Lemma ProcessVerts_body_numRemainingVerts s :
  Cut.numRemainingVerts (Cut.ProcessVerts_body k s)
  = s32 (Cut.numRemainingVerts s - 1).
Proof.
  unfold Cut.ProcessVerts_body. cbn.
  rewrite (fr_numRemainingVerts _ _ (ProcessVerts_vertex_frame s)).
  reflexivity.
Qed.

Lemma ProcessVerts_body_inv s : cut_inv s -> cut_inv (Cut.ProcessVerts_body k s).
Proof.
  intros [Hr He]. split.
  - rewrite ProcessVerts_body_numRemainingVerts. apply s32_range.
  - pose proof (ProcessVerts_vertex_extra_vert_ok s He) as H.
    unfold extra_vert_ok in *. exact H.
Qed.

Lemma ProcessVerts_cond_true s :
  Cut.ProcessVerts_cond s = true ->
  Cut.numPrimsAssembled s <> KNOB_SIMD_WIDTH
  /\ 0 < Cut.numRemainingVerts s
  /\ Cut.curVertex s <> Cut.headVertex s.
Proof.
  unfold Cut.ProcessVerts_cond. intros H.
  apply andb_true_iff in H as [H H3]. apply andb_true_iff in H as [H1 H2].
  apply negb_true_iff in H1, H3.
  apply Z.eqb_neq in H1, H3. apply Z.ltb_lt in H2. auto.
Qed.

Lemma ProcessVerts_loop_fix (fuel : nat) s :
  Cut.ProcessVerts_cond s = false -> Cut.ProcessVerts_loop k fuel s = s.
Proof. intros H. destruct fuel; simpl; [|rewrite H]; reflexivity. Qed.

(** The fuel [ProcessVerts] gives its loop is enough: the loop stops because
    its condition fails. *)
Lemma ProcessVerts_loop_done (fuel : nat) s :
  Cut.numRemainingVerts s < 2 ^ 31 ->
  Cut.numRemainingVerts s <= Z.of_nat fuel ->
  Cut.ProcessVerts_cond (Cut.ProcessVerts_loop k fuel s) = false.
Proof.
  revert s. induction fuel as [|fuel IH]; intros s Hr Hf; simpl.
  - unfold Cut.ProcessVerts_cond.
    destruct (Z.ltb_spec 0 (Cut.numRemainingVerts s)); [lia|].
    rewrite andb_false_r. reflexivity.
  - destruct (Cut.ProcessVerts_cond s) eqn:Hc; [|exact Hc].
    apply ProcessVerts_cond_true in Hc as (_ & Hpos & _).
    apply IH; rewrite ProcessVerts_body_numRemainingVerts;
      rewrite s32_small by lia; lia.
Qed.

Lemma ProcessVerts_loop_inv (fuel : nat) s :
  cut_inv s -> cut_inv (Cut.ProcessVerts_loop k fuel s).
Proof.
  revert s. induction fuel as [|fuel IH]; intros s H; simpl; [exact H|].
  destruct (Cut.ProcessVerts_cond s); [|exact H].
  apply IH, ProcessVerts_body_inv, H.
Qed.

(** Only the function of triangle strips with adjacency is called to finish
    a primitive, and it consumes the extra vertex. *)
Lemma finish_adjExtraVert s :
  extra_vert_ok s -> Cut.adjExtraVert s <> -1 ->
  Cut.adjExtraVert (Cut.call_pfnPa k (Cut.curVertex s) true s) = -1.
Proof.
  unfold extra_vert_ok, Cut.call_pfnPa. intros He Hne.
  destruct (Cut.pfnPa s); try contradiction.
  unfold Cut.ProcessVertTriStripAdj.
  destruct (Z.eqb_spec (Cut.adjExtraVert s) (-1)); [contradiction|].
  reflexivity.
Qed.

(** After [ProcessVerts] neither its loop nor its closing [if] has anything
    left to do. *)
Lemma ProcessVerts_settled s :
  cut_inv s ->
  let s' := Cut.ProcessVerts k s in
  Cut.ProcessVerts_cond s' = false
  /\ Cut.ProcessVerts_last_cond s' = false
  /\ cut_inv s'.
Proof.
  intros Hinv. cbv zeta. unfold Cut.ProcessVerts.
  set (s1 := Cut.ProcessVerts_loop k _ s).
  assert (Hc : Cut.ProcessVerts_cond s1 = false)
    by (apply ProcessVerts_loop_done; destruct Hinv; lia).
  assert (Hi : cut_inv s1) by apply ProcessVerts_loop_inv, Hinv.
  destruct (Cut.ProcessVerts_last_cond s1) eqn:Hl; [|auto].
  unfold Cut.ProcessVerts_last_cond in Hl.
  apply andb_true_iff in Hl as [Hl H3]. apply andb_true_iff in Hl as [H1 H2].
  apply negb_true_iff, Z.eqb_neq in H3. apply Z.eqb_eq in H2.
  destruct Hi as [Hr He].
  pose proof (call_pfnPa_frame k (Cut.curVertex s1) true s1) as Hfr.
  pose proof (finish_adjExtraVert s1 He H3) as Hadj.
  split; [|split; [|split]].
  - unfold Cut.ProcessVerts_cond.
    rewrite (fr_numRemainingVerts _ _ Hfr), H2.
    rewrite andb_false_r. reflexivity.
  - unfold Cut.ProcessVerts_last_cond. rewrite Hadj.
    rewrite andb_false_r. reflexivity.
  - rewrite (fr_numRemainingVerts _ _ Hfr). exact Hr.
  - apply call_pfnPa_adjExtraVert, He.
Qed.

Lemma ProcessVerts_fix s :
  Cut.ProcessVerts_cond s = false -> Cut.ProcessVerts_last_cond s = false ->
  Cut.ProcessVerts k s = s.
Proof.
  intros Hc Hl. unfold Cut.ProcessVerts.
  rewrite ProcessVerts_loop_fix by exact Hc. rewrite Hl. reflexivity.
Qed.

End CutLoop.

(** *** [Assemble] is idempotent *)

Section CutAssemble.

Variable k : Cut.Knobs.
Implicit Types s : Cut.PA_STATE_CUT.

Lemma set_vOffsets_twice (a b : list simdscalari) s :
  Cut.set_vOffsets a (Cut.set_vOffsets b s) = Cut.set_vOffsets a s.
Proof. reflexivity. Qed.

(** [ComputeOffsets] writes [vOffsets] and nothing else. *)
Lemma ComputeOffsets_writes s :
  exists vo, Cut.ComputeOffsets k s = Cut.set_vOffsets vo s.
Proof.
  unfold Cut.ComputeOffsets.
  generalize (Z.to_nat (Cut.vertsPerPrim s)). intros n.
  match goal with |- context [for_ n ?f s] => set (body := f) end.
  assert (Hb : forall v s', exists vo, body v s' = Cut.set_vOffsets vo s')
    by (intros v s'; eexists; reflexivity).
  clearbody body.
  induction n as [|n [vo IH]].
  - exists (Cut.vOffsets s). destruct s; reflexivity.
  - cbn [for_]. rewrite IH. destruct (Hb n (Cut.set_vOffsets vo s)) as [vo' ->].
    exists vo'. reflexivity.
Qed.

Lemma offsets_cached_writes s :
  exists vo b, offsets_cached k s = Cut.set_needOffsets b (Cut.set_vOffsets vo s)
               /\ Cut.needOffsets (offsets_cached k s) = false.
Proof.
  unfold offsets_cached. destruct (Cut.needOffsets s) eqn:E.
  - destruct (ComputeOffsets_writes s) as [vo ->].
    exists vo, false. split; reflexivity.
  - exists (Cut.vOffsets s), false. split; [|exact E].
    destruct s; cbn in *. rewrite E. reflexivity.
Qed.

Lemma gather_vertex_idem (slot : Z) s (v : nat) (old : simdvector) :
  gather_vertex slot s v (gather_vertex slot s v old)
  = gather_vertex slot s v old.
Proof.
  unfold gather_vertex.
  destruct old as [|x0 [|x1 [|x2 [|x3 l]]]]; reflexivity.
Qed.

Lemma Assemble_unfold (slot : Z) (result : list simdvector) s :
  Cut.Assemble k slot result s
  = let s1 := Cut.ProcessVerts k s in
    if negb (Cut.numPrimsAssembled s1 =? KNOB_SIMD_WIDTH)
       && (0 <? Cut.numRemainingVerts s1)
    then (false, result, s1)
    else (true,
          for_ (Z.to_nat (Cut.vertsPerPrim (offsets_cached k s1)))
            (update_entry [] (gather_vertex slot (offsets_cached k s1))) result,
          offsets_cached k s1).
Proof.
  unfold Cut.Assemble. cbv zeta.
  destruct (negb _ && _); [reflexivity|].
  reflexivity.
Qed.

Lemma Assemble_inv (slot : Z) (result : list simdvector) s :
  cut_inv s -> cut_inv (snd (Cut.Assemble k slot result s)).
Proof.
  intros H. rewrite Assemble_unfold. cbv zeta.
  destruct (ProcessVerts_settled k s H) as (_ & _ & Hi).
  destruct (negb _ && _); [exact Hi|]. cbn [snd].
  destruct (offsets_cached_writes (Cut.ProcessVerts k s)) as (vo & b & -> & _).
  exact Hi.
Qed.

(** On a state that satisfies the invariant, a second [Assemble] returns
    what the first returned, writes what the first wrote, and leaves the
    state the first left. *)
Lemma Assemble_again (slot : Z) (result : list simdvector) s
  (b : bool) (r : list simdvector) (s1 : Cut.PA_STATE_CUT) :
  cut_inv s ->
  Cut.Assemble k slot result s = (b, r, s1) ->
  Cut.Assemble k slot result s1 = (b, r, s1)
  /\ Cut.Assemble k slot r s1 = (b, r, s1).
Proof.
  intros Hinv HA. rewrite Assemble_unfold in HA. cbv zeta in HA.
  destruct (ProcessVerts_settled k s Hinv) as (Hc & Hl & _).
  set (p := Cut.ProcessVerts k s) in *.
  destruct (negb _ && _) eqn:Hret; inversion HA; subst b r s1; clear HA.
  - assert (Hp : Cut.ProcessVerts k p = p) by (apply ProcessVerts_fix; assumption).
    rewrite Assemble_unfold. cbv zeta. rewrite Hp, Hret. auto.
  - destruct (offsets_cached_writes p) as (vo & b & Ho & Hneed).
    assert (Hp : Cut.ProcessVerts k (offsets_cached k p) = offsets_cached k p).
    { apply ProcessVerts_fix; rewrite Ho; assumption. }
    assert (Hoo : offsets_cached k (offsets_cached k p) = offsets_cached k p).
    { unfold offsets_cached at 1. rewrite Hneed. reflexivity. }
    assert (Hret' :
      negb (Cut.numPrimsAssembled (offsets_cached k p) =? KNOB_SIMD_WIDTH)
      && (0 <? Cut.numRemainingVerts (offsets_cached k p)) = false)
      by (rewrite Ho; exact Hret).
    rewrite !Assemble_unfold. cbv zeta. rewrite Hp, Hret', Hoo.
    split; [reflexivity|].
    rewrite for_update_idem by (intros; apply gather_vertex_idem).
    reflexivity.
Qed.

(** The invariant holds from construction on, whatever the caller does. *)
Lemma ctor_inv (gsEnabled : bool) (in_pStream : Z -> Z)
  (in_streamSizeInVerts : Z) (in_pIndices : list Z)
  (in_numVerts in_numAttribs : Z) (topo : PRIMITIVE_TOPOLOGY)
  (in_processCutVerts : bool) s :
  Cut.PA_STATE_CUT_ctor k gsEnabled in_pStream in_streamSizeInVerts
    in_pIndices in_numVerts in_numAttribs topo in_processCutVerts = Some s ->
  cut_inv s.
Proof.
  unfold Cut.PA_STATE_CUT_ctor. intros H.
  pose proof (s32_range in_numVerts).
  destruct topo, gsEnabled; inversion H; subst s; clear H;
    split; try assumption; reflexivity.
Qed.

Lemma run_op_inv (o : Cut.op) s : cut_inv s -> cut_inv (Cut.run_op k o s).
Proof.
  intros H. destruct o; unfold Cut.run_op.
  - exact H.
  - exact H.
  - apply Assemble_inv, H.
  - unfold Cut.NextPrim. cbn [snd]. destruct (_ || _); exact H.
  - destruct H as [_ He]. split; [apply s32_range|].
    unfold extra_vert_ok in *. cbn. destruct (Cut.pfnPa s); trivial.
Qed.

Lemma run_ops_inv (ops : list Cut.op) s :
  cut_inv s -> cut_inv (Cut.run_ops k ops s).
Proof.
  revert s. induction ops as [|o ops IH]; intros s H; [exact H|].
  apply (IH (Cut.run_op k o s)), run_op_inv, H.
Qed.

(** C5.  In any state the assembler reaches from its construction, a call of
    [Assemble] that follows another with nothing in between returns the same
    boolean, writes the same data (into the array the first call filled, or
    into the array as the first call found it) and leaves the state of the
    first call as it is, cursors and batch counter included. *)
Theorem Assemble_idempotent (gsEnabled : bool) (in_pStream : Z -> Z)
  (in_streamSizeInVerts : Z) (in_pIndices : list Z)
  (in_numVerts in_numAttribs : Z) (topo : PRIMITIVE_TOPOLOGY)
  (in_processCutVerts : bool) (s0 : Cut.PA_STATE_CUT) (ops : list Cut.op)
  (slot : Z) (result : list simdvector)
  (b : bool) (r : list simdvector) (s1 : Cut.PA_STATE_CUT) :
  Cut.PA_STATE_CUT_ctor k gsEnabled in_pStream in_streamSizeInVerts
    in_pIndices in_numVerts in_numAttribs topo in_processCutVerts = Some s0 ->
  Cut.Assemble k slot result (Cut.run_ops k ops s0) = (b, r, s1) ->
  Cut.Assemble k slot r s1 = (b, r, s1)
  /\ Cut.Assemble k slot result s1 = (b, r, s1)
  /\ (forall r2 s2, Cut.Assemble k slot r s1 = (b, r2, s2) ->
      Cut.curVertex s2 = Cut.curVertex s1
      /\ Cut.tailVertex s2 = Cut.tailVertex s1
      /\ Cut.headVertex s2 = Cut.headVertex s1
      /\ Cut.numPrimsAssembled s2 = Cut.numPrimsAssembled s1).
Proof.
  intros Hctor HA.
  destruct (Assemble_again slot result (Cut.run_ops k ops s0) b r s1)
    as [H1 H2]; [apply run_ops_inv, (ctor_inv _ _ _ _ _ _ _ _ _ Hctor) | exact HA |].
  split; [exact H2|]. split; [exact H1|].
  intros r2 s2 H. rewrite H2 in H. inversion H. auto.
Qed.

End CutAssemble.

(** *** Restarts, adjacency and the store-full predicate on concrete draws *)

Ltac evaluate :=
  repeat match goal with |- _ /\ _ => split end; vm_compute; reflexivity.

Section CutConcrete.

Variable k : Cut.Knobs.
Variable vertexStore : Z -> Z.
Variable numAttribs : Z.

(** C2.  In a triangle strip, with cut vertices not processed, a vertex
    whose restart bit is set goes to no per-topology function: nothing is
    assembled, the gather table stays as it is, and [curIndex],
    [reverseWinding] and [adjExtraVert] are reset.  On the vertices
    [0, 1, 2, 3] with vertex 2 marked cut: after vertices 0 and 1 the window
    holds both; the cut at vertex 2 assembles nothing and resets the
    topology state; vertex 3 is stored as the first vertex of a new strip;
    no primitive is assembled at all.  With two more vertices, the one
    primitive of the draw is [(3, 4, 5)], un-reversed. *)
Theorem tristrip_cut_restarts :
  (forall s : Cut.PA_STATE_CUT,
     Cut.pfnPa s = Cut.pfn_ProcessVertTriStrip ->
     extra_vert_ok s ->
     Cut.processCutVerts s = false ->
     Cut.IsCutIndex (Cut.curVertex s) s = true ->
     let s' := Cut.ProcessVerts_vertex k s in
     s' = Cut.RestartTopology s
     /\ Cut.numPrimsAssembled s' = Cut.numPrimsAssembled s
     /\ Cut.indices s' = Cut.indices s
     /\ Cut.curIndex s' = 0
     /\ Cut.reverseWinding s' = false
     /\ Cut.adjExtraVert s' = -1)
  /\ exists s0,
    Cut.PA_FACTORY_paCut k false vertexStore 4 numAttribs TOP_TRIANGLE_STRIP
    = Some s0
    /\ Cut.processCutVerts s0 = false
    /\ (let s1 := Cut.run_op k (Cut.op_feed 4 vertexStore) s0 in
        let before_cut := Nat.iter 2 (Cut.ProcessVerts_body k) s1 in
        let after_cut := Cut.ProcessVerts_body k before_cut in
        let after_3 := Cut.ProcessVerts_body k after_cut in
        map (fun v => Cut.IsCutIndex v s1) [0; 1; 2; 3]
        = [false; false; true; false]
        /\ (Cut.curIndex before_cut = 2
            /\ firstn 2 (Cut.vert before_cut) = [0; 1]
            /\ Cut.curVertex before_cut = 2)
        /\ (Cut.numPrimsAssembled after_cut = 0
            /\ Cut.indices after_cut = Cut.indices s0
            /\ Cut.curIndex after_cut = 0
            /\ Cut.reverseWinding after_cut = false
            /\ Cut.adjExtraVert after_cut = -1)
        /\ (Cut.numPrimsAssembled after_3 = 0
            /\ Cut.curIndex after_3 = 1
            /\ firstn 1 (Cut.vert after_3) = [3]
            /\ Cut.reverseWinding after_3 = false)
        /\ Cut.ProcessVerts k s1 = after_3
        /\ Cut.assembled_prims (Cut.ProcessVerts k s1) = [])
    /\ Cut.draw k 4 [4] true s0 = []
    /\ (exists s0',
        Cut.PA_FACTORY_paCut k false vertexStore 6 numAttribs
          TOP_TRIANGLE_STRIP = Some s0'
        /\ Cut.draw k 6 [4] true s0' = [[3; 4; 5]]).
Proof.
  split.
  - intros s Hpfn Hextra Hpcv Hcut. cbv zeta.
    unfold extra_vert_ok in Hextra. rewrite Hpfn in Hextra.
    unfold Cut.ProcessVerts_vertex. rewrite Hcut, Hpcv, Hextra.
    cbn. auto 10.
  - eexists. split; [vm_compute; reflexivity|]. split; [evaluate|].
    split; [|split; [evaluate|]].
    + cbv zeta. evaluate.
    + eexists. split; [vm_compute; reflexivity|]. evaluate.
Qed.

(** C7.  A triangle strip with adjacency of the vertices [0 .. 6], the
    geometry stage disabled, no cuts: the draw assembles one primitive, with
    gather indices [(0, 2, 4)], and leaves the winding reversed for the
    next.  On 10 vertices the primitives are [(0, 2, 4)], [(2, 6, 4)],
    [(4, 6, 8)]: the winding alternates.  In general, a call of the function
    that is not a finishing call either assembles nothing and keeps the
    winding bit, or assembles one primitive and flips it. *)
Theorem tristripadj_core_prims :
  (exists s0,
     Cut.PA_FACTORY_paCut k false vertexStore 7 numAttribs TOP_TRI_STRIP_ADJ
     = Some s0
     /\ Cut.pfnPa s0 = Cut.pfn_ProcessVertTriStripAdj false
     /\ Cut.reverseWinding s0 = false
     /\ (let s1 :=
           Cut.ProcessVerts k
             (Cut.run_op k (Cut.op_feed 0 vertexStore) s0) in
         Cut.assembled_prims s1 = [[0; 2; 4]]
         /\ Cut.reverseWinding s1 = true)
     /\ Cut.draw k 7 [] true s0 = [[0; 2; 4]])
  /\ (exists s0,
     Cut.PA_FACTORY_paCut k false vertexStore 10 numAttribs TOP_TRI_STRIP_ADJ
     = Some s0
     /\ Cut.draw k 10 [] true s0 = [[0; 2; 4]; [2; 6; 4]; [4; 6; 8]])
  /\ (forall (index : Z) (s : Cut.PA_STATE_CUT),
      let s' := Cut.ProcessVertTriStripAdj k false index false s in
      (Cut.numPrimsAssembled s' = Cut.numPrimsAssembled s
       /\ Cut.indices s' = Cut.indices s
       /\ Cut.reverseWinding s' = Cut.reverseWinding s)
      \/ (Cut.numPrimsAssembled s' = u32 (Cut.numPrimsAssembled s + 1)
          /\ Cut.reverseWinding s' = negb (Cut.reverseWinding s))).
Proof.
  split; [|split].
  - eexists. split; [vm_compute; reflexivity|]. cbv zeta. evaluate.
  - eexists. split; [vm_compute; reflexivity|]. evaluate.
  - intros index s. cbv zeta. unfold Cut.ProcessVertTriStripAdj.
    rewrite andb_false_l. simpl negb. cbv iota.
    apply (curIndex_cases (fun s' =>
      (Cut.numPrimsAssembled s' = Cut.numPrimsAssembled s
       /\ Cut.indices s' = Cut.indices s
       /\ Cut.reverseWinding s' = Cut.reverseWinding s)
      \/ (Cut.numPrimsAssembled s' = u32 (Cut.numPrimsAssembled s + 1)
          /\ Cut.reverseWinding s' = negb (Cut.reverseWinding s))));
      try (left; split; [|split]; reflexivity).
    + destruct (Cut.adjExtraVert s =? -1);
        [left; split; [|split]; reflexivity|right; split; reflexivity].
    + right; split; reflexivity.
Qed.

End CutConcrete.

Lemma tristrip_cut_restarts_witness :
  exists s0,
    Cut.PA_FACTORY_paCut knobs0 false (fun a => a) 4 1 TOP_TRIANGLE_STRIP
    = Some s0
    /\ (let before_cut :=
          Nat.iter 2 (Cut.ProcessVerts_body knobs0)
            (Cut.run_op knobs0 (Cut.op_feed 4 (fun a => a)) s0) in
        Cut.curIndex before_cut = 2
        /\ Cut.curIndex (Cut.ProcessVerts_vertex knobs0 before_cut) = 0).
Proof.
  eexists. split; [vm_compute; reflexivity|]. cbv zeta.
  split; [vm_compute; reflexivity|].
  match goal with
  | |- Cut.curIndex (Cut.ProcessVerts_vertex _ ?s) = 0 =>
      destruct (proj1 (tristrip_cut_restarts knobs0 (fun a => a) 1) s)
        as (_ & _ & _ & H & _);
      [vm_compute; reflexivity ..| exact H]
  end.
Defined.

(** *** The store-full predicate, [NextPrim] and [Reset] *)

Section CutInterface.

Variable k : Cut.Knobs.
Variable vertexStore : Z -> Z.
Variable numAttribs : Z.
Implicit Types s : Cut.PA_STATE_CUT.

(** C3 fails on the code.  A triangle strip on the factory's ring of 48
    vertices, the caller feeding only when [IsVertexStoreFull()] is false:
    five batches, [Assemble] (8 primitives from vertices 0 to 9),
    [NextPrim()], two batches.  Now [headVertex = 8], [tailVertex = 10] and
    the window holds the vertices 8 and 9 of the strip; the predicate is
    false, and the next batch goes to the slots 8 to 15: over the window's
    vertices and over the vertices from [tailVertex] on, which are not
    processed yet.  The primitive assembled next gathers from those
    slots. *)
Theorem store_full_misses_unaligned_tail :
  let feed := Cut.op_feed 0 vertexStore in
  let ops := [feed; feed; feed; feed; feed;
              Cut.op_Assemble 0 Cut.prim_array; Cut.op_NextPrim;
              feed; feed] in
  exists s0,
    Cut.PA_FACTORY_paCut k false vertexStore 100 numAttribs TOP_TRIANGLE_STRIP
    = Some s0
    /\ Cut.guards_hold k ops s0 = true
    /\ (let s := Cut.run_ops k ops s0 in
        Cut.IsVertexStoreFull s = false
        /\ Cut.headVertex s = 8 /\ Cut.tailVertex s = 10
        /\ Cut.curVertex s = 10
        /\ Cut.curIndex s = 2 /\ firstn 2 (Cut.vert s) = [8; 9]
        /\ fst (Cut.GetNextVsOutput s) = 1
        /\ (Cut.headVertex s <=? load (Cut.vert s) 0) = true
        /\ (load (Cut.vert s) 0 <? Cut.headVertex s + KNOB_SIMD_WIDTH) = true
        /\ (Cut.headVertex s <=? Cut.tailVertex s) = true
        /\ (Cut.tailVertex s <? Cut.headVertex s + KNOB_SIMD_WIDTH) = true
        /\ hd [] (Cut.assembled_prims
                    (Cut.ProcessVerts k (Cut.run_op k feed s)))
           = [8; 9; 10]).
Proof.
  cbv zeta. eexists.
  split; [vm_compute; reflexivity|]. evaluate.
Qed.

(** C8, as stated, fails for the cut-aware assembler: 16 points fed in two
    batches, the first 8 assembled; [NextPrim()] returns false although
    [Assemble], with nothing fed in between, returns a further full
    batch. *)
Lemma NextPrim_cut_false_with_batch_queued :
  exists s0,
    Cut.PA_FACTORY_paCut {| Cut.KNOB_NUM_ATTRIBUTES := 4; Cut.uninit := 0 |}
      false (fun a => a) 16 1 TOP_POINT_LIST = Some s0
    /\ (let k0 := {| Cut.KNOB_NUM_ATTRIBUTES := 4; Cut.uninit := 0 |} in
        let feed := Cut.op_feed 0 (fun a => a) in
        let s1 := Cut.run_ops k0 [feed; feed; Cut.op_Assemble 0 Cut.prim_array] s0 in
        let '(more, s2) := Cut.NextPrim s1 in
        let '(assembled, _, s3) := Cut.Assemble k0 0 Cut.prim_array s2 in
        Cut.NumPrims s1 = KNOB_SIMD_WIDTH
        /\ more = false
        /\ assembled = true
        /\ Cut.NumPrims s3 = KNOB_SIMD_WIDTH
        /\ Cut.assembled_prims s3
           = [[8]; [9]; [10]; [11]; [12]; [13]; [14]; [15]]
        /\ Cut.headVertex s3 = Cut.headVertex s1).
Proof. eexists. split; [vm_compute; reflexivity|]. vm_compute. auto 10. Qed.

Lemma ProcessVerts_loop_numVertsToAssemble (fuel : nat) s :
  Cut.numVertsToAssemble (Cut.ProcessVerts_loop k fuel s)
  = Cut.numVertsToAssemble s.
Proof.
  revert s. induction fuel as [|fuel IH]; intros s; simpl; [reflexivity|].
  destruct (Cut.ProcessVerts_cond s); [|reflexivity].
  rewrite IH. unfold Cut.ProcessVerts_body. cbn.
  apply (fr_numVertsToAssemble _ _ (ProcessVerts_vertex_frame k s)).
Qed.

Lemma ProcessVerts_numVertsToAssemble s :
  Cut.numVertsToAssemble (Cut.ProcessVerts k s) = Cut.numVertsToAssemble s.
Proof.
  unfold Cut.ProcessVerts. cbv zeta.
  destruct (Cut.ProcessVerts_last_cond _).
  - rewrite (fr_numVertsToAssemble _ _ (call_pfnPa_frame k _ _ _)).
    apply ProcessVerts_loop_numVertsToAssemble.
  - apply ProcessVerts_loop_numVertsToAssemble.
Qed.

Lemma run_op_numVertsToAssemble (o : Cut.op) s :
  Cut.numVertsToAssemble (Cut.run_op k o s) = Cut.numVertsToAssemble s.
Proof.
  destruct o; unfold Cut.run_op; try reflexivity.
  - rewrite Assemble_unfold. cbv zeta.
    destruct (negb _ && _); cbn [snd].
    + apply ProcessVerts_numVertsToAssemble.
    + destruct (offsets_cached_writes k (Cut.ProcessVerts k s))
        as (vo & b & -> & _).
      apply ProcessVerts_numVertsToAssemble.
  - unfold Cut.NextPrim. cbn [snd]. destruct (_ || _); reflexivity.
Qed.

Lemma run_ops_numVertsToAssemble (ops : list Cut.op) s :
  Cut.numVertsToAssemble (Cut.run_ops k ops s) = Cut.numVertsToAssemble s.
Proof.
  revert s. induction ops as [|o ops IH]; intros s; [reflexivity|].
  change (Cut.run_ops k (o :: ops) s)
    with (Cut.run_ops k ops (Cut.run_op k o s)).
  rewrite IH. apply run_op_numVertsToAssemble.
Qed.

(** What [Reset()] of the cut-aware assembler does after any calls made
    since the construction: the counters, cursors, topology state and
    primitive ids are as constructed; the dirty flag of the offsets, the
    gather table, the offsets and the vertex window stay as they are. *)
Lemma Reset_cut_fields (gsEnabled : bool) (in_pStream : Z -> Z)
  (in_streamSizeInVerts : Z) (in_pIndices : list Z)
  (in_numVerts in_numAttribs : Z) (topo : PRIMITIVE_TOPOLOGY)
  (in_processCutVerts : bool) (s0 : Cut.PA_STATE_CUT) (ops : list Cut.op) :
  Cut.PA_STATE_CUT_ctor k gsEnabled in_pStream in_streamSizeInVerts
    in_pIndices in_numVerts in_numAttribs topo in_processCutVerts = Some s0 ->
  let s := Cut.run_ops k ops s0 in
  let r := Cut.Reset s in
  (Cut.numRemainingVerts r = Cut.numRemainingVerts s0
   /\ Cut.numPrimsAssembled r = Cut.numPrimsAssembled s0
   /\ Cut.curIndex r = Cut.curIndex s0
   /\ Cut.curVertex r = Cut.curVertex s0
   /\ Cut.tailVertex r = Cut.tailVertex s0
   /\ Cut.headVertex r = Cut.headVertex s0
   /\ Cut.reverseWinding r = Cut.reverseWinding s0
   /\ Cut.adjExtraVert r = Cut.adjExtraVert s0
   /\ Cut.vPrimId r = Cut.vPrimId s0)
  /\ (Cut.needOffsets r = Cut.needOffsets s
      /\ Cut.indices r = Cut.indices s
      /\ Cut.vOffsets r = Cut.vOffsets s
      /\ Cut.vert r = Cut.vert s).
Proof.
  intros Hctor s r.
  assert (Hn : Cut.numVertsToAssemble s = Cut.numVertsToAssemble s0)
    by apply run_ops_numVertsToAssemble.
  assert (H0 : Cut.numRemainingVerts s0 = s32 (Cut.numVertsToAssemble s0)
               /\ Cut.numPrimsAssembled s0 = 0 /\ Cut.curIndex s0 = 0
               /\ Cut.curVertex s0 = 0 /\ Cut.tailVertex s0 = 0
               /\ Cut.headVertex s0 = 0 /\ Cut.reverseWinding s0 = false
               /\ Cut.adjExtraVert s0 = -1
               /\ Cut.vPrimId s0 = _mm256_set_epi32_7_0).
  { unfold Cut.PA_STATE_CUT_ctor in Hctor.
    destruct topo, gsEnabled; inversion Hctor; subst s0; cbn;
      rewrite s32_u32, s32_idem; auto 10. }
  destruct H0 as (E1 & E2 & E3 & E4 & E5 & E6 & E7 & E8 & E9).
  rewrite E1, E2, E3, E4, E5, E6, E7, E8, E9.
  subst r. cbn. rewrite Hn. auto 15.
Qed.

End CutInterface.

(** C8, as amended.  [NextPrim()] of the cut-aware assembler returns false
    in every state; it retires the batch when the batch is full or the input
    is exhausted.  [NextPrim()] of the optimized assembler returns true
    exactly when the staged state carries further SIMD primitives and the
    draw has work left once the staged increment is counted.  [NextPrim()]
    of the tessellation assembler returns whether work is left, which is
    whether more than a batch of primitives remained. *)
Theorem NextPrim_results :
  (forall s : Cut.PA_STATE_CUT,
     fst (Cut.NextPrim s) = false
     /\ snd (Cut.NextPrim s)
        = (if (Cut.numPrimsAssembled s =? KNOB_SIMD_WIDTH)
              || (Cut.numRemainingVerts s <=? 0)
           then Cut.Advance s else s))
  /\ (forall (F G : Type) (s : Opt.PA_STATE_OPT F G),
      fst (Opt.NextPrim s)
      = (0 <? Opt.nextNumSimdPrims s)
        && (u32 (Opt.numPrimsComplete s + Opt.nextNumPrimsIncrement s)
            <? Opt.numPrims s))
  /\ (forall s : Tess.PA_TESS,
      fst (Tess.NextPrim s) = Tess.HasWork (snd (Tess.NextPrim s))
      /\ (0 <= Tess.m_numPrims s < 2 ^ 32 ->
          fst (Tess.NextPrim s) = (KNOB_SIMD_WIDTH <? Tess.m_numPrims s))).
Proof.
  split; [|split].
  - intros s. split; reflexivity.
  - intros F G s. apply NextPrim_opt_result.
  - intros s. split; [reflexivity|]. intros H.
    rewrite NextPrim_tess_result. unfold Tess.NumPrims, KNOB_SIMD_WIDTH.
    rewrite u32_small by lia.
    destruct (Z.ltb_spec 8 (Tess.m_numPrims s));
      destruct (Z.eqb_spec (Tess.m_numPrims s - Z.min (Tess.m_numPrims s) 8) 0);
      simpl; lia || reflexivity.
Qed.

Lemma NextPrim_results_witness : fst (Tess.NextPrim tess_eleven) = true.
Proof.
  destruct NextPrim_results as (_ & _ & H).
  destruct (H tess_eleven) as [_ H2].
  rewrite H2; [reflexivity | unfold tess_eleven; simpl; lia].
Defined.

(** C9, as amended.  [Reset()] of the cut-aware assembler, after any calls
    made since the construction, puts the counters, the cursors, the
    topology state and the primitive ids back as constructed, and leaves the
    dirty flag of the offsets, the gather table, the offsets and the vertex
    window as they are.  [Reset()] of the optimized assembler reinstalls the
    reset function and zeroes the counters and batch cursors, leaving the
    total, the staged next state and the primitive ids.  [Reset()] of the
    tessellation assembler is not implemented: it asserts. *)
Theorem Reset_restores (k : Cut.Knobs) (gsEnabled : bool)
  (in_pStream : Z -> Z) (in_streamSizeInVerts : Z) (in_pIndices : list Z)
  (in_numVerts in_numAttribs : Z) (topo : PRIMITIVE_TOPOLOGY)
  (in_processCutVerts : bool) (s0 : Cut.PA_STATE_CUT) (ops : list Cut.op) :
  Cut.PA_STATE_CUT_ctor k gsEnabled in_pStream in_streamSizeInVerts
    in_pIndices in_numVerts in_numAttribs topo in_processCutVerts = Some s0 ->
  (let s := Cut.run_ops k ops s0 in
   let r := Cut.Reset s in
   (Cut.numRemainingVerts r = Cut.numRemainingVerts s0
    /\ Cut.numPrimsAssembled r = Cut.numPrimsAssembled s0
    /\ Cut.curIndex r = Cut.curIndex s0
    /\ Cut.curVertex r = Cut.curVertex s0
    /\ Cut.tailVertex r = Cut.tailVertex s0
    /\ Cut.headVertex r = Cut.headVertex s0
    /\ Cut.reverseWinding r = Cut.reverseWinding s0
    /\ Cut.adjExtraVert r = Cut.adjExtraVert s0
    /\ Cut.vPrimId r = Cut.vPrimId s0)
   /\ (Cut.needOffsets r = Cut.needOffsets s
       /\ Cut.indices r = Cut.indices s
       /\ Cut.vOffsets r = Cut.vOffsets s
       /\ Cut.vert r = Cut.vert s))
  /\ (forall (F G : Type) (s : Opt.PA_STATE_OPT F G),
      let r := Opt.Reset s in
      Opt.pfnPaFunc r = Opt.pfnPaFuncReset s
      /\ Opt.numPrimsComplete r = 0 /\ Opt.numSimdPrims r = 0
      /\ Opt.cur r = 0 /\ Opt.prev r = 0 /\ Opt.first r = 0
      /\ Opt.counter r = 0 /\ Opt.reset r = false
      /\ Opt.numPrims r = Opt.numPrims s
      /\ Opt.pfnPaNextFunc r = Opt.pfnPaNextFunc s
      /\ Opt.nextNumSimdPrims r = Opt.nextNumSimdPrims s
      /\ Opt.nextNumPrimsIncrement r = Opt.nextNumPrimsIncrement s
      /\ Opt.nextReset r = Opt.nextReset s
      /\ Opt.primID r = Opt.primID s
      /\ Opt.primIDIncr r = Opt.primIDIncr s)
  /\ (forall s : Tess.PA_TESS, Tess.Reset s = None).
Proof.
  intros Hctor. split; [|split].
  - exact (Reset_cut_fields k _ _ _ _ _ _ _ _ _ ops Hctor).
  - intros F G s. apply Reset_opt_fields.
  - reflexivity.
Qed.

Lemma Reset_restores_witness :
  exists s0,
    Cut.PA_FACTORY_paCut knobs0 false (fun a => a) 20 1 TOP_TRIANGLE_STRIP
    = Some s0
    /\ (let r := Cut.Reset
                   (Cut.run_ops knobs0
                      [Cut.op_feed 0 (fun a => a);
                       Cut.op_Assemble 0 Cut.prim_array] s0) in
        Cut.numRemainingVerts r = 20 /\ Cut.curVertex r = 0
        /\ Cut.headVertex r = 0 /\ Cut.curIndex r = 0).
Proof.
  eexists. split; [vm_compute; reflexivity|].
  match goal with
  | |- context [Cut.run_ops _ ?ops ?s0] =>
      destruct (Reset_restores knobs0 false (fun a => a)
                  (MAX_NUM_VERTS_PER_PRIM * KNOB_SIMD_WIDTH)
                  (repeat 0 (Z.to_nat MAX_NUM_VERTS_PER_PRIM)) 20 1
                  TOP_TRIANGLE_STRIP false s0 ops)
        as (((H1 & _ & H3 & H4 & _ & H6 & _) & _) & _);
      [vm_compute; reflexivity|]
  end.
  cbv zeta. rewrite H1, H3, H4, H6. evaluate.
Defined.

(** C9, as stated, fails: a batch fed to the cut-aware assembler sets the
    dirty flag of the offsets, which the constructor clears and [Reset()]
    does not; and [Reset()] of the tessellation assembler asserts. *)
Lemma Reset_cut_keeps_needOffsets :
  exists s0,
    Cut.PA_FACTORY_paCut knobs0 false (fun a => a) 20 1 TOP_TRIANGLE_STRIP
    = Some s0
    /\ Cut.needOffsets s0 = false
    /\ Cut.needOffsets
         (Cut.Reset (Cut.run_ops knobs0 [Cut.op_feed 0 (fun a => a)] s0))
       = true
    /\ Cut.Reset (Cut.run_ops knobs0 [Cut.op_feed 0 (fun a => a)] s0) <> s0
    /\ Tess.Reset tess_eleven = None.
Proof.
  eexists. split; [vm_compute; reflexivity|].
  split; [evaluate|]. split; [evaluate|]. split; [|reflexivity].
  intros H. apply (f_equal Cut.needOffsets) in H. vm_compute in H.
  discriminate H.
Qed.

Lemma Assemble_idempotent_witness :
  exists s0 r s1,
    Cut.PA_FACTORY_paCut knobs0 false (fun a => a) 10 1 TOP_TRIANGLE_STRIP
    = Some s0
    /\ Cut.Assemble knobs0 0 Cut.prim_array
         (Cut.run_ops knobs0
            [Cut.op_feed 0 (fun a => a); Cut.op_feed 0 (fun a => a)] s0)
       = (true, r, s1)
    /\ Cut.NumPrims s1 = 8
    /\ Cut.Assemble knobs0 0 r s1 = (true, r, s1).
Proof.
  eexists. eexists. eexists.
  split; [vm_compute; reflexivity|].
  match goal with
  | |- ?A = ?B /\ _ => assert (H : A = B) by (vm_compute; reflexivity)
  end.
  split; [exact H|]. split; [vm_compute; reflexivity|].
  refine (proj1 (Assemble_idempotent knobs0 false (fun a => a)
                   (MAX_NUM_VERTS_PER_PRIM * KNOB_SIMD_WIDTH)
                   (repeat 0 (Z.to_nat MAX_NUM_VERTS_PER_PRIM)) 10 1
                   TOP_TRIANGLE_STRIP false _ _ _ _ _ _ _ _ H)).
  vm_compute. reflexivity.
Defined.

(** *** Arrays and the gather table *)

Lemma load_store_eq (a : list Z) (i x : Z) :
  0 <= i < Z.of_nat (length a) -> load (store a i x) i = x.
Proof.
  intros H. unfold load, store.
  destruct (Z.ltb_spec i 0); [lia|].
  apply nth_insert_eq. lia.
Qed.

Lemma load_store_ne (a : list Z) (i j x : Z) :
  0 <= i -> 0 <= j -> i <> j -> load (store a i x) j = load a j.
Proof.
  intros Hi Hj Hne. unfold load, store.
  destruct (Z.ltb_spec i 0); [lia|].
  apply nth_insert_ne. lia.
Qed.

Lemma length_store (a : list Z) (i x : Z) :
  length (store a i x) = length a.
Proof.
  unfold store. destruct (i <? 0); [reflexivity|]. apply length_insert.
Qed.

Lemma table_shape_row (t : list (list Z)) (v : nat) :
  table_shape t -> (v < 6)%nat -> length (nth v t []) = 8%nat.
Proof.
  intros [Hl Hr] Hv. rewrite Forall_forall in Hr. apply Hr.
  apply list_elem_of_In, nth_In. lia.
Qed.

Lemma store2_shape (t : list (list Z)) (v n x : Z) :
  table_shape t -> table_shape (store2 t v n x).
Proof.
  intros [Hl Hr]. unfold store2.
  destruct (v <? 0); [split; assumption|].
  destruct (Nat.lt_ge_cases (Z.to_nat v) 6).
  - split.
    + rewrite length_insert. exact Hl.
    + apply Forall_insert; [exact Hr|].
      rewrite length_store.
      apply table_shape_row; [split; assumption | assumption].
  - rewrite list_insert_ge by lia. split; assumption.
Qed.

Lemma load2_store2_eq (t : list (list Z)) (v n x : Z) :
  table_shape t -> 0 <= v < 6 -> 0 <= n < 8 ->
  load2 (store2 t v n x) v n = x.
Proof.
  intros Hs Hv Hn. unfold load2, store2.
  destruct (Z.ltb_spec v 0); [lia|].
  rewrite nth_insert_eq by (destruct Hs; lia).
  apply load_store_eq.
  rewrite (table_shape_row t (Z.to_nat v) Hs) by lia. lia.
Qed.

Lemma load2_store2_ne (t : list (list Z)) (v n x v' n' : Z) :
  0 <= v -> 0 <= n -> 0 <= v' -> 0 <= n' -> v' <> v \/ n' <> n ->
  load2 (store2 t v n x) v' n' = load2 t v' n'.
Proof.
  intros Hv Hn Hv' Hn' Hne. unfold load2, store2.
  destruct (Z.ltb_spec v 0); [lia|].
  destruct (Z.eq_dec v' v) as [->|Hvv].
  - destruct (Nat.lt_ge_cases (Z.to_nat v) (length t)).
    + rewrite nth_insert_eq by assumption.
      apply load_store_ne; lia.
    + rewrite list_insert_ge by lia. reflexivity.
  - rewrite nth_insert_ne by lia. reflexivity.
Qed.

(** *** A draw without restarts, whatever the topology *)

Lemma IsCutIndex_no_cuts (v : Z) (s : Cut.PA_STATE_CUT) :
  Forall (fun m => m = 0) (Cut.pCutIndices s) -> Cut.IsCutIndex v s = false.
Proof.
  intros H. unfold Cut.IsCutIndex, load.
  assert (E : forall j, nth j (Cut.pCutIndices s) 0 = 0).
  { intros j. destruct (Nat.lt_ge_cases j (length (Cut.pCutIndices s))).
    - rewrite Forall_forall in H. apply H, list_elem_of_In, nth_In.
      assumption.
    - apply nth_overflow. assumption. }
  rewrite E. apply Z.testbit_0_l.
Qed.

Lemma mod_eq_small (a b m : Z) :
  a mod m = b mod m -> a <= b < a + m -> a = b.
Proof.
  intros E H.
  assert (Hm : (b - a) mod m = 0)
    by (rewrite Zminus_mod, E, Z.sub_diag; apply Z.mod_0_l; lia).
  rewrite Z.mod_small in Hm by lia. lia.
Qed.

Lemma map_seq_shift {A : Type} (g : nat -> A) (a b : nat) :
  map g (seq a b) = map (fun l => g (a + l)%nat) (seq 0 b).
Proof.
  revert g a. induction b as [|b IH]; intros g a; [reflexivity|].
  simpl. rewrite Nat.add_0_r. f_equal.
  rewrite (IH g (S a)), (IH (fun l => g (a + l)%nat) 1%nat).
  apply map_ext. intros l. f_equal. lia.
Qed.

Lemma prims_from_app (P : Z -> list Z) (q : Z) (a b : nat) :
  prims_from P q a ++ prims_from P (q + Z.of_nat a) b
  = prims_from P q (a + b).
Proof.
  unfold prims_from. rewrite seq_app, map_app, Nat.add_0_l. f_equal.
  rewrite (map_seq_shift _ a b).
  apply map_ext. intros l. f_equal. lia.
Qed.

Section DrawNoRestart.

Variable k : Cut.Knobs.
Implicit Types s : Cut.PA_STATE_CUT.

(** The ring holds [N] vertices and the draw has [n]. *)
Variables N n : Z.
Hypothesis N_min : 16 <= N.
Hypothesis N_max : N + 8 <= 2 ^ 32.
Hypothesis n_range : 0 <= n < 2 ^ 31.

(** A topology: its function [h], its vertices per primitive [vpp], the
    number [c i] of primitives complete after [i] vertices, the gather
    indices [P q] of primitive [q], and what the topology state is after [i]
    vertices. *)
Variable h : Cut.PFN_PA_FUNC.
Variable vpp : Z.
Variable c : Z -> Z.
Variable P : Z -> list Z.
Variable T : Z -> list Z -> Z -> bool -> Prop.

Local Abbreviation emits := (emits_prim vpp P).
Local Abbreviation Inv := (draw_inv N n h vpp c P T).
Local Abbreviation at_loop_head := (draw_at_head N n h vpp c P T).
Local Abbreviation room := (draw_room N n c).

Hypothesis c_0 : c 0 = 0.
Hypothesis c_step :
  forall i, 0 <= i -> c (i + 1) = c i \/ c (i + 1) = c i + 1.

Hypothesis h_step :
  forall s i,
    0 <= i -> Cut.pfnPa s = h ->
    T i (Cut.vert s) (Cut.curIndex s) (Cut.reverseWinding s) ->
    table_shape (Cut.indices s) ->
    0 <= Cut.numPrimsAssembled s < 8 ->
    let s' := Cut.call_pfnPa k (i mod N) false s in
    T (i + 1) (Cut.vert s') (Cut.curIndex s') (Cut.reverseWinding s')
    /\ Cut.adjExtraVert s' = Cut.adjExtraVert s
    /\ table_shape (Cut.indices s')
    /\ ((c (i + 1) = c i
         /\ Cut.numPrimsAssembled s' = Cut.numPrimsAssembled s
         /\ Cut.indices s' = Cut.indices s)
        \/ (c (i + 1) = c i + 1 /\ emits s s' (c i))).

Lemma c_lipschitz (i : Z) (j : nat) :
  0 <= i -> c i <= c (i + Z.of_nat j) <= c i + Z.of_nat j.
Proof.
  intros Hi. induction j as [|j IH].
  - rewrite Z.add_0_r. lia.
  - replace (i + Z.of_nat (S j)) with (i + Z.of_nat j + 1) by lia.
    destruct (c_step (i + Z.of_nat j)); lia.
Qed.

Lemma c_mono (i j : Z) : 0 <= i <= j -> c i <= c j <= c i + (j - i).
Proof.
  intros H. pose proof (c_lipschitz i (Z.to_nat (j - i))) as L.
  replace (i + Z.of_nat (Z.to_nat (j - i))) with j in L by lia. lia.
Qed.

Lemma body_no_cut s :
  Forall (fun m => m = 0) (Cut.pCutIndices s) ->
  Cut.ProcessVerts_vertex k s = Cut.call_pfnPa k (Cut.curVertex s) false s.
Proof.
  intros H. unfold Cut.ProcessVerts_vertex.
  rewrite IsCutIndex_no_cuts by exact H. reflexivity.
Qed.

Lemma ProcessVerts_body_Inv s (i e f : Z) :
  Inv s i e f -> Cut.ProcessVerts_cond s = true ->
  Inv (Cut.ProcessVerts_body k s) (i + 1) e f.
Proof.
  intros I Hc. apply ProcessVerts_cond_true in Hc as (Hnp & Hrem & Hcur).
  destruct I. unfold KNOB_SIMD_WIDTH in Hnp.
  assert (Hi : i < n) by lia.
  assert (Hf : i < 8 * f).
  { destruct (Z.eq_dec i (8 * f)) as [E|]; [|lia].
    exfalso. apply Hcur. rewrite inv_cur0, inv_head0, E. reflexivity. }
  unfold Cut.ProcessVerts_body. rewrite body_no_cut by assumption.
  rewrite inv_cur0.
  pose proof (call_pfnPa_frame k (i mod N) false s) as Fr.
  destruct (h_step s i) as (HT & Hadj & Hsh & Hem); try assumption; try lia.
  set (s1 := Cut.call_pfnPa k (i mod N) false s) in *.
  pose proof (Z.mod_pos_bound i N ltac:(lia)) as Hmod.
  constructor; cbn.
  - rewrite (fr_pfnPa _ _ Fr). assumption.
  - rewrite (fr_pCutIndices _ _ Fr). assumption.
  - rewrite (fr_numVerts _ _ Fr). assumption.
  - congruence.
  - rewrite (fr_vertsPerPrim _ _ Fr). assumption.
  - assumption.
  - lia.
  - rewrite (fr_numRemainingVerts _ _ Fr), inv_rem0.
    rewrite s32_small by lia. lia.
  - rewrite (fr_curVertex _ _ Fr), (fr_numVerts _ _ Fr), inv_cur0, inv_numVerts0.
    rewrite u32_small by lia. apply Zplus_mod_idemp_l.
  - assumption.
  - destruct Hem as [(E & E1 & _)|(E & E1 & _)]; lia.
  - destruct (c_step i); lia.
  - intros l Hl. unfold Cut.prim_indices. cbn.
    rewrite (fr_vertsPerPrim _ _ Fr), inv_vpp0.
    destruct Hem as [(E & E1 & E2)|(E & E1 & E2 & E3)].
    + rewrite E2. rewrite <- (inv_prims0 l) by lia.
      unfold Cut.prim_indices. rewrite inv_vpp0. reflexivity.
    + destruct (Z.eq_dec l (c i - e)) as [->|Hne].
      * rewrite Z2Nat.id by lia. rewrite <- inv_np0.
        rewrite E3. f_equal. lia.
      * rewrite <- (inv_prims0 l) by lia.
        unfold Cut.prim_indices. rewrite inv_vpp0.
        apply map_ext. intros v. apply E2; lia.
  - rewrite (fr_headVertex _ _ Fr). assumption.
  - lia.
  - destruct inv_tail0 as (t & Ht & Hct & Htail).
    exists t. rewrite (fr_tailVertex _ _ Fr). repeat split; (assumption || lia).
Qed.

Lemma ProcessVerts_loop_Inv (fuel : nat) s (i e f : Z) :
  Inv s i e f -> n - i <= Z.of_nat fuel ->
  exists i', i <= i' /\ Inv (Cut.ProcessVerts_loop k fuel s) i' e f
             /\ Cut.ProcessVerts_cond (Cut.ProcessVerts_loop k fuel s) = false.
Proof.
  revert s i. induction fuel as [|fuel IH]; intros s i I Hfuel.
  - exists i. split; [lia|]. split; [exact I|].
    apply ProcessVerts_loop_done; rewrite (inv_rem I);
      destruct (inv_i I); lia.
  - simpl. destruct (Cut.ProcessVerts_cond s) eqn:Hc.
    + destruct (IH (Cut.ProcessVerts_body k s) (i + 1)) as (i' & Hi' & I' & Hc');
        [apply ProcessVerts_body_Inv; assumption | lia |].
      exists i'. split; [lia|]. split; assumption.
    + exists i. split; [lia|]. split; assumption.
Qed.

(** Where the loop stops: the batch is full, or the draw is exhausted, or
    every vertex fed is processed. *)
Lemma Inv_stopped s (i e f : Z) :
  Inv s i e f -> Cut.ProcessVerts_cond s = false ->
  c i - e = 8 \/ i = n \/ i = 8 * f.
Proof.
  intros I Hc. destruct I. unfold Cut.ProcessVerts_cond, KNOB_SIMD_WIDTH in Hc.
  rewrite inv_np0, inv_rem0, inv_cur0, inv_head0 in Hc.
  destruct (Z.eqb_spec (c i - e) 8); [left; assumption|].
  destruct (Z.ltb_spec 0 (n - i)); [|right; left; lia].
  destruct (Z.eqb_spec (i mod N) ((8 * f) mod N)) as [E|]; [|discriminate Hc].
  right; right. apply (mod_eq_small i (8 * f) N); assumption.
Qed.

Lemma ProcessVerts_Inv s (i e f : Z) :
  Inv s i e f ->
  exists i', i <= i' /\ Inv (Cut.ProcessVerts k s) i' e f
             /\ (c i' - e = 8 \/ i' = n \/ i' = 8 * f).
Proof.
  intros I. unfold Cut.ProcessVerts. cbv zeta.
  destruct (ProcessVerts_loop_Inv (Z.to_nat (Cut.numRemainingVerts s)) s i e f)
    as (i' & Hi' & I' & Hc'); [exact I | |].
  { rewrite (inv_rem I). destruct (inv_i I). lia. }
  exists i'. split; [exact Hi'|].
  unfold Cut.ProcessVerts_last_cond. rewrite (inv_adj I').
  rewrite andb_false_r. split; [exact I'|].
  apply (Inv_stopped _ _ _ _ I' Hc').
Qed.

Lemma Inv_offsets_cached s (i e f : Z) :
  Inv s i e f -> Inv (offsets_cached k s) i e f.
Proof.
  intros I. destruct (offsets_cached_writes k s) as (vo & b & -> & _).
  destruct I. constructor; assumption.
Qed.

Lemma Inv_assembled_prims s (i e f : Z) :
  Inv s i e f ->
  Cut.assembled_prims s = prims_from P e (Z.to_nat (c i - e)).
Proof.
  intros I. unfold Cut.assembled_prims, Cut.NumPrims, prims_from.
  rewrite (inv_np I).
  apply map_ext_in. intros l Hl. apply in_seq in Hl.
  rewrite <- (inv_prims I) by lia.
  rewrite Nat2Z.id. reflexivity.
Qed.

Lemma Inv_Advance s (i e f : Z) :
  Inv s i e f -> Inv (Cut.Advance s) i (c i) f.
Proof.
  intros I. pose proof (inv_cur I) as Hcur. pose proof (inv_i I) as Hi.
  destruct I. constructor; try assumption; cbn; try lia.
  exists i. repeat split; (assumption || lia).
Qed.

Lemma Inv_feed s (i e f : Z) :
  Inv s i e f -> 8 * (f + 1) < i + N ->
  Inv (snd (Cut.GetNextVsOutput (Cut.write_cut_mask 0 s))) i e (f + 1).
Proof.
  intros I Hf. destruct I. constructor; try assumption; cbn.
  - unfold store. destruct (_ <? 0); [assumption|].
    apply Forall_insert; [assumption | reflexivity].
  - rewrite inv_head0, inv_numVerts0. unfold KNOB_SIMD_WIDTH.
    pose proof (Z.mod_pos_bound (8 * f) N ltac:(lia)).
    rewrite u32_small by lia.
    rewrite Zplus_mod_idemp_l. f_equal. lia.
  - lia.
Qed.

Lemma HasWork_Inv s (i e f : Z) :
  Inv s i e f -> Cut.HasWork s = (i <? n).
Proof.
  intros I. unfold Cut.HasWork.
  rewrite (inv_rem I), (inv_adj I). simpl.
  rewrite orb_false_r.
  destruct (Z.ltb_spec 0 (n - i)); destruct (Z.ltb_spec i n); lia || reflexivity.
Qed.

(** The store is full when the batch to feed would reach the tail of the
    ring: when the vertices fed and not retired, with the batch, are as
    many as the ring holds. *)
Lemma IsVertexStoreFull_Inv s (i e f : Z) :
  Inv s i e f ->
  exists t, 0 <= t <= i /\ c t = e
            /\ (8 * f + 8 - t < N -> Cut.IsVertexStoreFull s = false)
            /\ (8 * f + 8 - t = N -> Cut.IsVertexStoreFull s = true).
Proof.
  intros I. destruct (inv_tail I) as (t & Ht & Hct & Htail).
  exists t. split; [exact Ht|]. split; [exact Hct|].
  pose proof (inv_f I) as Hf.
  unfold Cut.IsVertexStoreFull, KNOB_SIMD_WIDTH.
  rewrite (inv_head I), (inv_numVerts I), Htail.
  pose proof (Z.mod_pos_bound (8 * f) N ltac:(lia)).
  rewrite u32_small by lia. rewrite Zplus_mod_idemp_l.
  split.
  - intros Hroom.
    destruct (Z.eqb_spec ((8 * f + 8) mod N) (t mod N)) as [E|]; [|reflexivity].
    symmetry in E. apply mod_eq_small in E; lia.
  - intros Hfull. replace (8 * f + 8) with (t + 1 * N) by lia.
    rewrite Z.mod_add by lia. apply Z.eqb_refl.
Qed.

(** Processing vertices leaves the tail of the ring where it is. *)
Lemma ProcessVerts_body_tailVertex s :
  Cut.tailVertex (Cut.ProcessVerts_body k s) = Cut.tailVertex s.
Proof.
  unfold Cut.ProcessVerts_body. cbn.
  apply (fr_tailVertex _ _ (ProcessVerts_vertex_frame k s)).
Qed.

Lemma ProcessVerts_loop_tailVertex (fuel : nat) s :
  Cut.tailVertex (Cut.ProcessVerts_loop k fuel s) = Cut.tailVertex s.
Proof.
  revert s. induction fuel as [|fuel IH]; intros s; [reflexivity|].
  simpl. destruct (Cut.ProcessVerts_cond s); [|reflexivity].
  rewrite IH. apply ProcessVerts_body_tailVertex.
Qed.

Lemma ProcessVerts_tailVertex s :
  Cut.tailVertex (Cut.ProcessVerts k s) = Cut.tailVertex s.
Proof.
  unfold Cut.ProcessVerts. cbv zeta.
  destruct (Cut.ProcessVerts_last_cond _).
  - rewrite (fr_tailVertex _ _ (call_pfnPa_frame k _ true _)).
    apply ProcessVerts_loop_tailVertex.
  - apply ProcessVerts_loop_tailVertex.
Qed.

(** One turn of the draw loop, from its head with vertices left and room in
    the store: a batch is fed and the vertices are processed until the
    batch is full, which is then assembled and retired, or until they are
    all taken, which retires the batch only at the end of the draw. *)
Lemma draw_round s (i e f : Z) :
  at_loop_head s i e f -> i < n -> Cut.IsVertexStoreFull s = false ->
  exists s' i' e',
    at_loop_head s' i' e' (f + 1) /\ i < i'
    /\ ((e' = c i' /\ c i' - e = 8)
        \/ (e' = e /\ i' = 8 * (f + 1) /\ i' < n /\ c i' - e < 8
            /\ Cut.tailVertex s' = Cut.tailVertex s)
        \/ (e' = c n /\ i' = n /\ c n - e < 8))
    /\ forall fuel,
         Cut.draw k (S fuel) [] true s
         = prims_from P e (Z.to_nat (e' - e)) ++ Cut.draw k fuel [] true s'.
Proof.
  intros (I & Hend & Hlag) Hi Hroom.
  destruct (Hlag Hi) as (Hnp & Hl7 & Hl0).
  assert (If : Inv (snd (Cut.GetNextVsOutput (Cut.write_cut_mask 0 s)))
                 i e (f + 1))
    by (apply Inv_feed; [exact I | lia]).
  set (sf := snd (Cut.GetNextVsOutput (Cut.write_cut_mask 0 s))) in *.
  destruct (ProcessVerts_Inv sf i e (f + 1) If) as (i' & Hi' & I' & Hstop).
  assert (Hprog : i < i').
  { destruct (Z.eq_dec i i') as [<-|]; [|lia].
    destruct (inv_f I). lia. }
  pose proof (c_mono i i' ltac:(destruct (inv_i I); lia)) as Hmono.
  pose proof (inv_np_range I') as Hr'.
  pose proof (inv_i I') as Hi'n.
  assert (Hdraw : forall fuel,
    Cut.draw k (S fuel) [] true s
    = (let '(assemble, _, s1) :=
         Cut.Assemble k Cut.VERTEX_POSITION_SLOT Cut.prim_array sf in
       (if assemble then Cut.assembled_prims s1 else [])
       ++ Cut.draw k fuel [] true (snd (Cut.NextPrim s1)))).
  { intros fuel. cbn [Cut.draw].
    rewrite (HasWork_Inv _ _ _ _ I), Hroom.
    destruct (Z.ltb_spec i n); [|lia]. cbn [andb negb hd tl]. cbv iota.
    fold sf. destruct (Cut.Assemble k _ _ sf) as [[a r] s1].
    unfold Cut.NextPrim. reflexivity. }
  destruct (Z.eq_dec (c i' - e) 8) as [Hfull|Hnotfull].
  - (* a full batch *)
    exists (Cut.Advance (offsets_cached k (Cut.ProcessVerts k sf))), i', (c i').
    split; [|split; [exact Hprog|split; [left; split; [reflexivity|exact Hfull]|]]].
    + split; [apply (Inv_Advance _ _ e), Inv_offsets_cached, I'|].
      split; [reflexivity|]. intros _. split; [lia|]. split; [|lia].
      destruct (Z.eq_dec (c i) e) as [E|E]; [lia|].
      rewrite (Hl0 E) in *. lia.
    + intros fuel. rewrite (Hdraw fuel). rewrite Assemble_unfold. cbv zeta.
      rewrite (inv_np I'), (inv_rem I'). unfold KNOB_SIMD_WIDTH.
      rewrite (proj2 (Z.eqb_eq _ _) Hfull). cbn [negb andb].
      rewrite (Inv_assembled_prims _ _ _ _ (Inv_offsets_cached _ _ _ _ I')).
      unfold Cut.NextPrim. cbn [snd].
      rewrite (inv_np (Inv_offsets_cached _ _ _ _ I')).
      unfold KNOB_SIMD_WIDTH. rewrite (proj2 (Z.eqb_eq _ _) Hfull).
      cbn [orb]. reflexivity.
  - destruct (Z.ltb_spec 0 (n - i')) as [Hmore|Hdone].
    + (* not enough primitives yet *)
      exists (Cut.ProcessVerts k sf), i', e.
      split; [|split; [exact Hprog|split]].
      * split; [exact I'|]. split; [lia|]. intros _. lia.
      * right; left. repeat split; try lia.
        rewrite ProcessVerts_tailVertex. reflexivity.
      * intros fuel. rewrite (Hdraw fuel). rewrite Assemble_unfold. cbv zeta.
        rewrite (inv_np I'), (inv_rem I'). unfold KNOB_SIMD_WIDTH.
        rewrite (proj2 (Z.eqb_neq _ _) Hnotfull).
        rewrite (proj2 (Z.ltb_lt _ _) Hmore). cbn [negb andb].
        rewrite Z.sub_diag. cbn [Z.to_nat prims_from seq map app].
        unfold Cut.NextPrim. cbn [snd].
        rewrite (inv_np I'), (inv_rem I'). unfold KNOB_SIMD_WIDTH.
        rewrite (proj2 (Z.eqb_neq _ _) Hnotfull).
        destruct (Z.leb_spec (n - i') 0); [lia|]. cbn [orb]. reflexivity.
    + (* the last, partial batch *)
      assert (i' = n) by lia. subst i'.
      exists (Cut.Advance (offsets_cached k (Cut.ProcessVerts k sf))), n, (c n).
      split; [|split; [exact Hprog|split; [right; right; lia|]]].
      * split; [apply (Inv_Advance _ _ e), Inv_offsets_cached, I'|].
        split; [reflexivity|]. lia.
      * intros fuel. rewrite (Hdraw fuel). rewrite Assemble_unfold. cbv zeta.
        rewrite (inv_np I'), (inv_rem I'). unfold KNOB_SIMD_WIDTH.
        rewrite Z.sub_diag. cbn [Z.ltb Z.compare]. rewrite andb_false_r.
        rewrite (Inv_assembled_prims _ _ _ _ (Inv_offsets_cached _ _ _ _ I')).
        unfold Cut.NextPrim. cbn [snd].
        rewrite (inv_rem (Inv_offsets_cached _ _ _ _ I')).
        rewrite Z.sub_diag. cbn [Z.leb Z.compare]. rewrite orb_true_r.
        reflexivity.
Qed.

(** At the end of the draw nothing is left to assemble. *)
Lemma draw_done (fuel : nat) s (e f : Z) :
  at_loop_head s n e f -> Cut.draw k fuel [] true s = [].
Proof.
  intros (I & Hend & _). destruct fuel as [|fuel]; [reflexivity|].
  cbn [Cut.draw]. rewrite (HasWork_Inv _ _ _ _ I).
  destruct (Z.ltb_spec n n); [lia|]. reflexivity.
Qed.

(** A draw of [n] vertices without restarts, on a ring with room, assembles
    the primitives [P 0], ..., [P (c n - 1)], in this order. *)
Lemma draw_at_loop_head (fuel : nat) s (i e f : Z) :
  room ->
  at_loop_head s i e f -> n - i <= Z.of_nat fuel ->
  Cut.draw k fuel [] true s = prims_from P e (Z.to_nat (c n - e)).
Proof.
  intros Hroom. revert s i e f.
  induction fuel as [|fuel IH]; intros s i e f H Hfuel.
  - destruct H as (I & Hend & _).
    assert (i = n) by (destruct (inv_i I); lia). subst i.
    rewrite (Hend eq_refl), Z.sub_diag. reflexivity.
  - pose proof H as (I & Hend & Hlag).
    destruct (Z.ltb_spec i n) as [Hi|Hi].
    2:{ assert (i = n) by (destruct (inv_i I); lia). subst i.
        rewrite (draw_done _ _ _ _ H).
        rewrite (Hend eq_refl), Z.sub_diag. reflexivity. }
    destruct (Hlag Hi) as (Hnp & Hl7 & Hl0).
    destruct (IsVertexStoreFull_Inv _ _ _ _ I) as (t & Ht & Hct & Hnotfull & _).
    destruct (draw_round s i e f H Hi) as (s' & i' & e' & H' & Hprog & Hcase & Hd).
    { apply Hnotfull. pose proof (inv_f I).
      apply (Hroom t i f); (lia || (rewrite Hct; assumption)). }
    pose proof H' as (I' & _ & _).
    pose proof (inv_i I') as Hi'n.
    pose proof (c_mono i' n ltac:(lia)) as Hmono.
    rewrite Hd. rewrite (IH s' i' e' (f + 1) H') by lia.
    assert (He : e <= e' <= c n)
      by (destruct Hcase as [(-> & ?)|[(-> & _ & _ & ? & _)|(-> & _ & ?)]];
          pose proof (inv_np_range I); pose proof (inv_np_range I');
          pose proof (c_mono i n ltac:(lia)); lia).
    replace (Z.to_nat (c n - e))
      with (Z.to_nat (e' - e) + Z.to_nat (c n - e'))%nat by lia.
    rewrite <- prims_from_app. f_equal. f_equal. lia.
Qed.

(** With the store full and every vertex fed processed, the loop turns
    without feeding, and without assembling as long as its batch of
    primitives is not full: the draw makes no progress. *)
Lemma draw_stuck s (i e f : Z) :
  at_loop_head s i e f -> i < n -> i = 8 * f ->
  Cut.IsVertexStoreFull s = true ->
  forall fuel, Cut.draw k fuel [] true s = [].
Proof.
  intros H Hi Hf Hfull fuel. revert s H Hfull.
  induction fuel as [|fuel IH]; intros s H Hfull; [reflexivity|].
  destruct H as (I & Hend & Hlag).
  destruct (Hlag Hi) as (Hnp & Hl7 & Hl0).
  destruct (ProcessVerts_Inv s i e f I) as (i' & Hi' & I' & Hstop).
  assert (i' = i) by (destruct (inv_f I'); lia). subst i'.
  cbn [Cut.draw]. rewrite (HasWork_Inv _ _ _ _ I), Hfull.
  destruct (Z.ltb_spec i n); [|lia]. cbn [andb negb]. cbv iota.
  rewrite Assemble_unfold. cbv zeta.
  rewrite (inv_np I'), (inv_rem I'). unfold KNOB_SIMD_WIDTH.
  destruct (Z.eqb_spec (c i - e) 8); [lia|].
  destruct (Z.ltb_spec 0 (n - i)); [|lia]. cbn [negb andb].
  unfold Cut.NextPrim.
  rewrite (inv_np I'), (inv_rem I'). unfold KNOB_SIMD_WIDTH.
  destruct (Z.eqb_spec (c i - e) 8); [lia|].
  destruct (Z.leb_spec (n - i) 0); [lia|]. cbn [orb negb app].
  apply IH.
  - split; [exact I'|]. split; [exact Hend|]. exact Hlag.
  - unfold Cut.IsVertexStoreFull in *.
    rewrite ProcessVerts_tailVertex.
    rewrite (inv_head I'), (inv_numVerts I').
    rewrite (inv_head I), (inv_numVerts I) in Hfull. exact Hfull.
Qed.

(** The first [j] turns of a draw whose batches of vertices complete fewer
    than 8 primitives between them: each feeds a batch and assembles
    nothing, and the tail of the ring stays at vertex 0. *)
Lemma draw_fill (j : nat) s :
  at_loop_head s 0 0 0 -> Cut.tailVertex s = 0 ->
  8 * Z.of_nat j < n -> 8 * Z.of_nat j < N -> c (8 * Z.of_nat j) < 8 ->
  exists s',
    at_loop_head s' (8 * Z.of_nat j) 0 (Z.of_nat j)
    /\ Cut.tailVertex s' = 0
    /\ ((forall fuel, Cut.draw k fuel [] true s' = []) ->
        forall fuel, Cut.draw k fuel [] true s = []).
Proof.
  intros H0 Htail0. induction j as [|j IH]; intros Hn HN Hc.
  - exists s. split; [exact H0|]. split; [exact Htail0|]. intros H. exact H.
  - pose proof (c_mono (8 * Z.of_nat j) (8 * Z.of_nat (S j)) ltac:(lia))
      as Hmono.
    destruct IH as (sj & Hj & Htailj & Hdj); [lia | lia | lia |].
    pose proof Hj as (Ij & _ & _).
    destruct (IsVertexStoreFull_Inv _ _ _ _ Ij) as (t & Ht & _ & Hnotfull & _).
    destruct (draw_round sj (8 * Z.of_nat j) 0 (Z.of_nat j) Hj)
      as (s' & i' & e' & H' & Hprog & Hcase & Hd); [lia | apply Hnotfull; lia |].
    pose proof H' as (I' & _ & _).
    pose proof (inv_f I') as Hf'. pose proof (inv_i I') as Hi'.
    pose proof (c_mono i' (8 * Z.of_nat (S j)) ltac:(lia)) as Hmono'.
    destruct Hcase as [(_ & E)|[(-> & -> & _ & _ & Etail)|(_ & -> & _)]];
      [lia | | lia].
    exists s'.
    replace (8 * Z.of_nat (S j)) with (8 * (Z.of_nat j + 1)) by lia.
    replace (Z.of_nat (S j)) with (Z.of_nat j + 1) by lia.
    split; [exact H'|]. split; [congruence|].
    intros Hs'. apply Hdj. intros [|fuel]; [reflexivity|].
    rewrite Hd, Hs'. reflexivity.
Qed.

(** A topology that completes fewer than 8 primitives in the vertices that
    fill the ring but for one batch starves on a longer draw: the store is
    full before a batch of primitives is, and nothing is ever assembled. *)
Lemma draw_starves (J : nat) (fuel : nat) s :
  N = 8 * Z.of_nat J + 8 -> 8 * Z.of_nat J < n -> c (8 * Z.of_nat J) < 8 ->
  Cut.pfnPa s = h ->
  Forall (fun m => m = 0) (Cut.pCutIndices s) ->
  Cut.numVerts s = N ->
  Cut.adjExtraVert s = -1 ->
  Cut.vertsPerPrim s = vpp ->
  table_shape (Cut.indices s) ->
  Cut.numRemainingVerts s = n ->
  Cut.curVertex s = 0 ->
  T 0 (Cut.vert s) (Cut.curIndex s) (Cut.reverseWinding s) ->
  Cut.numPrimsAssembled s = 0 ->
  Cut.headVertex s = 0 ->
  Cut.tailVertex s = 0 ->
  Cut.draw k fuel [] true s = [].
Proof.
  intros HN HJ Hc H1 H2 H3 H4 H5 H6 H7 H8 H9 H10 H11 H12.
  destruct (draw_fill J s) as (s' & H' & Htail & Hd);
    [|exact H12 | exact HJ | lia | exact Hc |].
  { split; [|split].
    - constructor; try assumption; rewrite ?c_0; try lia.
      exists 0. repeat split; (exact c_0 || assumption || lia).
    - intros <-. exact c_0.
    - intros _. rewrite c_0. lia. }
  apply Hd. apply (draw_stuck s' (8 * Z.of_nat J) 0 (Z.of_nat J) H');
    [exact HJ | reflexivity |].
  pose proof H' as (I' & _ & _).
  unfold Cut.IsVertexStoreFull, KNOB_SIMD_WIDTH.
  rewrite (inv_head I'), (inv_numVerts I'), Htail.
  pose proof (Z.mod_pos_bound (8 * Z.of_nat J) N ltac:(lia)).
  rewrite u32_small by lia. rewrite Zplus_mod_idemp_l.
  replace (8 * Z.of_nat J + 8) with (0 + 1 * N) by lia.
  rewrite Z.mod_add by lia. rewrite Z.mod_0_l by lia. reflexivity.
Qed.

(** From the constructed assembler on. *)
Lemma draw_no_restart (fuel : nat) s :
  room ->
  Cut.pfnPa s = h ->
  Forall (fun m => m = 0) (Cut.pCutIndices s) ->
  Cut.numVerts s = N ->
  Cut.adjExtraVert s = -1 ->
  Cut.vertsPerPrim s = vpp ->
  table_shape (Cut.indices s) ->
  Cut.numRemainingVerts s = n ->
  Cut.curVertex s = 0 ->
  T 0 (Cut.vert s) (Cut.curIndex s) (Cut.reverseWinding s) ->
  Cut.numPrimsAssembled s = 0 ->
  Cut.headVertex s = 0 ->
  Cut.tailVertex s = 0 ->
  n <= Z.of_nat fuel ->
  Cut.draw k fuel [] true s = prims_from P 0 (Z.to_nat (c n)).
Proof.
  intros Hroom H1 H2 H3 H4 H5 H6 H7 H8 H9 H10 H11 H12 Hfuel.
  rewrite (draw_at_loop_head fuel s 0 0 0 Hroom);
    [rewrite Z.sub_0_r; reflexivity| |lia].
  split; [|split].
  - constructor; try assumption; rewrite ?c_0; try lia.
    exists 0. repeat split; (exact c_0 || assumption || lia).
  - intros <-. exact c_0.
  - intros _. rewrite c_0. lia.
Qed.

End DrawNoRestart.

(** *** Triangle lists and triangle strips *)

Lemma emit_triangle (t : list (list Z)) (np a b c : Z) :
  table_shape t -> 0 <= np < 8 ->
  let t' := store2 (store2 (store2 t 0 np a) 1 np b) 2 np c in
  table_shape t'
  /\ (forall v l, 0 <= v -> 0 <= l -> l <> np -> load2 t' v l = load2 t v l)
  /\ map (fun v => load2 t' (Z.of_nat v) np) (seq 0 (Z.to_nat 3)) = [a; b; c].
Proof.
  intros Hs Hnp t'. subst t'. split; [|split].
  - repeat apply store2_shape. exact Hs.
  - intros v l Hv Hl Hne. rewrite !load2_store2_ne by lia. reflexivity.
  - change (seq 0 (Z.to_nat 3)) with [0%nat; 1%nat; 2%nat].
    cbn [map]. change (Z.of_nat 0) with 0. change (Z.of_nat 1) with 1.
    change (Z.of_nat 2) with 2.
    rewrite (load2_store2_ne _ 2 np c 0 np) by lia.
    rewrite (load2_store2_ne _ 1 np b 0 np) by lia.
    rewrite load2_store2_eq by (try lia; exact Hs).
    rewrite (load2_store2_ne _ 2 np c 1 np) by lia.
    rewrite load2_store2_eq by (try lia; apply store2_shape, Hs).
    rewrite load2_store2_eq by (try lia; repeat apply store2_shape; exact Hs).
    reflexivity.
Qed.

Section Instances.

Variable k : Cut.Knobs.
Variable N : Z.
Hypothesis N_pos : 0 < N.
Hypothesis N_max : N <= 2 ^ 32.

Lemma trilist_step (s : Cut.PA_STATE_CUT) (i : Z) :
  0 <= i -> Cut.pfnPa s = Cut.pfn_ProcessVertTriList ->
  trilist_T N i (Cut.vert s) (Cut.curIndex s) (Cut.reverseWinding s) ->
  table_shape (Cut.indices s) ->
  0 <= Cut.numPrimsAssembled s < 8 ->
  let s' := Cut.call_pfnPa k (i mod N) false s in
  trilist_T N (i + 1) (Cut.vert s') (Cut.curIndex s') (Cut.reverseWinding s')
  /\ Cut.adjExtraVert s' = Cut.adjExtraVert s
  /\ table_shape (Cut.indices s')
  /\ (((i + 1) / 3 = i / 3
       /\ Cut.numPrimsAssembled s' = Cut.numPrimsAssembled s
       /\ Cut.indices s' = Cut.indices s)
      \/ ((i + 1) / 3 = i / 3 + 1
          /\ emits_prim 3 (trilist_P N) s s' (i / 3))).
Proof.
  intros Hi Hpfn (Hlen & Hci & Hv0 & Hv1) Hsh Hnp s'. subst s'.
  unfold emits_prim, trilist_T.
  unfold Cut.call_pfnPa. rewrite Hpfn.
  destruct s; cbn in * |-. subst curIndex.
  cbv beta delta [Cut.ProcessVertTriList]. cut_eval.
  pose proof (Z.mod_pos_bound i 3 ltac:(lia)) as Hm.
  pose proof (Z.div_mod i 3 ltac:(lia)) as Hdm.
  pose proof (Z.div_mod (i + 1) 3 ltac:(lia)) as Hdm1.
  pose proof (Z.mod_pos_bound (i + 1) 3 ltac:(lia)) as Hm1.
  rewrite (u32_small (i mod 3 + 1)) by lia.
  destruct (emit_triangle indices numPrimsAssembled
              (load (store vert (i mod 3) (i mod N)) 0)
              (load (store vert (i mod 3) (i mod N)) 1)
              (load (store vert (i mod 3) (i mod N)) 2) Hsh Hnp)
    as (Hsh' & Hother & Hmap).
  destruct (Z.eqb_spec (i mod 3 + 1) 3) as [E|E]; cbn.
  - (* the third vertex of a triangle *)
    assert (E2 : i mod 3 = 2) by lia. rewrite E2 in *.
    rewrite length_store.
    split; [split; [assumption|split; [lia|split; intros; lia]]|].
    split; [reflexivity|]. split; [exact Hsh'|].
    right. split; [lia|]. split; [apply u32_small; lia|].
    split; [exact Hother|].
    rewrite Hmap. unfold trilist_P.
    rewrite load_store_eq by lia.
    rewrite !load_store_ne by lia.
    rewrite Hv0, Hv1 by lia.
    f_equal; [f_equal; lia|]. f_equal; [f_equal; lia|]. f_equal. f_equal.
    lia.
  - rewrite length_store.
    split.
    { split; [assumption|]. split; [lia|]. split.
      - intros H1.
        destruct (Z.eq_dec (i mod 3) 0) as [E0|E0].
        + rewrite E0. rewrite load_store_eq by lia. f_equal. lia.
        + rewrite load_store_ne by lia. rewrite Hv0 by lia. f_equal. lia.
      - intros H2. assert (E1 : i mod 3 = 1) by lia. rewrite E1.
        rewrite load_store_eq by lia. f_equal. lia. }
    split; [reflexivity|]. split; [exact Hsh|].
    left. split; [lia|]. split; reflexivity.
Qed.


Lemma tristrip_step (s : Cut.PA_STATE_CUT) (i : Z) :
  0 <= i -> Cut.pfnPa s = Cut.pfn_ProcessVertTriStrip ->
  tristrip_T N i (Cut.vert s) (Cut.curIndex s) (Cut.reverseWinding s) ->
  table_shape (Cut.indices s) ->
  0 <= Cut.numPrimsAssembled s < 8 ->
  let s' := Cut.call_pfnPa k (i mod N) false s in
  tristrip_T N (i + 1) (Cut.vert s') (Cut.curIndex s') (Cut.reverseWinding s')
  /\ Cut.adjExtraVert s' = Cut.adjExtraVert s
  /\ table_shape (Cut.indices s')
  /\ ((Z.max 0 (i + 1 - 2) = Z.max 0 (i - 2)
       /\ Cut.numPrimsAssembled s' = Cut.numPrimsAssembled s
       /\ Cut.indices s' = Cut.indices s)
      \/ (Z.max 0 (i + 1 - 2) = Z.max 0 (i - 2) + 1
          /\ emits_prim 3 (tristrip_P N) s s' (Z.max 0 (i - 2)))).
Proof.
  intros Hi Hpfn (Hlen & Hci & Hrw & Hv0 & Hv1) Hsh Hnp s'. subst s'.
  unfold emits_prim, tristrip_T.
  unfold Cut.call_pfnPa. rewrite Hpfn.
  destruct s; cbn in * |-. subst curIndex reverseWinding.
  cbv beta delta [Cut.ProcessVertTriStrip]. cut_eval.
  rewrite (u32_small (Z.min i 2 + 1)) by lia.
  destruct (Z.eqb_spec (Z.min i 2 + 1) 3) as [E|E].
  - (* a triangle is complete *)
    assert (H2 : 2 <= i) by lia.
    rewrite (Z.min_r i 2) in * by lia.
    rewrite (Z.max_r 0 (i - 2)) in * by lia.
    rewrite (Z.max_r 0 (i + 1 - 2)) by lia.
    rewrite (Z.min_r (i + 1) 2) by lia.
    assert (Hodd : negb (Z.odd (i - 2)) = Z.odd (i + 1 - 2)).
    { replace (i + 1 - 2) with (Z.succ (i - 2)) by lia.
      rewrite Z.odd_succ, <- Z.negb_odd. reflexivity. }
    assert (Hw0 : load (store vert 2 (i mod N)) 0 = (i - 2) mod N)
      by (rewrite load_store_ne by lia; apply Hv0; lia).
    assert (Hw1 : load (store vert 2 (i mod N)) 1 = (i - 1) mod N)
      by (rewrite load_store_ne by lia; apply Hv1; lia).
    assert (Hw2 : load (store vert 2 (i mod N)) 2 = i mod N)
      by (apply load_store_eq; lia).
    assert (Hw3 : load (store (store vert 2 (i mod N)) 0 ((i - 1) mod N)) 2
                  = i mod N).
    { rewrite load_store_ne by lia. exact Hw2. }
    assert (HT : length
                   (store (store (store vert 2 (i mod N)) 0 ((i - 1) mod N))
                      1 (i mod N)) = 6%nat
                 /\ 2 = 2
                 /\ negb (Z.odd (i - 2)) = Z.odd (i + 1 - 2)
                 /\ (1 <= i + 1 ->
                     load (store (store (store vert 2 (i mod N)) 0
                                    ((i - 1) mod N)) 1 (i mod N)) 0
                     = (i + 1 - 2) mod N)
                 /\ (2 <= i + 1 ->
                     load (store (store (store vert 2 (i mod N)) 0
                                    ((i - 1) mod N)) 1 (i mod N)) 1
                     = (i + 1 - 1) mod N)).
    { rewrite !length_store. split; [assumption|]. split; [reflexivity|].
      split; [exact Hodd|]. split; intros _.
      - rewrite load_store_ne by lia.
        rewrite load_store_eq by (rewrite length_store; lia). f_equal. lia.
      - rewrite load_store_eq by (rewrite !length_store; lia). f_equal. lia. }
    destruct (Z.odd (i - 2)) eqn:Eodd; cbn;
      rewrite ?Hw0, ?Hw1, ?Hw2, ?Hw3;
      (split; [exact HT|]); (split; [reflexivity|]);
      match goal with
      | |- context [store2 (store2 (store2 indices 0 ?np ?a) 1 ?np ?b) 2 ?np ?c] =>
          destruct (emit_triangle indices np a b c Hsh Hnp)
            as (Hsh' & Hother & Hmap)
      end;
      (split; [exact Hsh'|]);
      right; (split; [lia|]); (split; [apply u32_small; lia|]);
      (split; [exact Hother|]);
      rewrite Hmap; unfold tristrip_P; rewrite Eodd;
      repeat (f_equal; try lia).
  - assert (H2 : i < 2) by lia.
    rewrite (Z.min_l i 2) in * by lia.
    rewrite (Z.max_l 0 (i - 2)) in * by lia.
    rewrite (Z.max_l 0 (i + 1 - 2)) by lia.
    cbn. rewrite length_store.
    split.
    { split; [assumption|]. split; [lia|]. split; [reflexivity|]. split.
      - intros _. destruct (Z.eq_dec i 0) as [->|].
        + rewrite load_store_eq by lia. reflexivity.
        + rewrite load_store_ne by lia. apply Hv0. lia.
      - intros H. assert (i = 1) by lia. subst i.
        rewrite load_store_eq by lia. reflexivity. }
    split; [reflexivity|]. split; [exact Hsh|].
    left. split; [reflexivity|]. split; reflexivity.
Qed.

End Instances.

Lemma prims_from_length (P : Z -> list Z) (q : Z) (cnt : nat) :
  length (prims_from P q cnt) = cnt.
Proof. unfold prims_from. rewrite length_map, length_seq. reflexivity. Qed.

Lemma ctor_table_shape :
  table_shape (repeat (repeat 0 (Z.to_nat KNOB_SIMD_WIDTH))
                 (Z.to_nat MAX_NUM_VERTS_PER_PRIM)).
Proof. split; [reflexivity|]. repeat constructor. Qed.

(** What the constructor of [PA_FACTORY] leaves in the assembler. *)
Lemma PA_FACTORY_paCut_state (k : Cut.Knobs) (gsEnabled : bool)
  (vertexStore : Z -> Z) (numVerts numAttribs : Z)
  (topo : PRIMITIVE_TOPOLOGY) (s0 : Cut.PA_STATE_CUT) :
  Cut.PA_FACTORY_paCut k gsEnabled vertexStore numVerts numAttribs topo
  = Some s0 ->
  Forall (fun m => m = 0) (Cut.pCutIndices s0)
  /\ Cut.numVerts s0 = 48 /\ Cut.adjExtraVert s0 = -1
  /\ Cut.vertsPerPrim s0 = Cut.NumVertsPerPrim topo gsEnabled
  /\ table_shape (Cut.indices s0)
  /\ Cut.numRemainingVerts s0 = s32 numVerts
  /\ Cut.curVertex s0 = 0 /\ length (Cut.vert s0) = 6%nat
  /\ Cut.curIndex s0 = 0 /\ Cut.reverseWinding s0 = false
  /\ Cut.numPrimsAssembled s0 = 0
  /\ Cut.headVertex s0 = 0 /\ Cut.tailVertex s0 = 0.
Proof.
  unfold Cut.PA_FACTORY_paCut, Cut.PA_STATE_CUT_ctor. intros H.
  destruct topo, gsEnabled; inversion H; subst s0; clear H; cbn;
    repeat split; try reflexivity; try (repeat constructor).
Qed.

(** On the ring of the factory a batch of triangles, of a list or of a
    strip, and the batch being fed never fill the store. *)
Lemma trilist_room (n : Z) : draw_room 48 n (fun i => i / 3).
Proof.
  intros t i f Ht Hi Hf H7 Hc _. cbv beta in Hc.
  Z.to_euclidean_division_equations. lia.
Qed.

Lemma tristrip_room (n : Z) : draw_room 48 n (fun i => Z.max 0 (i - 2)).
Proof. intros t i f Ht Hi Hf H7 Hc _. cbv beta in Hc. lia. Qed.

(** C1, as amended.  For the assembler as the factory constructs it, on its
    ring of 48 vertices with no restart bit set, in the caller's loop: a
    triangle list of [3 K] vertices is assembled into exactly [K]
    primitives, primitive [q] gathering the ring slots of the vertices
    [3 q], [3 q + 1], [3 q + 2]; a triangle strip of [n] vertices is
    assembled into [n - 2] primitives (none for fewer than 3 vertices),
    primitive [q] gathering the ring slots of the vertices [q], [q + 1],
    [q + 2], the last two swapped for an odd [q]: the winding alternates and
    starts un-reversed.  The ring slot of a vertex is its number modulo 48,
    the number itself as long as it is below 48. *)
Theorem draw_without_restarts (k : Cut.Knobs) (gsEnabled : bool)
  (vertexStore : Z -> Z) (numAttribs K n : Z) :
  0 <= K -> 3 * K < 2 ^ 31 -> 0 <= n < 2 ^ 31 ->
  let N := MAX_NUM_VERTS_PER_PRIM * KNOB_SIMD_WIDTH in
  (exists s0,
     Cut.PA_FACTORY_paCut k gsEnabled vertexStore (3 * K) numAttribs
       TOP_TRIANGLE_LIST = Some s0
     /\ forall fuel : nat, 3 * K <= Z.of_nat fuel ->
        Cut.draw k fuel [] true s0 = prims_from (trilist_P N) 0 (Z.to_nat K)
        /\ length (Cut.draw k fuel [] true s0) = Z.to_nat K)
  /\ (exists s0,
     Cut.PA_FACTORY_paCut k gsEnabled vertexStore n numAttribs
       TOP_TRIANGLE_STRIP = Some s0
     /\ forall fuel : nat, n <= Z.of_nat fuel ->
        Cut.draw k fuel [] true s0
        = prims_from (tristrip_P N) 0 (Z.to_nat (n - 2))
        /\ length (Cut.draw k fuel [] true s0) = Z.to_nat (n - 2))
  /\ (forall q, 0 <= q -> 3 * q + 2 < N ->
      trilist_P N q = [3 * q; 3 * q + 1; 3 * q + 2])
  /\ (forall q, 0 <= q -> q + 2 < N ->
      tristrip_P N q
      = if Z.odd q then [q; q + 2; q + 1] else [q; q + 1; q + 2]).
Proof.
  intros HK HK31 Hn N.
  change N with 48. clear N.
  split; [|split; [|split]].
  - assert (Hs : exists s0,
              Cut.PA_FACTORY_paCut k gsEnabled vertexStore (3 * K) numAttribs
                TOP_TRIANGLE_LIST = Some s0) by (eexists; reflexivity).
    destruct Hs as [s0 Hs]. exists s0. split; [exact Hs|].
    intros fuel Hfuel.
    destruct (PA_FACTORY_paCut_state _ _ _ _ _ _ _ Hs)
      as (F1 & F2 & F3 & F4 & F5 & F6 & F7 & F8 & F9 & F10 & F11 & F12
          & F13).
    assert (Hpfn : Cut.pfnPa s0 = Cut.pfn_ProcessVertTriList)
      by (inversion Hs; reflexivity).
    assert (Hvpp : Cut.vertsPerPrim s0 = 3)
      by (rewrite F4; destruct gsEnabled; reflexivity).
    clear Hs.
    assert (E : Cut.draw k fuel [] true s0
                = prims_from (trilist_P 48) 0 (Z.to_nat (3 * K / 3))).
    { apply (draw_no_restart k 48 (3 * K) ltac:(lia) ltac:(lia) ltac:(lia)
               Cut.pfn_ProcessVertTriList 3 (fun i => i / 3) (trilist_P 48)
               (trilist_T 48)); try assumption; try lia.
      - reflexivity.
      - intros i Hi. cbv beta. Z.to_euclidean_division_equations. lia.
      - intros s i. apply (trilist_step k 48); lia.
      - apply trilist_room.
      - rewrite F6. apply s32_small. lia.
      - rewrite F9, F10. split; [exact F8|]. split; [reflexivity|].
        change (0 mod 3) with 0. split; lia. }
    replace (3 * K / 3) with K in E
      by (symmetry; rewrite Z.mul_comm; apply Z.div_mul; lia).
    rewrite E. split; [reflexivity|]. apply prims_from_length.
  - assert (Hs : exists s0,
              Cut.PA_FACTORY_paCut k gsEnabled vertexStore n numAttribs
                TOP_TRIANGLE_STRIP = Some s0) by (eexists; reflexivity).
    destruct Hs as [s0 Hs]. exists s0. split; [exact Hs|].
    intros fuel Hfuel.
    destruct (PA_FACTORY_paCut_state _ _ _ _ _ _ _ Hs)
      as (F1 & F2 & F3 & F4 & F5 & F6 & F7 & F8 & F9 & F10 & F11 & F12
          & F13).
    assert (Hpfn : Cut.pfnPa s0 = Cut.pfn_ProcessVertTriStrip)
      by (inversion Hs; reflexivity).
    assert (Hvpp : Cut.vertsPerPrim s0 = 3)
      by (rewrite F4; destruct gsEnabled; reflexivity).
    clear Hs.
    assert (E : Cut.draw k fuel [] true s0
                = prims_from (tristrip_P 48) 0
                    (Z.to_nat (Z.max 0 (n - 2)))).
    { apply (draw_no_restart k 48 n ltac:(lia) ltac:(lia) ltac:(lia)
               Cut.pfn_ProcessVertTriStrip 3 (fun i => Z.max 0 (i - 2))
               (tristrip_P 48) (tristrip_T 48)); try assumption; try lia.
      - intros s i. apply (tristrip_step k 48); lia.
      - apply tristrip_room.
      - rewrite F6. apply s32_small. lia.
      - rewrite F9, F10. split; [exact F8|]. split; [reflexivity|].
        split; [reflexivity|]. split; lia. }
    replace (Z.to_nat (Z.max 0 (n - 2))) with (Z.to_nat (n - 2)) in E by lia.
    rewrite E. split; [reflexivity|]. apply prims_from_length.
  - intros q Hq Hlt. unfold trilist_P. rewrite !Z.mod_small by lia.
    reflexivity.
  - intros q Hq Hlt. unfold tristrip_P. rewrite !Z.mod_small by lia.
    reflexivity.
Qed.

Lemma draw_without_restarts_witness :
  exists s0,
    Cut.PA_FACTORY_paCut knobs0 false (fun a => a) 6 1 TOP_TRIANGLE_LIST
    = Some s0
    /\ Cut.draw knobs0 6 [] true s0 = [[0; 1; 2]; [3; 4; 5]].
Proof.
  destruct (draw_without_restarts knobs0 false (fun a => a) 1 2 6)
    as ((s0 & Hc & Hd) & _); [lia | lia | lia |].
  exists s0. split; [exact Hc|].
  destruct (Hd 6%nat) as [E _]; [lia|]. rewrite E. reflexivity.
Defined.

(** C1, as stated, fails for strips: the 6 vertices of [2] times the 3
    vertices of a triangle make a strip of 4 triangles, not 2, and the
    second is [(1, 3, 2)].  It fails for long lists as well: the gather
    indices are slots of the ring of 48 vertices, so that triangle 16 of a
    list gathers at [(0, 1, 2)], not at [(48, 49, 50)]; and a vertex count
    of [2^31] or more is kept as a negative [int32_t], with which there is
    no work and nothing is assembled. *)
Lemma draw_tristrip_six_vertices :
  (exists s0,
     Cut.PA_FACTORY_paCut knobs0 false (fun a => a)
       (Cut.NumVertsPerPrim TOP_TRIANGLE_STRIP false * 2) 1 TOP_TRIANGLE_STRIP
     = Some s0
     /\ Cut.draw knobs0 6 [] true s0
        = [[0; 1; 2]; [1; 3; 2]; [2; 3; 4]; [3; 5; 4]]
     /\ length (Cut.draw knobs0 6 [] true s0) <> 2%nat)
  /\ (exists s0,
     Cut.PA_FACTORY_paCut knobs0 false (fun a => a)
       (Cut.NumVertsPerPrim TOP_TRIANGLE_LIST false * 17) 1 TOP_TRIANGLE_LIST
     = Some s0
     /\ length (Cut.draw knobs0 51 [] true s0) = 17%nat
     /\ nth 16 (Cut.draw knobs0 51 [] true s0) [] = [0; 1; 2])
  /\ (exists s0,
     Cut.PA_FACTORY_paCut knobs0 false (fun a => a)
       (Cut.NumVertsPerPrim TOP_TRIANGLE_LIST false * 2 ^ 30) 1
       TOP_TRIANGLE_LIST
     = Some s0
     /\ Cut.HasWork s0 = false
     /\ Cut.draw knobs0 51 [] true s0 = []).
Proof.
  split; [|split].
  - eexists. split; [vm_compute; reflexivity|].
    split; [vm_compute; reflexivity|]. vm_compute. discriminate.
  - eexists. split; [vm_compute; reflexivity|].
    split; vm_compute; reflexivity.
  - eexists. split; [vm_compute; reflexivity|].
    split; vm_compute; reflexivity.
Qed.
(** ** Lane swizzles *)

(** The float of lane [lane] of each component of a vector, as an
    [__m128]. *)
Lemma swizzleLaneN_in_range (a : simdvector) (lane : Z) :
  0 <= lane < 8 ->
  swizzleLaneN a lane
  = map (fun c => nth (Z.to_nat lane) (nth c a []) 0) [0; 1; 2; 3]%nat.
Proof.
  intros H.
  assert (E : lane = 0 \/ lane = 1 \/ lane = 2 \/ lane = 3 \/ lane = 4
              \/ lane = 5 \/ lane = 6 \/ lane = 7) by lia.
  destruct E as [->|[->|[->|[->|[->|[->|[->| ->]]]]]]]; reflexivity.
Qed.

Lemma swizzleLaneN_out_of_range (a : simdvector) (lane : Z) :
  ~ 0 <= lane < 8 -> swizzleLaneN a lane = [0; 0; 0; 0].
Proof.
  intros H. unfold swizzleLaneN.
  destruct lane as [|p|p]; [lia | | reflexivity].
  destruct p as [[[p|p|]|[p|p|]|]|[[p|p|]|[p|p|]|]|]; try reflexivity; lia.
Qed.

(** [swizzleLaneN] transposes: for a lane of the vector it returns that
    lane's [x], [y], [z] and [w], in this order; for any other lane number
    it returns four zeros. *)
Theorem swizzleLaneN_transposes (a : simdvector) (lane : Z) :
  swizzleLaneN a lane
  = if (0 <=? lane) && (lane <? KNOB_SIMD_WIDTH)
    then [nth (Z.to_nat lane) (simdvector_x a) 0;
          nth (Z.to_nat lane) (simdvector_y a) 0;
          nth (Z.to_nat lane) (simdvector_z a) 0;
          nth (Z.to_nat lane) (simdvector_w a) 0]
    else _mm_setzero_ps.
Proof.
  unfold KNOB_SIMD_WIDTH.
  destruct (Z.leb_spec 0 lane); destruct (Z.ltb_spec lane 8); cbn [andb];
    try (apply swizzleLaneN_out_of_range; lia).
  rewrite swizzleLaneN_in_range by lia. reflexivity.
Qed.

(** *** The tables are indexed in range *)

Lemma vert_set_vert (x : list Z) (s : Cut.PA_STATE_CUT) :
  Cut.vert (Cut.set_vert x s) = x.
Proof. reflexivity. Qed.

Lemma indices_set_vert (x : list Z) (s : Cut.PA_STATE_CUT) :
  Cut.indices (Cut.set_vert x s) = Cut.indices s.
Proof. reflexivity. Qed.

Lemma numPrimsAssembled_set_vert (x : list Z) (s : Cut.PA_STATE_CUT) :
  Cut.numPrimsAssembled (Cut.set_vert x s) = Cut.numPrimsAssembled s.
Proof. reflexivity. Qed.

Lemma curIndex_set_vert (x : list Z) (s : Cut.PA_STATE_CUT) :
  Cut.curIndex (Cut.set_vert x s) = Cut.curIndex s.
Proof. reflexivity. Qed.

Lemma vert_set_indices (x : list (list Z)) (s : Cut.PA_STATE_CUT) :
  Cut.vert (Cut.set_indices x s) = Cut.vert s.
Proof. reflexivity. Qed.

Lemma indices_set_indices (x : list (list Z)) (s : Cut.PA_STATE_CUT) :
  Cut.indices (Cut.set_indices x s) = x.
Proof. reflexivity. Qed.

Lemma numPrimsAssembled_set_indices (x : list (list Z)) (s : Cut.PA_STATE_CUT) :
  Cut.numPrimsAssembled (Cut.set_indices x s) = Cut.numPrimsAssembled s.
Proof. reflexivity. Qed.

Lemma curIndex_set_indices (x : list (list Z)) (s : Cut.PA_STATE_CUT) :
  Cut.curIndex (Cut.set_indices x s) = Cut.curIndex s.
Proof. reflexivity. Qed.

Lemma vert_set_numPrimsAssembled (x : Z) (s : Cut.PA_STATE_CUT) :
  Cut.vert (Cut.set_numPrimsAssembled x s) = Cut.vert s.
Proof. reflexivity. Qed.

Lemma indices_set_numPrimsAssembled (x : Z) (s : Cut.PA_STATE_CUT) :
  Cut.indices (Cut.set_numPrimsAssembled x s) = Cut.indices s.
Proof. reflexivity. Qed.

Lemma numPrimsAssembled_set_numPrimsAssembled (x : Z) (s : Cut.PA_STATE_CUT) :
  Cut.numPrimsAssembled (Cut.set_numPrimsAssembled x s) = x.
Proof. reflexivity. Qed.

Lemma curIndex_set_numPrimsAssembled (x : Z) (s : Cut.PA_STATE_CUT) :
  Cut.curIndex (Cut.set_numPrimsAssembled x s) = Cut.curIndex s.
Proof. reflexivity. Qed.

Lemma vert_set_curIndex (x : Z) (s : Cut.PA_STATE_CUT) :
  Cut.vert (Cut.set_curIndex x s) = Cut.vert s.
Proof. reflexivity. Qed.

Lemma indices_set_curIndex (x : Z) (s : Cut.PA_STATE_CUT) :
  Cut.indices (Cut.set_curIndex x s) = Cut.indices s.
Proof. reflexivity. Qed.

Lemma numPrimsAssembled_set_curIndex (x : Z) (s : Cut.PA_STATE_CUT) :
  Cut.numPrimsAssembled (Cut.set_curIndex x s) = Cut.numPrimsAssembled s.
Proof. reflexivity. Qed.

Lemma curIndex_set_curIndex (x : Z) (s : Cut.PA_STATE_CUT) :
  Cut.curIndex (Cut.set_curIndex x s) = x.
Proof. reflexivity. Qed.

Lemma vert_set_reverseWinding (x : bool) (s : Cut.PA_STATE_CUT) :
  Cut.vert (Cut.set_reverseWinding x s) = Cut.vert s.
Proof. reflexivity. Qed.

Lemma indices_set_reverseWinding (x : bool) (s : Cut.PA_STATE_CUT) :
  Cut.indices (Cut.set_reverseWinding x s) = Cut.indices s.
Proof. reflexivity. Qed.

Lemma numPrimsAssembled_set_reverseWinding (x : bool) (s : Cut.PA_STATE_CUT) :
  Cut.numPrimsAssembled (Cut.set_reverseWinding x s) = Cut.numPrimsAssembled s.
Proof. reflexivity. Qed.

Lemma curIndex_set_reverseWinding (x : bool) (s : Cut.PA_STATE_CUT) :
  Cut.curIndex (Cut.set_reverseWinding x s) = Cut.curIndex s.
Proof. reflexivity. Qed.

Lemma vert_set_adjExtraVert (x : Z) (s : Cut.PA_STATE_CUT) :
  Cut.vert (Cut.set_adjExtraVert x s) = Cut.vert s.
Proof. reflexivity. Qed.

Lemma indices_set_adjExtraVert (x : Z) (s : Cut.PA_STATE_CUT) :
  Cut.indices (Cut.set_adjExtraVert x s) = Cut.indices s.
Proof. reflexivity. Qed.

Lemma numPrimsAssembled_set_adjExtraVert (x : Z) (s : Cut.PA_STATE_CUT) :
  Cut.numPrimsAssembled (Cut.set_adjExtraVert x s) = Cut.numPrimsAssembled s.
Proof. reflexivity. Qed.

Lemma curIndex_set_adjExtraVert (x : Z) (s : Cut.PA_STATE_CUT) :
  Cut.curIndex (Cut.set_adjExtraVert x s) = Cut.curIndex s.
Proof. reflexivity. Qed.

(** Reads a member through the updates of the window, the gather table
    and the batch counter. *)
Ltac cut_window :=
  repeat progress rewrite ?vert_set_vert,
    ?indices_set_vert,
    ?numPrimsAssembled_set_vert,
    ?curIndex_set_vert,
    ?vert_set_indices,
    ?indices_set_indices,
    ?numPrimsAssembled_set_indices,
    ?curIndex_set_indices,
    ?vert_set_numPrimsAssembled,
    ?indices_set_numPrimsAssembled,
    ?numPrimsAssembled_set_numPrimsAssembled,
    ?curIndex_set_numPrimsAssembled,
    ?vert_set_curIndex,
    ?indices_set_curIndex,
    ?numPrimsAssembled_set_curIndex,
    ?curIndex_set_curIndex,
    ?vert_set_reverseWinding,
    ?indices_set_reverseWinding,
    ?numPrimsAssembled_set_reverseWinding,
    ?curIndex_set_reverseWinding,
    ?vert_set_adjExtraVert,
    ?indices_set_adjExtraVert,
    ?numPrimsAssembled_set_adjExtraVert,
    ?curIndex_set_adjExtraVert.

Section CutBounds.

Variable k : Cut.Knobs.
Implicit Types s : Cut.PA_STATE_CUT.

Lemma AssembleTriStripAdj_window (gsEnabled : bool) s :
  let s' := Cut.AssembleTriStripAdj gsEnabled s in
  length (Cut.vert s') = length (Cut.vert s)
  /\ (table_shape (Cut.indices s) -> table_shape (Cut.indices s'))
  /\ Cut.numPrimsAssembled s' = u32 (Cut.numPrimsAssembled s + 1)
  /\ Cut.curIndex s' = Cut.curIndex s.
Proof.
  cbv zeta. unfold Cut.AssembleTriStripAdj.
  destruct gsEnabled; cbn [negb]; cbv iota zeta;
    cbn [Cut.vert Cut.set_vert Cut.set_indices Cut.set_numPrimsAssembled
         Cut.indices Cut.numPrimsAssembled Cut.curIndex];
    rewrite ?length_store;
    (split; [reflexivity|]);
    (split; [intros H; repeat apply store2_shape; exact H|]);
    split; reflexivity.
Qed.

Lemma copy_nextTri_window s :
  let s' := Cut.copy_nextTri k s in
  length (Cut.vert s') = length (Cut.vert s)
  /\ Cut.indices s' = Cut.indices s
  /\ Cut.numPrimsAssembled s' = Cut.numPrimsAssembled s
  /\ Cut.curIndex s' = Cut.curIndex s.
Proof.
  cbv zeta. unfold Cut.copy_nextTri. cbv zeta.
  generalize (Cut.nextTri k s). intros t.
  cbn [for_]. cut_window.
  rewrite !length_store. repeat split.
Qed.

(** What the function of triangle strips with adjacency does to the window,
    the gather table and the batch counter. *)
Lemma ProcessVertTriStripAdj_window (gsEnabled : bool) (index : Z)
  (finish : bool) s :
  let s' := Cut.ProcessVertTriStripAdj k gsEnabled index finish s in
  length (Cut.vert s') = length (Cut.vert s)
  /\ (table_shape (Cut.indices s) -> table_shape (Cut.indices s'))
  /\ (Cut.numPrimsAssembled s' = Cut.numPrimsAssembled s
      \/ Cut.numPrimsAssembled s' = u32 (Cut.numPrimsAssembled s + 1)).
Proof.
  cbv zeta. unfold Cut.ProcessVertTriStripAdj.
  destruct (finish && _).
  - cbv zeta.
    destruct (AssembleTriStripAdj_window gsEnabled
                (Cut.set_vert (store (Cut.vert s) 3 (u32 (Cut.adjExtraVert s))) s))
      as (H1 & H2 & H3 & _).
    cbv zeta in H1, H2, H3.
    cut_window. rewrite H1, H3. cut_window. rewrite length_store.
    split; [reflexivity|].
    split; [intros Hs; apply H2; cut_window; exact Hs|]. right. reflexivity.
  - apply (curIndex_cases (fun s' =>
      length (Cut.vert s') = length (Cut.vert s)
      /\ (table_shape (Cut.indices s) -> table_shape (Cut.indices s'))
      /\ (Cut.numPrimsAssembled s' = Cut.numPrimsAssembled s
          \/ Cut.numPrimsAssembled s' = u32 (Cut.numPrimsAssembled s + 1)))).
    + cbv zeta. cut_window. rewrite length_store. auto.
    + cbv zeta. cut_window. rewrite length_store. auto.
    + destruct (Cut.adjExtraVert s =? -1);
        [cut_window; auto|]. cbv zeta.
      destruct (negb gsEnabled);
        [|cut_window; rewrite length_store; auto].
      destruct (AssembleTriStripAdj_window gsEnabled
                  (Cut.set_vert (store (Cut.vert s) 3 index) s))
        as (H1 & H2 & H3 & _).
      destruct (copy_nextTri_window
                  (Cut.AssembleTriStripAdj gsEnabled
                     (Cut.set_vert (store (Cut.vert s) 3 index) s)))
        as (G1 & G2 & G3 & _).
      cbv zeta in *.
      cut_window. rewrite G1, G2, G3, H1, H3. cut_window.
      rewrite length_store.
      split; [reflexivity|].
      split; [intros Hs; apply H2; cut_window; exact Hs|]. right. reflexivity.
    + cbv zeta.
      destruct (AssembleTriStripAdj_window gsEnabled s) as (H1 & H2 & H3 & _).
      destruct (copy_nextTri_window (Cut.AssembleTriStripAdj gsEnabled s))
        as (G1 & G2 & G3 & _).
      cbv zeta in *.
      cut_window.
      rewrite G1, G2, G3, H1, H3.
      split; [reflexivity|]. split; [exact H2|]. right. reflexivity.
    + auto.
Qed.

Lemma ProcessVertTriStripAdj_curIndex (gsEnabled : bool) (index : Z)
  (finish : bool) s :
  0 <= Cut.curIndex s < (if gsEnabled then 7 else 6) ->
  0 <= Cut.curIndex (Cut.ProcessVertTriStripAdj k gsEnabled index finish s)
    < (if gsEnabled then 7 else 6).
Proof.
  intros H. unfold Cut.ProcessVertTriStripAdj.
  destruct (finish && _).
  - cbv zeta. cut_window.
    destruct (AssembleTriStripAdj_window gsEnabled
                (Cut.set_vert (store (Cut.vert s) 3 (u32 (Cut.adjExtraVert s))) s))
      as (_ & _ & _ & H4).
    cbv zeta in H4. rewrite H4. cut_window. exact H.
  - assert (Hci : Cut.curIndex s = 0 \/ Cut.curIndex s = 1 \/ Cut.curIndex s = 2
                  \/ Cut.curIndex s = 3 \/ Cut.curIndex s = 4
                  \/ Cut.curIndex s = 5
                  \/ (Cut.curIndex s = 6 /\ gsEnabled = true))
      by (destruct gsEnabled; lia).
    destruct Hci as [E|[E|[E|[E|[E|[E|[E Hgs]]]]]]]; rewrite E; cbv iota zeta.
    1-5: cut_window; rewrite E;
         rewrite u32_small by lia; destruct gsEnabled; lia.
    + destruct (Cut.adjExtraVert s =? -1);
        [cut_window; rewrite E; destruct gsEnabled; lia|].
      destruct gsEnabled; cbn [negb]; cbv iota.
      * cut_window. rewrite E.
        rewrite u32_small by lia. lia.
      * destruct (AssembleTriStripAdj_window false
                    (Cut.set_vert (store (Cut.vert s) 3 index) s))
          as (_ & _ & _ & H4).
        destruct (copy_nextTri_window
                    (Cut.AssembleTriStripAdj false
                       (Cut.set_vert (store (Cut.vert s) 3 index) s)))
          as (_ & _ & _ & G4).
        cbv zeta in *.
        cut_window.
        rewrite G4, H4. cut_window. rewrite E. lia.
    + subst gsEnabled.
      destruct (AssembleTriStripAdj_window true s) as (_ & _ & _ & H4).
      destruct (copy_nextTri_window (Cut.AssembleTriStripAdj true s))
        as (_ & _ & _ & G4).
      cbv zeta in *.
      cut_window.
      rewrite G4, H4, E. rewrite u32_small by lia. lia.
Qed.
(** A per-topology function called on a batch that is not full keeps the
    bounds, and assembles at most one primitive. *)
Lemma call_pfnPa_bounds (index : Z) (finish : bool) s :
  cut_bounds s -> Cut.numPrimsAssembled s < 8 ->
  let s' := Cut.call_pfnPa k index finish s in
  cut_bounds s'
  /\ Cut.numPrimsAssembled s <= Cut.numPrimsAssembled s'
     <= Cut.numPrimsAssembled s + 1.
Proof.
  intros B Hnp s'. subst s'.
  unfold Cut.call_pfnPa.
  destruct (Cut.pfnPa s) as [| | | |gsEnabled| | | | | | |] eqn:Hpfn.
  5: { pose proof (ProcessVertTriStripAdj_frame k gsEnabled index finish s)
         as Fr.
       destruct (ProcessVertTriStripAdj_window gsEnabled index finish s)
         as (Hv & Hi & Hn).
       destruct B as [Bv Bi Bo Bn Bc BN Bcv Bt Bp].
       rewrite Hpfn in Bc. cbn [curIndex_bound] in *.
       pose proof (ProcessVertTriStripAdj_curIndex gsEnabled index finish s
                     Bc) as Hc.
       cbv zeta in Hv, Hi, Hn.
       rewrite (u32_small (Cut.numPrimsAssembled s + 1)) in Hn by lia.
       split; [|lia].
       constructor; rewrite ?(fr_vOffsets _ _ Fr), ?(fr_numVerts _ _ Fr),
         ?(fr_vertsPerPrim _ _ Fr),
         ?(fr_curVertex _ _ Fr), ?(fr_tailVertex _ _ Fr), ?(fr_pfnPa _ _ Fr),
         ?Hpfn; cbn [curIndex_bound]; auto; try lia. }
  all: destruct s; destruct B as [Bv Bi Bo Bn Bc BN Bcv Bt Bp]; cbn in * |-;
    subst pfnPa;
    cbn [curIndex_bound] in *.
  all: (cbv beta delta [Cut.ProcessVertTriList Cut.ProcessVertTriListAdj
    Cut.ProcessVertTriListAdjNoGs Cut.ProcessVertTriStrip
    Cut.ProcessVertPointList Cut.ProcessVertLineList
    Cut.ProcessVertLineListAdj Cut.ProcessVertLineListAdjNoGs
    Cut.ProcessVertLineStrip Cut.ProcessVertLineStripAdj
    Cut.ProcessVertLineStripAdjNoGs]; cut_eval;
    rewrite (u32_small (curIndex + 1)) by lia;
    match goal with
    | |- context [if ?a =? ?b then _ else _] =>
        destruct (Z.eqb_spec a b)
    end;
    try (destruct reverseWinding);
    cut_eval;
    rewrite ?(u32_small (numPrimsAssembled + 1)) by lia;
    (split; [constructor; cut_eval; cbn [curIndex_bound];
             rewrite ?length_store; repeat apply store2_shape;
             try assumption; try lia
            | lia])).
Qed.

Lemma RestartTopology_bounds s :
  cut_bounds s -> cut_bounds (Cut.RestartTopology s).
Proof.
  intros []. constructor; cbn; try assumption.
  destruct (Cut.pfnPa s) as [| | | |[|]| | | | | | |]; cbn; lia.
Qed.

(** With cut vertices not processed, one vertex of the loop assembles at
    most one primitive. *)
Lemma ProcessVerts_vertex_bounds s :
  cut_bounds s -> Cut.numPrimsAssembled s < 8 ->
  Cut.processCutVerts s = false ->
  let s' := Cut.ProcessVerts_vertex k s in
  cut_bounds s'
  /\ Cut.numPrimsAssembled s <= Cut.numPrimsAssembled s'
     <= Cut.numPrimsAssembled s + 1.
Proof.
  intros B Hnp Hpcv. cbv zeta. unfold Cut.ProcessVerts_vertex.
  destruct (Cut.IsCutIndex _ s); [|apply call_pfnPa_bounds; assumption].
  rewrite Hpcv. cbv zeta.
  destruct (negb (Cut.adjExtraVert s =? -1)).
  - destruct (call_pfnPa_bounds (Cut.curVertex s) true s B Hnp) as [B' Hn].
    split; [apply RestartTopology_bounds, B'|exact Hn].
  - split; [apply RestartTopology_bounds, B|cbn; lia].
Qed.

Lemma ProcessVerts_body_bounds s :
  cut_bounds s -> Cut.processCutVerts s = false ->
  Cut.ProcessVerts_cond s = true ->
  cut_bounds (Cut.ProcessVerts_body k s)
  /\ Cut.processCutVerts (Cut.ProcessVerts_body k s) = false.
Proof.
  intros B Hpcv Hc. apply ProcessVerts_cond_true in Hc as (Hnp & _ & _).
  unfold KNOB_SIMD_WIDTH in Hnp.
  destruct (ProcessVerts_vertex_bounds s B) as [B' Hn];
    [destruct B; lia | exact Hpcv |].
  pose proof (ProcessVerts_vertex_frame k s) as Fr.
  unfold Cut.ProcessVerts_body. cbv zeta.
  set (s1 := Cut.ProcessVerts_vertex k s) in *.
  split; [|cbn; rewrite (fr_processCutVerts _ _ Fr); exact Hpcv].
  destruct B'. destruct B. constructor; cbn; try assumption; try lia.
  apply Z.mod_pos_bound. assumption.
Qed.

Lemma ProcessVerts_loop_bounds (fuel : nat) s :
  cut_bounds s -> Cut.processCutVerts s = false ->
  cut_bounds (Cut.ProcessVerts_loop k fuel s)
  /\ Cut.processCutVerts (Cut.ProcessVerts_loop k fuel s) = false.
Proof.
  revert s. induction fuel as [|fuel IH]; intros s B Hpcv; simpl; [auto|].
  destruct (Cut.ProcessVerts_cond s) eqn:Hc; [|auto].
  destruct (ProcessVerts_body_bounds s B Hpcv Hc). apply IH; assumption.
Qed.

Lemma ProcessVerts_bounds s :
  cut_bounds s -> Cut.processCutVerts s = false ->
  cut_bounds (Cut.ProcessVerts k s)
  /\ Cut.processCutVerts (Cut.ProcessVerts k s) = false.
Proof.
  intros B Hpcv. unfold Cut.ProcessVerts. cbv zeta.
  destruct (ProcessVerts_loop_bounds (Z.to_nat (Cut.numRemainingVerts s)) s B Hpcv)
    as [B1 H1].
  set (s1 := Cut.ProcessVerts_loop k _ s) in *.
  destruct (Cut.ProcessVerts_last_cond s1) eqn:Hl; [|auto].
  unfold Cut.ProcessVerts_last_cond, KNOB_SIMD_WIDTH in Hl.
  apply andb_true_iff in Hl as [Hl _]. apply andb_true_iff in Hl as [Hl _].
  apply negb_true_iff, Z.eqb_neq in Hl.
  destruct (call_pfnPa_bounds (Cut.curVertex s1) true s1 B1) as [B2 _];
    [destruct B1; lia|].
  split; [exact B2|].
  rewrite (fr_processCutVerts _ _ (call_pfnPa_frame k _ _ _)). exact H1.
Qed.

Lemma insert_twice_nth {A : Type} (d : A) (f : A -> A) (a : A) (l : list A)
  (v : nat) :
  <[v := f (nth v (<[v := a]> l) d)]> (<[v := a]> l) = <[v := f a]> l.
Proof.
  destruct (Nat.lt_ge_cases v (length l)).
  - rewrite nth_insert_eq by assumption. apply list_insert_insert_eq.
  - rewrite !list_insert_ge by (rewrite ?list_insert_ge by lia; lia).
    reflexivity.
Qed.

(** [ComputeOffsets] writes row [v] of [vOffsets] from row [v] of the gather
    table, for every vertex of the primitive. *)
Lemma ComputeOffsets_rows s :
  Cut.ComputeOffsets k s
  = Cut.set_vOffsets
      (for_ (Z.to_nat (Cut.vertsPerPrim s))
         (update_entry [] (fun v _ => offsets_row k (nth v (Cut.indices s) [])))
         (Cut.vOffsets s)) s.
Proof.
  unfold Cut.ComputeOffsets.
  generalize (Z.to_nat (Cut.vertsPerPrim s)). intros n.
  induction n as [|n IH].
  - destruct s; reflexivity.
  - cbn [for_]. rewrite IH. cbv zeta.
    generalize (for_ n
                  (update_entry []
                     (fun v _ => offsets_row k (nth v (Cut.indices s) [])))
                  (Cut.vOffsets s)).
    intros vo. rewrite !set_vOffsets_twice.
    change (Cut.indices (Cut.set_vOffsets vo s)) with (Cut.indices s).
    unfold update_entry. f_equal.
    apply (insert_twice_nth []
             (fun a => _simd_add_epi32 a
                (_simd_mullo_epi32
                   (_simd_and_si (map s32 (nth n (Cut.indices s) []))
                      (_simd_set1_epi32 7))
                   (_simd_set1_epi32 Cut.sizeof_float)))).
Qed.

Lemma offsets_cached_bounds s :
  cut_bounds s -> cut_bounds (offsets_cached k s).
Proof.
  intros B. unfold offsets_cached. destruct (Cut.needOffsets s); [|exact B].
  rewrite ComputeOffsets_rows. destruct B. constructor; cbn; try assumption.
  rewrite for_update_length. assumption.
Qed.

Lemma run_op_bounds (o : Cut.op) s :
  cut_bounds s -> Cut.processCutVerts s = false ->
  cut_bounds (Cut.run_op k o s)
  /\ Cut.processCutVerts (Cut.run_op k o s) = false.
Proof.
  intros B Hpcv. destruct o; unfold Cut.run_op.
  - split; [|exact Hpcv]. destruct B. constructor; cbn; assumption.
  - split; [|exact Hpcv]. destruct B. constructor; cbn; assumption.
  - rewrite Assemble_unfold. cbv zeta.
    destruct (ProcessVerts_bounds s B Hpcv) as [B1 H1].
    destruct (negb _ && _); cbn [snd]; [auto|].
    split; [apply offsets_cached_bounds, B1|].
    destruct (offsets_cached_writes k (Cut.ProcessVerts k s))
      as (vo & b & -> & _). exact H1.
  - unfold Cut.NextPrim. cbn [snd]. destruct (_ || _); [|auto].
    split; [|exact Hpcv]. destruct B. constructor; cbn; try assumption; lia.
  - split; [|exact Hpcv]. destruct B. constructor; cbn; try assumption; lia.
Qed.

Lemma run_ops_bounds (ops : list Cut.op) s :
  cut_bounds s -> Cut.processCutVerts s = false ->
  cut_bounds (Cut.run_ops k ops s).
Proof.
  revert s. induction ops as [|o ops IH]; intros s B Hpcv; [exact B|].
  destruct (run_op_bounds o s B Hpcv).
  apply (IH (Cut.run_op k o s)); assumption.
Qed.

Lemma ProcessVerts_loop_numVerts (fuel : nat) s :
  Cut.numVerts (Cut.ProcessVerts_loop k fuel s) = Cut.numVerts s.
Proof.
  revert s. induction fuel as [|fuel IH]; intros s; simpl; [reflexivity|].
  destruct (Cut.ProcessVerts_cond s); [|reflexivity].
  rewrite IH. unfold Cut.ProcessVerts_body. cbn.
  apply (fr_numVerts _ _ (ProcessVerts_vertex_frame k s)).
Qed.

Lemma ProcessVerts_numVerts s :
  Cut.numVerts (Cut.ProcessVerts k s) = Cut.numVerts s.
Proof.
  unfold Cut.ProcessVerts. cbv zeta.
  destruct (Cut.ProcessVerts_last_cond _).
  - rewrite (fr_numVerts _ _ (call_pfnPa_frame k _ _ _)).
    apply ProcessVerts_loop_numVerts.
  - apply ProcessVerts_loop_numVerts.
Qed.

Lemma run_ops_numVerts (ops : list Cut.op) s :
  Cut.numVerts (Cut.run_ops k ops s) = Cut.numVerts s.
Proof.
  revert s. induction ops as [|o ops IH]; intros s; [reflexivity|].
  change (Cut.run_ops k (o :: ops) s)
    with (Cut.run_ops k ops (Cut.run_op k o s)).
  rewrite IH. destruct o; unfold Cut.run_op; try reflexivity.
  - rewrite Assemble_unfold. cbv zeta.
    destruct (negb _ && _); cbn [snd]; [apply ProcessVerts_numVerts|].
    destruct (offsets_cached_writes k (Cut.ProcessVerts k s))
      as (vo & b & -> & _).
    apply ProcessVerts_numVerts.
  - unfold Cut.NextPrim. cbn [snd]. destruct (_ || _); reflexivity.
Qed.

Lemma ctor_bounds (gsEnabled : bool) (in_pStream : Z -> Z)
  (in_streamSizeInVerts : Z) (in_pIndices : list Z)
  (in_numVerts in_numAttribs : Z) (topo : PRIMITIVE_TOPOLOGY)
  (in_processCutVerts : bool) s :
  0 < in_streamSizeInVerts ->
  Cut.PA_STATE_CUT_ctor k gsEnabled in_pStream in_streamSizeInVerts
    in_pIndices in_numVerts in_numAttribs topo in_processCutVerts = Some s ->
  cut_bounds s /\ Cut.processCutVerts s = in_processCutVerts
  /\ Cut.numVerts s = in_streamSizeInVerts.
Proof.
  unfold Cut.PA_STATE_CUT_ctor. intros HN H.
  destruct topo, gsEnabled; inversion H; subst s; clear H;
    (split; [constructor; cbn; try reflexivity; try lia; apply ctor_table_shape
            | split; reflexivity]).
Qed.

(** From the construction on, with cut vertices not processed (as the
    factory constructs the assembler), whatever the caller does: the batch
    never holds more than [KNOB_SIMD_WIDTH] primitives, so that
    [NumPrims()] is a lane count and every primitive goes to a column of
    the gather table; [curIndex] stays within the window [vert], and reaches
    its size only between the two steps that a triangle strip with adjacency
    takes for a geometry stage; [curVertex] and [tailVertex] stay inside the
    ring; the tables keep their sizes. *)
Theorem cut_tables_indexed_in_range (gsEnabled : bool) (in_pStream : Z -> Z)
  (in_streamSizeInVerts : Z) (in_pIndices : list Z)
  (in_numVerts in_numAttribs : Z) (topo : PRIMITIVE_TOPOLOGY)
  (s0 : Cut.PA_STATE_CUT) (ops : list Cut.op) :
  0 < in_streamSizeInVerts ->
  Cut.PA_STATE_CUT_ctor k gsEnabled in_pStream in_streamSizeInVerts
    in_pIndices in_numVerts in_numAttribs topo false = Some s0 ->
  let s := Cut.run_ops k ops s0 in
  0 <= Cut.NumPrims s <= KNOB_SIMD_WIDTH
  /\ 0 <= Cut.curIndex s <= MAX_NUM_VERTS_PER_PRIM
  /\ (Cut.curIndex s = MAX_NUM_VERTS_PER_PRIM ->
      Cut.pfnPa s = Cut.pfn_ProcessVertTriStripAdj true)
  /\ 0 <= Cut.curVertex s < in_streamSizeInVerts
  /\ 0 <= Cut.tailVertex s < in_streamSizeInVerts
  /\ length (Cut.vert s) = Z.to_nat MAX_NUM_VERTS_PER_PRIM
  /\ length (Cut.indices s) = Z.to_nat MAX_NUM_VERTS_PER_PRIM
  /\ Forall (fun row => length row = Z.to_nat KNOB_SIMD_WIDTH) (Cut.indices s)
  /\ length (Cut.vOffsets s) = Z.to_nat MAX_NUM_VERTS_PER_PRIM.
Proof.
  intros HN Hctor s.
  destruct (ctor_bounds _ _ _ _ _ _ _ _ _ HN Hctor) as (B0 & Hpcv & HNv).
  pose proof (run_ops_bounds ops s0 B0 Hpcv) as B. fold s in B.
  assert (Hnv : Cut.numVerts s = in_streamSizeInVerts)
    by (subst s; rewrite run_ops_numVerts; exact HNv).
  destruct B as [Bv [Hlen Hrows] Bo Bn Bc BN Bcv Bt Bp]. rewrite Hnv in *.
  unfold Cut.NumPrims, KNOB_SIMD_WIDTH, MAX_NUM_VERTS_PER_PRIM.
  assert (Hci : 0 <= Cut.curIndex s <= 6
                /\ (Cut.curIndex s = 6 ->
                    Cut.pfnPa s = Cut.pfn_ProcessVertTriStripAdj true)).
  { destruct (Cut.pfnPa s) as [| | | |[|]| | | | | | |];
      cbn [curIndex_bound] in Bc; split; try lia; try reflexivity;
      intros; lia. }
  destruct Hci. repeat split; try assumption; try lia.
Qed.

End CutBounds.

Lemma cut_tables_indexed_in_range_witness :
  exists s0,
    Cut.PA_FACTORY_paCut knobs0 true (fun a => a) 12 1 TOP_TRI_STRIP_ADJ
    = Some s0
    /\ (let s := Cut.run_ops knobs0
                   [Cut.op_feed 0 (fun a => a); Cut.op_feed 0 (fun a => a);
                    Cut.op_Assemble 0 Cut.prim_array] s0 in
        0 <= Cut.NumPrims s <= KNOB_SIMD_WIDTH
        /\ 0 <= Cut.curIndex s <= MAX_NUM_VERTS_PER_PRIM).
Proof.
  eexists. split; [vm_compute; reflexivity|].
  match goal with
  | |- let s := Cut.run_ops _ ?ops ?s0 in _ =>
      destruct (cut_tables_indexed_in_range knobs0 true (fun a => a)
                  (MAX_NUM_VERTS_PER_PRIM * KNOB_SIMD_WIDTH)
                  (repeat 0 (Z.to_nat MAX_NUM_VERTS_PER_PRIM)) 12 1
                  TOP_TRI_STRIP_ADJ s0 ops)
        as (H1 & H2 & _); [vm_compute; reflexivity | vm_compute; reflexivity |]
  end.
  split; [exact H1 | exact H2].
Defined.
(** *** What [Assemble] and [AssembleSingle] read *)

Lemma offsets_row_lane (k : Cut.Knobs) (row : list Z) (l : nat) :
  length row = 8%nat -> (l < 8)%nat ->
  nth l (offsets_row k row) 0
  = s32 (s32 (Z.shiftr (s32 (nth l row 0)) 3 * s32 (Cut.sizeof_simdvertex k))
         + s32 (s32 (Z.land (s32 (nth l row 0)) (s32 7))
                * s32 Cut.sizeof_float)).
Proof.
  intros Hlen Hl.
  destruct row as [|x0 [|x1 [|x2 [|x3 [|x4 [|x5 [|x6 [|x7 [|]]]]]]]]];
    try discriminate Hlen.
  do 8 (destruct l as [|l]; [reflexivity|]). lia.
Qed.

(** The byte offset [ComputeOffsets] computes for a vertex is where the
    vertex starts in the stream. *)
Lemma vertex_offset_value (k : Cut.Knobs) (index : Z) :
  0 <= index < 2 ^ 31 ->
  0 <= Cut.sizeof_simdvertex k < 2 ^ 31 ->
  index / 8 * Cut.sizeof_simdvertex k + 28 < 2 ^ 31 ->
  s32 (s32 (Z.shiftr (s32 index) 3 * s32 (Cut.sizeof_simdvertex k))
       + s32 (s32 (Z.land (s32 index) (s32 7)) * s32 Cut.sizeof_float))
  = index / 8 * Cut.sizeof_simdvertex k + index mod 8 * 4.
Proof.
  intros Hi Hs Ho.
  rewrite (s32_small index) by lia.
  rewrite (s32_small (Cut.sizeof_simdvertex k)) by lia.
  rewrite (s32_small 7) by lia.
  change Cut.sizeof_float with 4. rewrite (s32_small 4) by lia.
  rewrite Z.shiftr_div_pow2 by lia. change (2 ^ 3) with 8.
  change 7 with (Z.ones 3). rewrite Z.land_ones by lia. change (2 ^ 3) with 8.
  pose proof (Z.mod_pos_bound index 8 ltac:(lia)) as Hm.
  assert (0 <= index / 8) by (apply Z.div_pos; lia).
  assert (0 <= index / 8 * Cut.sizeof_simdvertex k) by nia.
  rewrite (s32_small (index mod 8)) by lia.
  rewrite (s32_small (index / 8 * _)) by lia.
  rewrite (s32_small (index mod 8 * 4)) by lia.
  apply s32_small. lia.
Qed.

Lemma nth_add_epi32_set1 (a : simdscalari) (x : Z) (l : nat) :
  length a = 8%nat -> (l < 8)%nat ->
  nth l (_simd_add_epi32 a (_simd_set1_epi32 x)) 0 = s32 (nth l a 0 + s32 x).
Proof.
  intros Hlen Hl.
  destruct a as [|x0 [|x1 [|x2 [|x3 [|x4 [|x5 [|x6 [|x7 [|]]]]]]]]];
    try discriminate Hlen.
  do 8 (destruct l as [|l]; [reflexivity|]). lia.
Qed.

Lemma length_offsets_row (k : Cut.Knobs) (row : list Z) :
  length row = 8%nat -> length (offsets_row k row) = 8%nat.
Proof.
  intros Hlen.
  destruct row as [|x0 [|x1 [|x2 [|x3 [|x4 [|x5 [|x6 [|x7 [|]]]]]]]]];
    try discriminate Hlen.
  reflexivity.
Qed.

(** The four components [Assemble] gathers for one vertex of the
    primitives. *)
Lemma gather_vertex_component (slot : Z) (s : Cut.PA_STATE_CUT) (v : nat)
  (old : simdvector) (c : nat) :
  length old = 4%nat -> (c < 4)%nat ->
  nth c (gather_vertex slot s v old) []
  = _simd_i32gather_ps (Cut.pStreamBase s)
      (Z.of_nat c * (KNOB_SIMD_WIDTH * Cut.sizeof_float))
      (_simd_add_epi32 (nth v (Cut.vOffsets s) [])
         (_simd_set1_epi32 (slot * Cut.sizeof_simdvector))).
Proof.
  intros Hlen Hc. unfold gather_vertex.
  destruct old as [|x0 [|x1 [|x2 [|x3 [|]]]]]; try discriminate Hlen.
  do 4 (destruct c as [|c]; [reflexivity|]). lia.
Qed.

(** The four floats [AssembleSingle] reads for one vertex of the
    primitive. *)
Lemma AssembleSingle_component (mem : Z -> Z) (offset : Z) (old : list Z)
  (c : nat) :
  length old = 4%nat -> (c < 4)%nat ->
  0 <= offset -> offset + 96 < 2 ^ 32 ->
  nth c (fst (for_ 4 (fun c '(pVert, offset) =>
                (<[c := mem offset]> pVert,
                 u32 (offset + KNOB_SIMD_WIDTH * Cut.sizeof_float)))
               (old, offset))) 0
  = mem (offset + Z.of_nat c * (KNOB_SIMD_WIDTH * Cut.sizeof_float)).
Proof.
  intros Hlen Hc H0 H1.
  destruct old as [|x0 [|x1 [|x2 [|x3 [|]]]]]; try discriminate Hlen.
  change (KNOB_SIMD_WIDTH * Cut.sizeof_float) with 32.
  cbn [for_ fst snd].
  rewrite (u32_small (offset + 32)) by lia.
  rewrite (u32_small (offset + 32 + 32)) by lia.
  rewrite (u32_small (offset + 32 + 32 + 32)) by lia.
  do 4 (destruct c as [|c];
        [simpl insert; cbn [nth]; f_equal; lia|]). lia.
Qed.

Section CutGather.

Variable k : Cut.Knobs.
Implicit Types s : Cut.PA_STATE_CUT.

(** [ProcessVerts] leaves the stream, the offsets and their dirty flag as
    they are. *)
Lemma ProcessVerts_loop_keeps (fuel : nat) s :
  let s' := Cut.ProcessVerts_loop k fuel s in
  Cut.pStreamBase s' = Cut.pStreamBase s
  /\ Cut.vOffsets s' = Cut.vOffsets s
  /\ Cut.needOffsets s' = Cut.needOffsets s
  /\ Cut.vertsPerPrim s' = Cut.vertsPerPrim s.
Proof.
  cbv zeta. revert s. induction fuel as [|fuel IH]; intros s; simpl; [auto|].
  destruct (Cut.ProcessVerts_cond s); [|auto].
  destruct (IH (Cut.ProcessVerts_body k s)) as (-> & -> & -> & ->).
  pose proof (ProcessVerts_vertex_frame k s) as Fr.
  unfold Cut.ProcessVerts_body. cbn.
  rewrite (fr_pStreamBase _ _ Fr), (fr_vOffsets _ _ Fr),
    (fr_needOffsets _ _ Fr), (fr_vertsPerPrim _ _ Fr). auto.
Qed.

Lemma ProcessVerts_keeps s :
  let s' := Cut.ProcessVerts k s in
  Cut.pStreamBase s' = Cut.pStreamBase s
  /\ Cut.vOffsets s' = Cut.vOffsets s
  /\ Cut.needOffsets s' = Cut.needOffsets s
  /\ Cut.vertsPerPrim s' = Cut.vertsPerPrim s.
Proof.
  cbv zeta. unfold Cut.ProcessVerts. cbv zeta.
  destruct (ProcessVerts_loop_keeps (Z.to_nat (Cut.numRemainingVerts s)) s)
    as (H1 & H2 & H3 & H4).
  cbv zeta in *.
  destruct (Cut.ProcessVerts_last_cond _); [|auto].
  pose proof (call_pfnPa_frame k
                (Cut.curVertex
                   (Cut.ProcessVerts_loop k
                      (Z.to_nat (Cut.numRemainingVerts s)) s)) true
                (Cut.ProcessVerts_loop k
                   (Z.to_nat (Cut.numRemainingVerts s)) s)) as Fr.
  rewrite (fr_pStreamBase _ _ Fr), (fr_vOffsets _ _ Fr),
    (fr_needOffsets _ _ Fr), (fr_vertsPerPrim _ _ Fr). auto.
Qed.

(** What a successful [Assemble] returns and leaves, when the offsets are
    due. *)
Lemma Assemble_true_fresh (slot : Z) (result result' : list simdvector)
  s s' :
  Cut.needOffsets s = true ->
  Cut.Assemble k slot result s = (true, result', s') ->
  let p := Cut.ProcessVerts k s in
  s' = Cut.set_needOffsets false (Cut.ComputeOffsets k p)
  /\ result'
     = for_ (Z.to_nat (Cut.vertsPerPrim s))
         (update_entry [] (gather_vertex slot s')) result
  /\ Cut.indices s' = Cut.indices p
  /\ Cut.pStreamBase s' = Cut.pStreamBase s
  /\ Cut.vertsPerPrim s' = Cut.vertsPerPrim s
  /\ Cut.vOffsets s'
     = for_ (Z.to_nat (Cut.vertsPerPrim s))
         (update_entry []
            (fun v _ => offsets_row k (nth v (Cut.indices p) [])))
         (Cut.vOffsets s).
Proof.
  intros Hneed HA p. rewrite Assemble_unfold in HA. cbv zeta in HA.
  fold p in HA.
  destruct (ProcessVerts_keeps s) as (K1 & K2 & K3 & K4). fold p in K1, K2, K3, K4.
  cbv zeta in K1, K2, K3, K4.
  destruct (negb _ && _); [discriminate HA|].
  assert (Ho : offsets_cached k p
               = Cut.set_needOffsets false (Cut.ComputeOffsets k p))
    by (unfold offsets_cached; rewrite K3, Hneed; reflexivity).
  rewrite Ho in HA. inversion HA as [[Hr Hs]]. clear HA.
  rewrite ComputeOffsets_rows.
  cbn [Cut.vertsPerPrim Cut.set_needOffsets Cut.set_vOffsets Cut.indices
       Cut.pStreamBase Cut.vOffsets].
  rewrite K1, K2, K4. repeat split; reflexivity.
Qed.

(** The preconditions of the two statements below: the state is reached
    from the construction, a batch has been fed since the offsets were last
    computed, [Assemble] returns true, and the vertex number [index] in lane
    [l] of vertex [v] of the primitives has an address that fits a signed
    32-bit offset. *)
Lemma assembled_offsets (gsEnabled : bool) (in_pStream : Z -> Z)
  (in_streamSizeInVerts : Z) (in_pIndices : list Z)
  (in_numVerts in_numAttribs : Z) (topo : PRIMITIVE_TOPOLOGY)
  (s0 : Cut.PA_STATE_CUT) (ops : list Cut.op)
  (slot : Z) (result result' : list simdvector) (s' : Cut.PA_STATE_CUT)
  (v l : nat) :
  0 < in_streamSizeInVerts ->
  Cut.PA_STATE_CUT_ctor k gsEnabled in_pStream in_streamSizeInVerts
    in_pIndices in_numVerts in_numAttribs topo false = Some s0 ->
  Cut.needOffsets (Cut.run_ops k ops s0) = true ->
  Cut.Assemble k slot result (Cut.run_ops k ops s0) = (true, result', s') ->
  (v < Z.to_nat (Cut.vertsPerPrim s'))%nat -> (l < 8)%nat ->
  let index := load2 (Cut.indices s') (Z.of_nat v) (Z.of_nat l) in
  0 <= Cut.sizeof_simdvertex k < 2 ^ 31 ->
  0 <= index < 2 ^ 31 ->
  index / 8 * Cut.sizeof_simdvertex k + 28 < 2 ^ 31 ->
  length (nth v (Cut.vOffsets s') []) = 8%nat
  /\ nth l (nth v (Cut.vOffsets s') []) 0
     = index / 8 * Cut.sizeof_simdvertex k + index mod 8 * 4
  /\ result'
     = for_ (Z.to_nat (Cut.vertsPerPrim s'))
         (update_entry [] (gather_vertex slot s')) result.
Proof.
  intros HN Hctor Hneed HA Hv Hl index Hsz Hidx Hovf.
  destruct (ctor_bounds k _ _ _ _ _ _ _ _ _ HN Hctor) as (B0 & Hpcv & _).
  pose proof (run_ops_bounds k ops s0 B0 Hpcv) as B.
  assert (Hpcv' : Cut.processCutVerts (Cut.run_ops k ops s0) = false).
  { clear -B0 Hpcv. revert s0 B0 Hpcv.
    induction ops as [|o ops IH]; intros s0 B0 Hpcv; [exact Hpcv|].
    destruct (run_op_bounds k o s0 B0 Hpcv).
    apply (IH (Cut.run_op k o s0)); assumption. }
  destruct (ProcessVerts_bounds k _ B Hpcv') as [Bp _].
  destruct (Assemble_true_fresh slot result result' _ s' Hneed HA)
    as (_ & Hr & Hi & _ & Hvpp & Hvo).
  rewrite <- Hvpp in Hr, Hvo.
  destruct Bp as [_ Hshape _ _ _ _ _ _ Hp].
  assert (Hvpp6 : Cut.vertsPerPrim s' <= 6).
  { rewrite Hvpp.
    destruct (ProcessVerts_keeps (Cut.run_ops k ops s0)) as (_ & _ & _ & <-).
    lia. }
  assert (Hv6 : (v < 6)%nat) by lia.
  assert (Hrow : length (nth v (Cut.indices (Cut.ProcessVerts k (Cut.run_ops k ops s0))) [])
                 = 8%nat)
    by (apply table_shape_row; assumption).
  assert (Hlo : (v < length (Cut.vOffsets (Cut.run_ops k ops s0)))%nat)
    by (destruct B; lia).
  rewrite Hvo. rewrite for_update_nth by assumption.
  split; [apply length_offsets_row, Hrow|]. split; [|exact Hr].
  rewrite offsets_row_lane by assumption.
  subst index. unfold load2, load in *. rewrite !Nat2Z.id in *.
  rewrite Hi in *.
  apply vertex_offset_value; assumption.
Qed.

Lemma Assemble_lane_address (gsEnabled : bool) (in_pStream : Z -> Z)
  (in_streamSizeInVerts : Z) (in_pIndices : list Z)
  (in_numVerts in_numAttribs : Z) (topo : PRIMITIVE_TOPOLOGY)
  (s0 : Cut.PA_STATE_CUT) (ops : list Cut.op)
  (slot : Z) (result result' : list simdvector) (s' : Cut.PA_STATE_CUT)
  (v c l : nat) :
  0 < in_streamSizeInVerts ->
  Cut.PA_STATE_CUT_ctor k gsEnabled in_pStream in_streamSizeInVerts
    in_pIndices in_numVerts in_numAttribs topo false = Some s0 ->
  Cut.needOffsets (Cut.run_ops k ops s0) = true ->
  Cut.Assemble k slot result (Cut.run_ops k ops s0) = (true, result', s') ->
  (v < Z.to_nat (Cut.vertsPerPrim s'))%nat -> (v < length result)%nat ->
  length (nth v result []) = 4%nat -> (c < 4)%nat -> (l < 8)%nat ->
  let index := load2 (Cut.indices s') (Z.of_nat v) (Z.of_nat l) in
  0 <= slot -> 0 <= Cut.sizeof_simdvertex k < 2 ^ 31 ->
  0 <= index < 2 ^ 31 ->
  attrib_addr k index slot 3 < 2 ^ 31 ->
  nth l (nth c (nth v result' []) []) 0
  = Cut.pStreamBase s' (attrib_addr k index slot (Z.of_nat c)).
Proof.
  intros HN Hctor Hneed HA Hv Hvr Hlen Hc Hl index Hslot Hsz Hidx Hovf.
  assert (Hix : exists i, i = index) by (eexists; reflexivity).
  destruct Hix as [i Hix]. subst index. rewrite <- Hix in *.
  pose proof (Z.mod_pos_bound i 8 ltac:(lia)) as Hm.
  assert (H8 : 0 <= i / 8) by (apply Z.div_pos; lia).
  assert (Hq : 0 <= i / 8 * Cut.sizeof_simdvertex k) by nia.
  unfold attrib_addr, Cut.sizeof_simdvector, Cut.sizeof_float, KNOB_SIMD_WIDTH
    in Hovf.
  destruct (assembled_offsets gsEnabled in_pStream in_streamSizeInVerts
              in_pIndices in_numVerts in_numAttribs topo s0 ops slot result
              result' s' v l HN Hctor Hneed HA Hv Hl Hsz)
    as (Hlo & Hval & Hr); [rewrite <- Hix; lia ..|].
  rewrite <- Hix in Hval.
  rewrite Hr. rewrite for_update_nth by assumption.
  rewrite gather_vertex_component by assumption.
  unfold _simd_i32gather_ps. rewrite nth_map_lanes by assumption.
  rewrite nth_add_epi32_set1 by assumption.
  rewrite Hval. f_equal.
  unfold attrib_addr, Cut.sizeof_simdvector, Cut.sizeof_float, KNOB_SIMD_WIDTH.
  rewrite (s32_small (slot * _)) by lia.
  rewrite s32_small by lia. lia.
Qed.

Lemma AssembleSingle_address (gsEnabled : bool) (in_pStream : Z -> Z)
  (in_streamSizeInVerts : Z) (in_pIndices : list Z)
  (in_numVerts in_numAttribs : Z) (topo : PRIMITIVE_TOPOLOGY)
  (s0 : Cut.PA_STATE_CUT) (ops : list Cut.op)
  (slot : Z) (result result' : list simdvector) (s' : Cut.PA_STATE_CUT)
  (tri : list (list Z)) (v c l : nat) :
  0 < in_streamSizeInVerts ->
  Cut.PA_STATE_CUT_ctor k gsEnabled in_pStream in_streamSizeInVerts
    in_pIndices in_numVerts in_numAttribs topo false = Some s0 ->
  Cut.needOffsets (Cut.run_ops k ops s0) = true ->
  Cut.Assemble k slot result (Cut.run_ops k ops s0) = (true, result', s') ->
  (v < Z.to_nat (Cut.vertsPerPrim s'))%nat -> (v < length tri)%nat ->
  length (nth v tri []) = 4%nat -> (c < 4)%nat -> (l < 8)%nat ->
  let index := load2 (Cut.indices s') (Z.of_nat v) (Z.of_nat l) in
  0 <= slot -> 0 <= Cut.sizeof_simdvertex k < 2 ^ 31 ->
  0 <= index < 2 ^ 31 ->
  attrib_addr k index slot 3 < 2 ^ 31 ->
  nth c (nth v (Cut.AssembleSingle slot (Z.of_nat l) tri s') []) 0
  = Cut.pStreamBase s' (attrib_addr k index slot (Z.of_nat c)).
Proof.
  intros HN Hctor Hneed HA Hv Hvr Hlen Hc Hl index Hslot Hsz Hidx Hovf.
  assert (Hix : exists i, i = index) by (eexists; reflexivity).
  destruct Hix as [i Hix]. subst index. rewrite <- Hix in *.
  pose proof (Z.mod_pos_bound i 8 ltac:(lia)) as Hm.
  assert (H8 : 0 <= i / 8) by (apply Z.div_pos; lia).
  assert (Hq : 0 <= i / 8 * Cut.sizeof_simdvertex k) by nia.
  unfold attrib_addr, Cut.sizeof_simdvector, Cut.sizeof_float, KNOB_SIMD_WIDTH
    in Hovf.
  destruct (assembled_offsets gsEnabled in_pStream in_streamSizeInVerts
              in_pIndices in_numVerts in_numAttribs topo s0 ops slot result
              result' s' v l HN Hctor Hneed HA Hv Hl Hsz)
    as (Hlo & Hval & _); [rewrite <- Hix; lia ..|].
  rewrite <- Hix in Hval.
  unfold Cut.AssembleSingle.
  set (h := fun (v0 : nat) (old : list Z) =>
    fst (for_ 4 (fun c '(pVert, offset) =>
           (<[c := Cut.pStreamBase s' offset]> pVert,
            u32 (offset + KNOB_SIMD_WIDTH * Cut.sizeof_float)))
          (old,
           u32 (u32 (load (nth v0 (Cut.vOffsets s') []) (Z.of_nat l))
                + Cut.sizeof_simdvector * slot)))).
  rewrite (for_ext _ (update_entry [] h))
    by (intros i0 x; unfold update_entry, h; cbv zeta;
        destruct (for_ 4 _ _); reflexivity).
  rewrite for_update_nth by assumption.
  unfold h, load. rewrite Nat2Z.id, Hval.
  unfold Cut.sizeof_simdvector, Cut.sizeof_float, KNOB_SIMD_WIDTH.
  rewrite (u32_small (i / 8 * _ + _)) by lia.
  rewrite (u32_small (_ + 4 * 8 * 4 * slot)) by lia.
  pose proof (AssembleSingle_component (Cut.pStreamBase s')
                (i / 8 * Cut.sizeof_simdvertex k + i mod 8 * 4
                 + 4 * 8 * 4 * slot) (nth v tri []) c Hlen Hc) as E.
  unfold KNOB_SIMD_WIDTH, Cut.sizeof_float in E.
  rewrite E by lia. f_equal.
  unfold attrib_addr, Cut.sizeof_simdvector, Cut.sizeof_float, KNOB_SIMD_WIDTH.
  lia.
Qed.

(** In a batch that [Assemble] has assembled after a batch of vertices was
    fed, lane [l] of component [c] of vertex [v] of the primitives is the
    float the stream holds for vertex number [indices[v][l]]: the one at
    component [c] of attribute [slot] of that vertex, in a stream laid out
    as [simdvertex] batches. *)
Theorem Assemble_gathers_attribute (gsEnabled : bool) (in_pStream : Z -> Z)
  (in_streamSizeInVerts : Z) (in_pIndices : list Z)
  (in_numVerts in_numAttribs : Z) (topo : PRIMITIVE_TOPOLOGY)
  (s0 : Cut.PA_STATE_CUT) (ops : list Cut.op)
  (slot : Z) (result result' : list simdvector) (s' : Cut.PA_STATE_CUT)
  (v c l : nat) :
  0 < in_streamSizeInVerts ->
  Cut.PA_STATE_CUT_ctor k gsEnabled in_pStream in_streamSizeInVerts
    in_pIndices in_numVerts in_numAttribs topo false = Some s0 ->
  Cut.needOffsets (Cut.run_ops k ops s0) = true ->
  Cut.Assemble k slot result (Cut.run_ops k ops s0) = (true, result', s') ->
  (v < Z.to_nat (Cut.vertsPerPrim s'))%nat -> (v < length result)%nat ->
  length (nth v result []) = 4%nat -> (c < 4)%nat -> (l < 8)%nat ->
  let index := load2 (Cut.indices s') (Z.of_nat v) (Z.of_nat l) in
  0 <= slot -> 0 <= Cut.sizeof_simdvertex k < 2 ^ 31 ->
  0 <= index < 2 ^ 31 ->
  attrib_addr k index slot 3 < 2 ^ 31 ->
  nth l (nth c (nth v result' []) []) 0
  = Cut.pStreamBase s' (attrib_addr k index slot (Z.of_nat c))
  /\ Cut.pStreamBase s' = Cut.pStreamBase (Cut.run_ops k ops s0).
Proof.
  intros HN Hctor Hneed HA Hv Hvr Hlen Hc Hl index Hslot Hsz Hidx Hovf.
  split.
  - apply (Assemble_lane_address gsEnabled in_pStream in_streamSizeInVerts
             in_pIndices in_numVerts in_numAttribs topo s0 ops slot result);
      assumption.
  - destruct (Assemble_true_fresh slot result result' _ s' Hneed HA)
      as (_ & _ & _ & H & _). exact H.
Qed.

(** [AssembleSingle] of primitive [l] of the batch writes, for each vertex
    of the primitive, the lane [l] of what [Assemble] wrote for that
    vertex: the [__m128] that [swizzleLaneN] makes of it. *)
Theorem AssembleSingle_is_lane_of_Assemble (gsEnabled : bool)
  (in_pStream : Z -> Z) (in_streamSizeInVerts : Z) (in_pIndices : list Z)
  (in_numVerts in_numAttribs : Z) (topo : PRIMITIVE_TOPOLOGY)
  (s0 : Cut.PA_STATE_CUT) (ops : list Cut.op)
  (slot : Z) (result result' : list simdvector) (s' : Cut.PA_STATE_CUT)
  (tri : list (list Z)) (v l : nat) :
  0 < in_streamSizeInVerts ->
  Cut.PA_STATE_CUT_ctor k gsEnabled in_pStream in_streamSizeInVerts
    in_pIndices in_numVerts in_numAttribs topo false = Some s0 ->
  Cut.needOffsets (Cut.run_ops k ops s0) = true ->
  Cut.Assemble k slot result (Cut.run_ops k ops s0) = (true, result', s') ->
  (v < Z.to_nat (Cut.vertsPerPrim s'))%nat ->
  (v < length result)%nat -> length (nth v result []) = 4%nat ->
  (v < length tri)%nat -> length (nth v tri []) = 4%nat ->
  (l < 8)%nat ->
  let index := load2 (Cut.indices s') (Z.of_nat v) (Z.of_nat l) in
  0 <= slot -> 0 <= Cut.sizeof_simdvertex k < 2 ^ 31 ->
  0 <= index < 2 ^ 31 ->
  attrib_addr k index slot 3 < 2 ^ 31 ->
  nth v (Cut.AssembleSingle slot (Z.of_nat l) tri s') []
  = swizzleLaneN (nth v result' []) (Z.of_nat l).
Proof.
  intros HN Hctor Hneed HA Hv Hvr Hlen Hvt Hlent Hl index Hslot Hsz Hidx Hovf.
  subst index.
  rewrite swizzleLaneN_in_range by lia. rewrite Nat2Z.id.
  assert (Hlen' : length (nth v (Cut.AssembleSingle slot (Z.of_nat l) tri s') [])
                  = 4%nat).
  { unfold Cut.AssembleSingle.
    set (h := fun (v0 : nat) (old : list Z) =>
      fst (for_ 4 (fun c '(pVert, offset) =>
             (<[c := Cut.pStreamBase s' offset]> pVert,
              u32 (offset + KNOB_SIMD_WIDTH * Cut.sizeof_float)))
            (old,
             u32 (u32 (load (nth v0 (Cut.vOffsets s') []) (Z.of_nat l))
                  + Cut.sizeof_simdvector * slot)))).
    rewrite (for_ext _ (update_entry [] h))
      by (intros i0 x; unfold update_entry, h; cbv zeta;
          destruct (for_ 4 _ _); reflexivity).
    rewrite for_update_nth by assumption.
    unfold h. cbn [for_ fst]. rewrite !length_insert. exact Hlent. }
  apply (nth_ext _ _ 0 0); [rewrite Hlen'; reflexivity|].
  intros c Hc. rewrite Hlen' in Hc.
  rewrite (AssembleSingle_address gsEnabled in_pStream in_streamSizeInVerts
             in_pIndices in_numVerts in_numAttribs topo s0 ops slot result
             result' s') by assumption.
  rewrite <- (Assemble_lane_address gsEnabled in_pStream in_streamSizeInVerts
                in_pIndices in_numVerts in_numAttribs topo s0 ops slot result
                result' s' v c l) by assumption.
  do 4 (destruct c as [|c]; [reflexivity|]). lia.
Qed.

End CutGather.

Lemma Assemble_gathers_attribute_witness :
  exists s0 r s',
    Cut.PA_FACTORY_paCut knobs0 false (fun a => a) 6 1 TOP_TRIANGLE_LIST
    = Some s0
    /\ Cut.Assemble knobs0 1 Cut.prim_array
         (Cut.run_ops knobs0 [Cut.op_feed 0 (fun a => a)] s0)
       = (true, r, s')
    /\ load2 (Cut.indices s') 1 1 = 4
    /\ nth 1 (nth 2 (nth 1 r []) []) 0 = 208.
Proof.
  eexists. eexists. eexists.
  split; [vm_compute; reflexivity|].
  match goal with
  | |- ?A = ?B /\ _ => assert (H : A = B) by (vm_compute; reflexivity)
  end.
  split; [exact H|]. split; [vm_compute; reflexivity|].
  refine (eq_trans
            (proj1 (Assemble_gathers_attribute knobs0 false (fun a => a)
                      (MAX_NUM_VERTS_PER_PRIM * KNOB_SIMD_WIDTH)
                      (repeat 0 (Z.to_nat MAX_NUM_VERTS_PER_PRIM)) 6 1
                      TOP_TRIANGLE_LIST _ [Cut.op_feed 0 (fun a => a)] 1
                      Cut.prim_array _ _ 1 2 1 _ _ _ H _ _ _ _ _ _ _ _ _))
            _);
    try lia; try (vm_compute; reflexivity); try (vm_compute; lia);
    try (vm_compute; split; [discriminate|reflexivity]).
Defined.

Lemma AssembleSingle_is_lane_of_Assemble_witness :
  exists s0 r s',
    Cut.PA_FACTORY_paCut knobs0 false (fun a => a) 6 1 TOP_TRIANGLE_LIST
    = Some s0
    /\ Cut.Assemble knobs0 1 Cut.prim_array
         (Cut.run_ops knobs0 [Cut.op_feed 0 (fun a => a)] s0)
       = (true, r, s')
    /\ nth 1 (Cut.AssembleSingle 1 1 (repeat (repeat 0 4) 3) s') []
       = swizzleLaneN (nth 1 r []) 1.
Proof.
  eexists. eexists. eexists.
  split; [vm_compute; reflexivity|].
  match goal with
  | |- ?A = ?B /\ _ => assert (H : A = B) by (vm_compute; reflexivity)
  end.
  split; [exact H|].
  refine (AssembleSingle_is_lane_of_Assemble knobs0 false (fun a => a)
            (MAX_NUM_VERTS_PER_PRIM * KNOB_SIMD_WIDTH)
            (repeat 0 (Z.to_nat MAX_NUM_VERTS_PER_PRIM)) 6 1
            TOP_TRIANGLE_LIST _ [Cut.op_feed 0 (fun a => a)] 1
            Cut.prim_array _ _ (repeat (repeat 0 4) 3) 1 1
            _ _ _ H _ _ _ _ _ _ _ _ _ _);
    try lia; try (vm_compute; reflexivity); try (vm_compute; lia);
    try (vm_compute; split; [discriminate|reflexivity]).
Defined.
(** *** The other list and strip topologies *)

Lemma write_col_from_spec (xs : list Z) (v : Z) (t : list (list Z)) (np : Z) :
  table_shape t -> 0 <= np < 8 -> 0 <= v ->
  v + Z.of_nat (length xs) <= 6 ->
  let t' := write_col_from v t np xs in
  table_shape t'
  /\ (forall u l, 0 <= u -> 0 <= l -> l <> np ->
      load2 t' u l = load2 t u l)
  /\ (forall u, 0 <= u < v -> load2 t' u np = load2 t u np)
  /\ (forall j, (j < length xs)%nat ->
      load2 t' (v + Z.of_nat j) np = nth j xs 0).
Proof.
  revert v t. induction xs as [|x xs IH]; intros v t Hs Hnp Hv Hlen; cbn [write_col_from].
  - cbv zeta. split; [exact Hs|]. split; [auto|]. split; [auto|].
    intros j Hj. cbn in Hj. lia.
  - cbn [length] in Hlen.
    destruct (IH (v + 1) (store2 t v np x)) as (H1 & H2 & H3 & H4);
      [apply store2_shape, Hs | lia | lia | lia |].
    cbv zeta in *. split; [exact H1|]. split; [|split].
    + intros u l Hu Hl Hne. rewrite H2 by assumption.
      apply load2_store2_ne; lia.
    + intros u Hu. rewrite H3 by lia. apply load2_store2_ne; lia.
    + intros [|j] Hj.
      * rewrite Z.add_0_r. rewrite H3 by lia.
        apply load2_store2_eq; [exact Hs | lia | lia].
      * cbn [nth]. rewrite <- (H4 j) by (cbn in Hj; lia). f_equal. lia.
Qed.

Lemma nth_map_seq {A : Type} (f : nat -> A) (d : A) (n j : nat) :
  (j < n)%nat -> nth j (map f (seq 0 n)) d = f j.
Proof.
  intros H.
  rewrite (nth_indep _ d (f 0%nat)) by (rewrite length_map, length_seq; lia).
  rewrite (map_nth f). rewrite seq_nth by exact H. reflexivity.
Qed.

(** Writing a primitive of [length xs] vertices into the next free lane. *)
Lemma emit_prim (t : list (list Z)) (np : Z) (xs : list Z) :
  table_shape t -> 0 <= np < 8 -> (length xs <= 6)%nat ->
  let t' := write_col_from 0 t np xs in
  table_shape t'
  /\ (forall v l, 0 <= v -> 0 <= l -> l <> np -> load2 t' v l = load2 t v l)
  /\ map (fun v => load2 t' (Z.of_nat v) np) (seq 0 (length xs)) = xs.
Proof.
  intros Hs Hnp Hlen.
  destruct (write_col_from_spec xs 0 t np Hs Hnp) as (H1 & H2 & _ & H4);
    [lia | lia |].
  cbv zeta in *. split; [exact H1|]. split; [exact H2|].
  apply (nth_ext _ _ 0 0); [rewrite length_map, length_seq; reflexivity|].
  intros j Hj. rewrite length_map, length_seq in Hj.
  rewrite nth_map_seq by exact Hj.
  rewrite <- (H4 j Hj). reflexivity.
Qed.

Section MoreTopologies.

Variable k : Cut.Knobs.
Variable N : Z.
Hypothesis N_pos : 0 < N.
Hypothesis N_max : N <= 2 ^ 32.

(** The step of a list topology: [h] stores the vertex, and with the [m]-th
    vertex of a primitive writes the vertices [picks] of the window to the
    gather table and starts over. *)
Ltac list_step m picks :=
  let Hi := fresh "Hi" in
  let Hpfn := fresh "Hpfn" in
  let Hlen := fresh "Hlen" in
  let Hci := fresh "Hci" in
  let Hvert := fresh "Hvert" in
  let Hsh := fresh "Hsh" in
  let Hnp := fresh "Hnp" in
  intros Hi Hpfn (Hlen & Hci & Hvert) Hsh Hnp s'; subst s';
  unfold emits_prim, list_T, Cut.call_pfnPa; rewrite Hpfn;
  match goal with s : Cut.PA_STATE_CUT |- _ => destruct s end;
  cbn in * |-; subst;
  match goal with
  | |- context [Cut.ProcessVertPointList] =>
      cbv beta delta [Cut.ProcessVertPointList]
  | |- context [Cut.ProcessVertLineList] =>
      cbv beta delta [Cut.ProcessVertLineList]
  | |- context [Cut.ProcessVertLineListAdj] =>
      cbv beta delta [Cut.ProcessVertLineListAdj]
  | |- context [Cut.ProcessVertLineListAdjNoGs] =>
      cbv beta delta [Cut.ProcessVertLineListAdjNoGs]
  | |- context [Cut.ProcessVertTriListAdj] =>
      cbv beta delta [Cut.ProcessVertTriListAdj]
  | |- context [Cut.ProcessVertTriListAdjNoGs] =>
      cbv beta delta [Cut.ProcessVertTriListAdjNoGs]
  end;
  cut_eval;
  match goal with
  | i : Z |- _ =>
      pose proof (Z.mod_pos_bound i m ltac:(lia));
      pose proof (Z.div_mod i m ltac:(lia));
      pose proof (Z.div_mod (i + 1) m ltac:(lia));
      pose proof (Z.mod_pos_bound (i + 1) m ltac:(lia));
      rewrite (u32_small (i mod m + 1)) by lia;
      destruct (Z.eqb_spec (i mod m + 1) m) as [E|E]
  end.

(** The window after the vertex is stored. *)
Ltac window_entry Hlen Hvert :=
  first [ rewrite load_store_eq by (rewrite Hlen; lia)
        | rewrite load_store_ne by lia; rewrite Hvert by lia ];
  f_equal; lia.

Ltac small_sums :=
  change (0 + 1) with 1 in *; change (1 + 1) with 2 in *;
  change (2 + 1) with 3 in *; change (3 + 1) with 4 in *;
  change (4 + 1) with 5 in *; change (5 + 1) with 6 in *.

Ltac list_step_finish m picks :=
  lazymatch goal with
  | E : ?i mod m + 1 = m, Hvert : forall j, _ -> load ?vert j = _,
    Hsh : table_shape ?indices, Hnp : 0 <= ?np < 8,
    Hlen : length ?vert = 6%nat |- _ =>
      (* the last vertex of a primitive *)
      let w := eval compute in (m - 1) in
      let Em := fresh "Em" in
      assert (Em : i mod m = w) by lia;
      rewrite Em in *;
      let S1 := fresh "S" in
      let S2 := fresh "S" in
      let S3 := fresh "S" in
      destruct (emit_prim indices np
                  (map (fun p => load (store vert w (i mod N)) p) picks)
                  Hsh Hnp) as (S1 & S2 & S3); [cbn; lia|];
      cbv beta iota zeta delta [map write_col_from length] in S1, S2, S3;
      small_sums;
      rewrite length_store;
      (split; [split; [exact Hlen|split; [lia|intros; lia]]|]);
      (split; [reflexivity|]); (split; [exact S1|]);
      right; (split; [lia|]); (split; [apply u32_small; lia|]);
      (split; [exact S2|]);
      etransitivity; [exact S3|];
      unfold list_P; cbn [map];
      repeat match goal with
             | |- _ :: _ = _ :: _ => f_equal
             end;
      try reflexivity; window_entry Hlen Hvert
  | E : ?i mod m + 1 <> m, Hvert : forall j, _ -> load ?vert j = _,
    Hsh : table_shape ?indices, Hlen : length ?vert = 6%nat |- _ =>
      rewrite length_store;
      split;
      [ split; [exact Hlen|];
        split; [lia|];
        let j := fresh "j" in
        let Hj := fresh "Hj" in
        intros j Hj;
        destruct (Z.eq_dec j (i mod m)) as [->|];
        window_entry Hlen Hvert
      | split; [reflexivity|]; split; [exact Hsh|];
        left; split; [lia|]; split; reflexivity ]
  end.

Lemma pointlist_step (s : Cut.PA_STATE_CUT) (i : Z) :
  0 <= i -> Cut.pfnPa s = Cut.pfn_ProcessVertPointList ->
  list_T 1 N i (Cut.vert s) (Cut.curIndex s) (Cut.reverseWinding s) ->
  table_shape (Cut.indices s) ->
  0 <= Cut.numPrimsAssembled s < 8 ->
  let s' := Cut.call_pfnPa k (i mod N) false s in
  list_T 1 N (i + 1) (Cut.vert s') (Cut.curIndex s') (Cut.reverseWinding s')
  /\ Cut.adjExtraVert s' = Cut.adjExtraVert s
  /\ table_shape (Cut.indices s')
  /\ (((i + 1) / 1 = i / 1
       /\ Cut.numPrimsAssembled s' = Cut.numPrimsAssembled s
       /\ Cut.indices s' = Cut.indices s)
      \/ ((i + 1) / 1 = i / 1 + 1
          /\ emits_prim 1 (list_P 1 [0] N) s s' (i / 1))).
Proof. list_step 1 [0]; list_step_finish 1 [0]. Qed.

Lemma linelist_step (s : Cut.PA_STATE_CUT) (i : Z) :
  0 <= i -> Cut.pfnPa s = Cut.pfn_ProcessVertLineList ->
  list_T 2 N i (Cut.vert s) (Cut.curIndex s) (Cut.reverseWinding s) ->
  table_shape (Cut.indices s) ->
  0 <= Cut.numPrimsAssembled s < 8 ->
  let s' := Cut.call_pfnPa k (i mod N) false s in
  list_T 2 N (i + 1) (Cut.vert s') (Cut.curIndex s') (Cut.reverseWinding s')
  /\ Cut.adjExtraVert s' = Cut.adjExtraVert s
  /\ table_shape (Cut.indices s')
  /\ (((i + 1) / 2 = i / 2
       /\ Cut.numPrimsAssembled s' = Cut.numPrimsAssembled s
       /\ Cut.indices s' = Cut.indices s)
      \/ ((i + 1) / 2 = i / 2 + 1
          /\ emits_prim 2 (list_P 2 [0; 1] N) s s' (i / 2))).
Proof. list_step 2 [0; 1]; list_step_finish 2 [0; 1]. Qed.

Lemma linelistadj_step (s : Cut.PA_STATE_CUT) (i : Z) :
  0 <= i -> Cut.pfnPa s = Cut.pfn_ProcessVertLineListAdj ->
  list_T 4 N i (Cut.vert s) (Cut.curIndex s) (Cut.reverseWinding s) ->
  table_shape (Cut.indices s) ->
  0 <= Cut.numPrimsAssembled s < 8 ->
  let s' := Cut.call_pfnPa k (i mod N) false s in
  list_T 4 N (i + 1) (Cut.vert s') (Cut.curIndex s') (Cut.reverseWinding s')
  /\ Cut.adjExtraVert s' = Cut.adjExtraVert s
  /\ table_shape (Cut.indices s')
  /\ (((i + 1) / 4 = i / 4
       /\ Cut.numPrimsAssembled s' = Cut.numPrimsAssembled s
       /\ Cut.indices s' = Cut.indices s)
      \/ ((i + 1) / 4 = i / 4 + 1
          /\ emits_prim 4 (list_P 4 [0; 1; 2; 3] N) s s' (i / 4))).
Proof. list_step 4 [0; 1; 2; 3]; list_step_finish 4 [0; 1; 2; 3]. Qed.

Lemma linelistadj_nogs_step (s : Cut.PA_STATE_CUT) (i : Z) :
  0 <= i -> Cut.pfnPa s = Cut.pfn_ProcessVertLineListAdjNoGs ->
  list_T 4 N i (Cut.vert s) (Cut.curIndex s) (Cut.reverseWinding s) ->
  table_shape (Cut.indices s) ->
  0 <= Cut.numPrimsAssembled s < 8 ->
  let s' := Cut.call_pfnPa k (i mod N) false s in
  list_T 4 N (i + 1) (Cut.vert s') (Cut.curIndex s') (Cut.reverseWinding s')
  /\ Cut.adjExtraVert s' = Cut.adjExtraVert s
  /\ table_shape (Cut.indices s')
  /\ (((i + 1) / 4 = i / 4
       /\ Cut.numPrimsAssembled s' = Cut.numPrimsAssembled s
       /\ Cut.indices s' = Cut.indices s)
      \/ ((i + 1) / 4 = i / 4 + 1
          /\ emits_prim 2 (list_P 4 [1; 2] N) s s' (i / 4))).
Proof. list_step 4 [1; 2]; list_step_finish 4 [1; 2]. Qed.

Lemma trilistadj_step (s : Cut.PA_STATE_CUT) (i : Z) :
  0 <= i -> Cut.pfnPa s = Cut.pfn_ProcessVertTriListAdj ->
  list_T 6 N i (Cut.vert s) (Cut.curIndex s) (Cut.reverseWinding s) ->
  table_shape (Cut.indices s) ->
  0 <= Cut.numPrimsAssembled s < 8 ->
  let s' := Cut.call_pfnPa k (i mod N) false s in
  list_T 6 N (i + 1) (Cut.vert s') (Cut.curIndex s') (Cut.reverseWinding s')
  /\ Cut.adjExtraVert s' = Cut.adjExtraVert s
  /\ table_shape (Cut.indices s')
  /\ (((i + 1) / 6 = i / 6
       /\ Cut.numPrimsAssembled s' = Cut.numPrimsAssembled s
       /\ Cut.indices s' = Cut.indices s)
      \/ ((i + 1) / 6 = i / 6 + 1
          /\ emits_prim 6 (list_P 6 [0; 1; 2; 3; 4; 5] N) s s' (i / 6))).
Proof.
  list_step 6 [0; 1; 2; 3; 4; 5]; list_step_finish 6 [0; 1; 2; 3; 4; 5].
Qed.

Lemma trilistadj_nogs_step (s : Cut.PA_STATE_CUT) (i : Z) :
  0 <= i -> Cut.pfnPa s = Cut.pfn_ProcessVertTriListAdjNoGs ->
  list_T 6 N i (Cut.vert s) (Cut.curIndex s) (Cut.reverseWinding s) ->
  table_shape (Cut.indices s) ->
  0 <= Cut.numPrimsAssembled s < 8 ->
  let s' := Cut.call_pfnPa k (i mod N) false s in
  list_T 6 N (i + 1) (Cut.vert s') (Cut.curIndex s') (Cut.reverseWinding s')
  /\ Cut.adjExtraVert s' = Cut.adjExtraVert s
  /\ table_shape (Cut.indices s')
  /\ (((i + 1) / 6 = i / 6
       /\ Cut.numPrimsAssembled s' = Cut.numPrimsAssembled s
       /\ Cut.indices s' = Cut.indices s)
      \/ ((i + 1) / 6 = i / 6 + 1
          /\ emits_prim 3 (list_P 6 [0; 2; 4] N) s s' (i / 6))).
Proof. list_step 6 [0; 2; 4]; list_step_finish 6 [0; 2; 4]. Qed.

(** The step of a strip topology: [h] stores the vertex, and once the
    window holds [w + 1] vertices writes the vertices [picks] of it to the
    gather table and moves the window on by one vertex. *)
Ltac strip_step w :=
  let Hi := fresh "Hi" in
  let Hpfn := fresh "Hpfn" in
  let Hlen := fresh "Hlen" in
  let Hci := fresh "Hci" in
  let Hvert := fresh "Hvert" in
  let Hsh := fresh "Hsh" in
  let Hnp := fresh "Hnp" in
  intros Hi Hpfn (Hlen & Hci & Hvert) Hsh Hnp s'; subst s';
  unfold emits_prim, strip_T, Cut.call_pfnPa; rewrite Hpfn;
  match goal with s : Cut.PA_STATE_CUT |- _ => destruct s end;
  cbn in * |-; subst;
  match goal with
  | |- context [Cut.ProcessVertLineStrip] =>
      cbv beta delta [Cut.ProcessVertLineStrip]
  | |- context [Cut.ProcessVertLineStripAdj] =>
      cbv beta delta [Cut.ProcessVertLineStripAdj]
  | |- context [Cut.ProcessVertLineStripAdjNoGs] =>
      cbv beta delta [Cut.ProcessVertLineStripAdjNoGs]
  end;
  cut_eval;
  match goal with
  | i : Z |- _ =>
      rewrite (u32_small (Z.min i w + 1)) by lia;
      let m := eval compute in (w + 1) in
      destruct (Z.eqb_spec (Z.min i w + 1) m) as [E|E];
      [ assert (w <= i) by lia;
        rewrite (Z.min_r i w) in * by lia;
        rewrite (Z.max_r 0 (i - w)) in * by lia;
        rewrite (Z.max_r 0 (i + 1 - w)) by lia;
        rewrite (Z.min_r (i + 1) w) by lia
      | assert (i < w) by lia;
        rewrite (Z.min_l i w) in * by lia;
        rewrite (Z.max_l 0 (i - w)) in * by lia;
        rewrite (Z.max_l 0 (i + 1 - w)) by lia;
        rewrite (Z.min_l (i + 1) w) by lia ]
  end.

Ltac window_entries Hlen Hvert :=
  repeat first [ rewrite load_store_eq by (rewrite ?length_store, Hlen; lia)
               | rewrite load_store_ne by lia ];
  try (rewrite Hvert by lia);
  f_equal; lia.

Ltac strip_step_finish w picks :=
  lazymatch goal with
  | E : w + 1 = _, Hvert : forall j, _ -> load ?vert j = _,
    Hsh : table_shape ?indices, Hnp : 0 <= ?np < 8,
    Hlen : length ?vert = 6%nat, Hi : 0 <= ?i |- _ =>
      (* the window is full *)
      let S1 := fresh "S" in
      let S2 := fresh "S" in
      let S3 := fresh "S" in
      destruct (emit_prim indices np
                  (map (fun p => load (store vert w (i mod N)) p) picks)
                  Hsh Hnp) as (S1 & S2 & S3); [cbn; lia|];
      cbv beta iota zeta delta [map write_col_from length] in S1, S2, S3;
      small_sums;
      rewrite !length_store;
      (split;
       [split; [exact Hlen|];
        split; [reflexivity|];
        let j := fresh "j" in
        let Hj := fresh "Hj" in
        let Hc := fresh "Hc" in
        intros j Hj;
        assert (Hc : j = 0 \/ j = 1 \/ j = 2) by lia;
        destruct Hc as [->|[->| ->]]; try lia;
        window_entries Hlen Hvert|]);
      (split; [reflexivity|]); (split; [exact S1|]);
      right; (split; [lia|]); (split; [apply u32_small; lia|]);
      (split; [exact S2|]);
      etransitivity; [exact S3|];
      unfold strip_P; cbn [map];
      repeat match goal with
             | |- _ :: _ = _ :: _ => f_equal
             end;
      try reflexivity; window_entries Hlen Hvert
  | E : ?i + 1 <> _, Hvert : forall j, _ -> load ?vert j = _,
    Hsh : table_shape ?indices, Hlen : length ?vert = 6%nat |- _ =>
      rewrite length_store;
      split;
      [ split; [exact Hlen|];
        split; [reflexivity|];
        let j := fresh "j" in
        let Hj := fresh "Hj" in
        intros j Hj;
        destruct (Z.eq_dec j i) as [->|];
        window_entries Hlen Hvert
      | split; [reflexivity|]; split; [exact Hsh|];
        left; split; [reflexivity|]; split; reflexivity ]
  end.

Lemma linestrip_step (s : Cut.PA_STATE_CUT) (i : Z) :
  0 <= i -> Cut.pfnPa s = Cut.pfn_ProcessVertLineStrip ->
  strip_T 1 N i (Cut.vert s) (Cut.curIndex s) (Cut.reverseWinding s) ->
  table_shape (Cut.indices s) ->
  0 <= Cut.numPrimsAssembled s < 8 ->
  let s' := Cut.call_pfnPa k (i mod N) false s in
  strip_T 1 N (i + 1) (Cut.vert s') (Cut.curIndex s') (Cut.reverseWinding s')
  /\ Cut.adjExtraVert s' = Cut.adjExtraVert s
  /\ table_shape (Cut.indices s')
  /\ ((Z.max 0 (i + 1 - 1) = Z.max 0 (i - 1)
       /\ Cut.numPrimsAssembled s' = Cut.numPrimsAssembled s
       /\ Cut.indices s' = Cut.indices s)
      \/ (Z.max 0 (i + 1 - 1) = Z.max 0 (i - 1) + 1
          /\ emits_prim 2 (strip_P [0; 1] N) s s' (Z.max 0 (i - 1)))).
Proof. strip_step 1; strip_step_finish 1 [0; 1]. Qed.

Lemma linestripadj_step (s : Cut.PA_STATE_CUT) (i : Z) :
  0 <= i -> Cut.pfnPa s = Cut.pfn_ProcessVertLineStripAdj ->
  strip_T 3 N i (Cut.vert s) (Cut.curIndex s) (Cut.reverseWinding s) ->
  table_shape (Cut.indices s) ->
  0 <= Cut.numPrimsAssembled s < 8 ->
  let s' := Cut.call_pfnPa k (i mod N) false s in
  strip_T 3 N (i + 1) (Cut.vert s') (Cut.curIndex s') (Cut.reverseWinding s')
  /\ Cut.adjExtraVert s' = Cut.adjExtraVert s
  /\ table_shape (Cut.indices s')
  /\ ((Z.max 0 (i + 1 - 3) = Z.max 0 (i - 3)
       /\ Cut.numPrimsAssembled s' = Cut.numPrimsAssembled s
       /\ Cut.indices s' = Cut.indices s)
      \/ (Z.max 0 (i + 1 - 3) = Z.max 0 (i - 3) + 1
          /\ emits_prim 4 (strip_P [0; 1; 2; 3] N) s s' (Z.max 0 (i - 3)))).
Proof. strip_step 3; strip_step_finish 3 [0; 1; 2; 3]. Qed.

Lemma linestripadj_nogs_step (s : Cut.PA_STATE_CUT) (i : Z) :
  0 <= i -> Cut.pfnPa s = Cut.pfn_ProcessVertLineStripAdjNoGs ->
  strip_T 3 N i (Cut.vert s) (Cut.curIndex s) (Cut.reverseWinding s) ->
  table_shape (Cut.indices s) ->
  0 <= Cut.numPrimsAssembled s < 8 ->
  let s' := Cut.call_pfnPa k (i mod N) false s in
  strip_T 3 N (i + 1) (Cut.vert s') (Cut.curIndex s') (Cut.reverseWinding s')
  /\ Cut.adjExtraVert s' = Cut.adjExtraVert s
  /\ table_shape (Cut.indices s')
  /\ ((Z.max 0 (i + 1 - 3) = Z.max 0 (i - 3)
       /\ Cut.numPrimsAssembled s' = Cut.numPrimsAssembled s
       /\ Cut.indices s' = Cut.indices s)
      \/ (Z.max 0 (i + 1 - 3) = Z.max 0 (i - 3) + 1
          /\ emits_prim 2 (strip_P [1; 2] N) s s' (Z.max 0 (i - 3)))).
Proof. strip_step 3; strip_step_finish 3 [1; 2]. Qed.

End MoreTopologies.
(** *** Draws of the other topologies *)

Lemma prims_from_ext (P P' : Z -> list Z) (q : Z) (cnt : nat) :
  (forall j, 0 <= j -> P (q + j) = P' (q + j)) ->
  prims_from P q cnt = prims_from P' q cnt.
Proof.
  intros H. unfold prims_from. apply map_ext. intros l. apply H. lia.
Qed.

Lemma div_step (m i : Z) :
  0 < m -> 0 <= i -> (i + 1) / m = i / m \/ (i + 1) / m = i / m + 1.
Proof.
  intros Hm Hi.
  pose proof (Z.div_mod i m ltac:(lia)).
  pose proof (Z.div_mod (i + 1) m ltac:(lia)).
  pose proof (Z.mod_pos_bound i m ltac:(lia)).
  pose proof (Z.mod_pos_bound (i + 1) m ltac:(lia)). nia.
Qed.

Lemma list_T_start (m N : Z) (vert : list Z) :
  0 < m -> length vert = 6%nat -> list_T m N 0 vert 0 false.
Proof.
  intros Hm Hlen. unfold list_T. rewrite Z.mod_0_l by lia.
  split; [exact Hlen|]. split; [reflexivity|]. intros; lia.
Qed.

Lemma strip_T_start (w N : Z) (vert : list Z) :
  0 <= w -> length vert = 6%nat -> strip_T w N 0 vert 0 false.
Proof.
  intros Hw Hlen. unfold strip_T. rewrite Z.min_l by lia.
  split; [exact Hlen|]. split; [reflexivity|]. intros; lia.
Qed.

(** On the ring of the factory the primitives of a batch and the batch
    being fed never fill the store: for a list of up to 4 vertices per
    primitive, for a strip that keeps up to 3 vertices, and for a list of 6
    vertices per primitive as long as the draw has at most 40 vertices. *)
Lemma list_room (m n : Z) :
  1 <= m <= 4 -> draw_room 48 n (fun i => i / m).
Proof.
  intros Hm t i f Ht Hi Hf H7 Hc _. cbv beta in Hc.
  assert (Em : m = 1 \/ m = 2 \/ m = 3 \/ m = 4) by lia.
  destruct Em as [Em|[Em|[Em|Em]]]; subst m;
    Z.to_euclidean_division_equations; lia.
Qed.

Lemma strip_room (w n : Z) :
  0 <= w <= 3 -> draw_room 48 n (fun i => Z.max 0 (i - w)).
Proof. intros Hw t i f Ht Hi Hf H7 Hc _. cbv beta in Hc. lia. Qed.

Lemma trilistadj_room (n : Z) :
  n <= 40 -> draw_room 48 n (fun i => i / 6).
Proof.
  intros Hn t i f Ht Hi Hf H7 Hc Hne. cbv beta in Hc, Hne.
  destruct (Z.eq_dec (i / 6) (t / 6)) as [E|E].
  - Z.to_euclidean_division_equations. lia.
  - specialize (Hne E). lia.
Qed.

(** From the assembler of the factory to the draw, for a list topology of
    [m] vertices per primitive and for a strip topology that keeps [w]
    vertices. *)
Ltac factory_state g h vpp :=
  match goal with
  | |- exists s0, ?ctor = Some s0 /\ _ =>
      let Hs := fresh "Hs" in
      assert (Hs : exists s0, ctor = Some s0) by (eexists; reflexivity);
      destruct Hs as [s0 Hs]; exists s0; split; [exact Hs|];
      destruct (PA_FACTORY_paCut_state _ _ _ _ _ _ _ Hs)
        as (F1 & F2 & F3 & F4 & F5 & F6 & F7 & F8 & F9 & F10 & F11 & F12
            & F13);
      assert (Hpfn : Cut.pfnPa s0 = h) by (inversion Hs; reflexivity);
      assert (Hvpp : Cut.vertsPerPrim s0 = vpp)
        by (rewrite F4; first [reflexivity | destruct g; reflexivity]);
      clear Hs
  end.

Ltac factory_remaining :=
  match goal with
  | H : Cut.numRemainingVerts _ = s32 _ |- _ =>
      rewrite H; apply s32_small; lia
  end.

Ltac factory_start start :=
  match goal with
  | H1 : Cut.curIndex ?s = 0, H2 : Cut.reverseWinding ?s = false,
    H3 : length (Cut.vert ?s) = _ |- _ =>
      rewrite H1, H2; apply start; [lia|exact H3]
  end.

Ltac draw_list_core k n m picks step h vpp room :=
  intros fuel Hfuel;
  etransitivity;
  [ apply (draw_no_restart k 48 n ltac:(lia) ltac:(lia) ltac:(lia)
             h vpp (fun i => i / m) (list_P m picks 48) (list_T m 48));
    try reflexivity; try assumption; try lia;
    [ intros i Hi; apply div_step; lia
    | intros s i; apply (step k 48); lia
    | apply room; lia
    | factory_remaining
    | factory_start list_T_start ]
  | cbv beta; rewrite ?Z.div_1_r;
    apply prims_from_ext; intros j Hj; unfold list_P; cbn [map];
    repeat (f_equal; try lia) ].

Ltac draw_list k g n m picks step h vpp room :=
  factory_state g h vpp; draw_list_core k n m picks step h vpp room.

(** A draw of more than 40 vertices of a list topology of [m] vertices per
    primitive, [m] above 5. *)
Ltac draw_starve k n m picks step h vpp :=
  intros fuel;
  apply (draw_starves k 48 n ltac:(lia) ltac:(lia) ltac:(lia)
           h vpp (fun i => i / m) (list_P m picks 48) (list_T m 48))
    with (J := 5%nat);
  try reflexivity; try assumption; try lia;
  [ intros i Hi; apply div_step; lia
  | intros s i; apply (step k 48); lia
  | factory_remaining
  | factory_start list_T_start ].

Ltac draw_strip k g n w picks step h vpp :=
  factory_state g h vpp; intros fuel Hfuel;
  etransitivity;
  [ apply (draw_no_restart k 48 n ltac:(lia) ltac:(lia) ltac:(lia)
             h vpp (fun i => Z.max 0 (i - w)) (strip_P picks 48)
             (strip_T w 48));
    try assumption; try lia;
    [ intros s i; apply (step k 48); lia
    | apply strip_room; lia
    | factory_remaining
    | factory_start strip_T_start ]
  | replace (Z.to_nat (Z.max 0 (n - w))) with (Z.to_nat (n - w)) by lia;
    apply prims_from_ext; intros j Hj; unfold strip_P; cbn [map];
    repeat (f_equal; try lia) ].

(** A point list of [n] vertices is assembled into [n] primitives;
    primitive [q] gathers the ring slot of vertex [q].  The assembler is the one the factory constructs, on its
    ring of 48 vertices with no restart bit set, in the caller's loop; the
    ring slot of a vertex is its number modulo 48. *)
Theorem draw_point_list (k : Cut.Knobs) (gsEnabled : bool)
  (vertexStore : Z -> Z) (numAttribs n : Z) :
  0 <= n < 2 ^ 31 ->
  let N := MAX_NUM_VERTS_PER_PRIM * KNOB_SIMD_WIDTH in
  exists s0,
    Cut.PA_FACTORY_paCut k gsEnabled vertexStore n numAttribs TOP_POINT_LIST
    = Some s0
    /\ forall fuel : nat, n <= Z.of_nat fuel ->
       Cut.draw k fuel [] true s0
       = prims_from
           (fun q => [q mod N])
           0 (Z.to_nat (n)).
Proof.
  intros n_range N. change N with 48. clear N.
  draw_list k gsEnabled n 1 [0] pointlist_step Cut.pfn_ProcessVertPointList 1
    (list_room 1 n).
Qed.

(** A line list of [n] vertices is assembled into [n / 2] primitives
    (a last vertex without a partner is dropped); primitive [q] gathers the
    ring slots of the vertices [2 q] and [2 q + 1].  The assembler is the one the factory constructs, on its
    ring of 48 vertices with no restart bit set, in the caller's loop; the
    ring slot of a vertex is its number modulo 48. *)
Theorem draw_line_list (k : Cut.Knobs) (gsEnabled : bool)
  (vertexStore : Z -> Z) (numAttribs n : Z) :
  0 <= n < 2 ^ 31 ->
  let N := MAX_NUM_VERTS_PER_PRIM * KNOB_SIMD_WIDTH in
  exists s0,
    Cut.PA_FACTORY_paCut k gsEnabled vertexStore n numAttribs TOP_LINE_LIST
    = Some s0
    /\ forall fuel : nat, n <= Z.of_nat fuel ->
       Cut.draw k fuel [] true s0
       = prims_from
           (fun q => [(2 * q) mod N; (2 * q + 1) mod N])
           0 (Z.to_nat (n / 2)).
Proof.
  intros n_range N. change N with 48. clear N.
  draw_list k gsEnabled n 2 [0; 1] linelist_step Cut.pfn_ProcessVertLineList 2
    (list_room 2 n).
Qed.

(** A line strip of [n] vertices is assembled into [n - 1] primitives
    (none for fewer than 2 vertices); primitive [q] gathers the ring slots
    of the vertices [q] and [q + 1].  The assembler is the one the factory constructs, on its
    ring of 48 vertices with no restart bit set, in the caller's loop; the
    ring slot of a vertex is its number modulo 48. *)
Theorem draw_line_strip (k : Cut.Knobs) (gsEnabled : bool)
  (vertexStore : Z -> Z) (numAttribs n : Z) :
  0 <= n < 2 ^ 31 ->
  let N := MAX_NUM_VERTS_PER_PRIM * KNOB_SIMD_WIDTH in
  exists s0,
    Cut.PA_FACTORY_paCut k gsEnabled vertexStore n numAttribs TOP_LINE_STRIP
    = Some s0
    /\ forall fuel : nat, n <= Z.of_nat fuel ->
       Cut.draw k fuel [] true s0
       = prims_from
           (fun q => [q mod N; (q + 1) mod N])
           0 (Z.to_nat (n - 1)).
Proof.
  intros n_range N. change N with 48. clear N.
  draw_strip k gsEnabled n 1 [0; 1] linestrip_step
    Cut.pfn_ProcessVertLineStrip 2.
Qed.

(** A line list with adjacency of [n] vertices is assembled into
    [n / 4] primitives.  For a geometry stage primitive [q] gathers the
    ring slots of its 4 vertices, [4 q] to [4 q + 3]; without one it
    gathers those of the line alone, the vertices [4 q + 1] and [4 q + 2].
    The assembler is the one the factory constructs, on its
    ring of 48 vertices with no restart bit set, in the caller's loop; the
    ring slot of a vertex is its number modulo 48. *)
Theorem draw_line_list_adj (k : Cut.Knobs) (gsEnabled : bool)
  (vertexStore : Z -> Z) (numAttribs n : Z) :
  0 <= n < 2 ^ 31 ->
  let N := MAX_NUM_VERTS_PER_PRIM * KNOB_SIMD_WIDTH in
  exists s0,
    Cut.PA_FACTORY_paCut k gsEnabled vertexStore n numAttribs TOP_LINE_LIST_ADJ
    = Some s0
    /\ forall fuel : nat, n <= Z.of_nat fuel ->
       Cut.draw k fuel [] true s0
       = prims_from
           (fun q => if gsEnabled
                     then [(4 * q) mod N; (4 * q + 1) mod N;
                           (4 * q + 2) mod N; (4 * q + 3) mod N]
                     else [(4 * q + 1) mod N; (4 * q + 2) mod N])
           0 (Z.to_nat (n / 4)).
Proof.
  intros n_range N. change N with 48. clear N.
  destruct gsEnabled.
  - draw_list k true n 4 [0; 1; 2; 3] linelistadj_step
      Cut.pfn_ProcessVertLineListAdj 4 (list_room 4 n).
  - draw_list k false n 4 [1; 2] linelistadj_nogs_step
      Cut.pfn_ProcessVertLineListAdjNoGs 2 (list_room 4 n).
Qed.

(** A line strip with adjacency of [n] vertices is assembled into
    [n - 3] primitives (none for fewer than 4 vertices).  For a geometry
    stage primitive [q] gathers the ring slots of the 4 vertices [q] to
    [q + 3]; without one it gathers those of the line alone, the vertices
    [q + 1] and [q + 2].  The assembler is the one the factory constructs, on its
    ring of 48 vertices with no restart bit set, in the caller's loop; the
    ring slot of a vertex is its number modulo 48. *)
Theorem draw_line_strip_adj (k : Cut.Knobs) (gsEnabled : bool)
  (vertexStore : Z -> Z) (numAttribs n : Z) :
  0 <= n < 2 ^ 31 ->
  let N := MAX_NUM_VERTS_PER_PRIM * KNOB_SIMD_WIDTH in
  exists s0,
    Cut.PA_FACTORY_paCut k gsEnabled vertexStore n numAttribs TOP_LISTSTRIP_ADJ
    = Some s0
    /\ forall fuel : nat, n <= Z.of_nat fuel ->
       Cut.draw k fuel [] true s0
       = prims_from
           (fun q => if gsEnabled
                     then [q mod N; (q + 1) mod N; (q + 2) mod N;
                           (q + 3) mod N]
                     else [(q + 1) mod N; (q + 2) mod N])
           0 (Z.to_nat (n - 3)).
Proof.
  intros n_range N. change N with 48. clear N.
  destruct gsEnabled.
  - draw_strip k true n 3 [0; 1; 2; 3] linestripadj_step
      Cut.pfn_ProcessVertLineStripAdj 4.
  - draw_strip k false n 3 [1; 2] linestripadj_nogs_step
      Cut.pfn_ProcessVertLineStripAdjNoGs 2.
Qed.

(** A triangle list with adjacency of [n] vertices is assembled into
    [n / 6] primitives when [n] is at most 40.  For a geometry stage
    primitive [q] gathers the ring slots of its 6 vertices, [6 q] to
    [6 q + 5]; without one it gathers those of the triangle alone, the
    vertices [6 q], [6 q + 2] and [6 q + 4].  A longer draw starves: after 5
    batches of vertices the store is full with 6 primitives assembled, short
    of the 8 of a batch, so that no batch is fed and none is assembled,
    however long the loop turns.  The assembler is the one the factory
    constructs, on its ring of 48 vertices with no restart bit set, in the
    caller's loop; the ring slot of a vertex is its number modulo 48. *)
Theorem draw_tri_list_adj (k : Cut.Knobs) (gsEnabled : bool)
  (vertexStore : Z -> Z) (numAttribs n : Z) :
  0 <= n < 2 ^ 31 ->
  let N := MAX_NUM_VERTS_PER_PRIM * KNOB_SIMD_WIDTH in
  exists s0,
    Cut.PA_FACTORY_paCut k gsEnabled vertexStore n numAttribs TOP_TRI_LIST_ADJ
    = Some s0
    /\ (n <= 40 ->
        forall fuel : nat, n <= Z.of_nat fuel ->
        Cut.draw k fuel [] true s0
        = prims_from
            (fun q => if gsEnabled
                      then [(6 * q) mod N; (6 * q + 1) mod N;
                            (6 * q + 2) mod N; (6 * q + 3) mod N;
                            (6 * q + 4) mod N; (6 * q + 5) mod N]
                      else [(6 * q) mod N; (6 * q + 2) mod N;
                            (6 * q + 4) mod N])
            0 (Z.to_nat (n / 6)))
    /\ (40 < n -> forall fuel : nat, Cut.draw k fuel [] true s0 = []).
Proof.
  intros n_range N. change N with 48. clear N.
  destruct gsEnabled.
  - factory_state true Cut.pfn_ProcessVertTriListAdj 6. split.
    + intros Hn.
      draw_list_core k n 6 [0; 1; 2; 3; 4; 5] trilistadj_step
        Cut.pfn_ProcessVertTriListAdj 6 (trilistadj_room n).
    + intros Hn.
      draw_starve k n 6 [0; 1; 2; 3; 4; 5] trilistadj_step
        Cut.pfn_ProcessVertTriListAdj 6.
  - factory_state false Cut.pfn_ProcessVertTriListAdjNoGs 3. split.
    + intros Hn.
      draw_list_core k n 6 [0; 2; 4] trilistadj_nogs_step
        Cut.pfn_ProcessVertTriListAdjNoGs 3 (trilistadj_room n).
    + intros Hn.
      draw_starve k n 6 [0; 2; 4] trilistadj_nogs_step
        Cut.pfn_ProcessVertTriListAdjNoGs 3.
Qed.

Lemma draw_point_list_witness :
  exists s0,
    Cut.PA_FACTORY_paCut knobs0 false (fun a => a) 3 1 TOP_POINT_LIST = Some s0
    /\ Cut.draw knobs0 3 [] true s0 = [[0]; [1]; [2]].
Proof.
  destruct (draw_point_list knobs0 false (fun a => a) 1 3)
    as (s0 & Hc & Hd); [lia|].
  exists s0. split; [exact Hc|].
  rewrite (Hd 3%nat) by lia. reflexivity.
Defined.

Lemma draw_line_list_witness :
  exists s0,
    Cut.PA_FACTORY_paCut knobs0 false (fun a => a) 5 1 TOP_LINE_LIST = Some s0
    /\ Cut.draw knobs0 5 [] true s0 = [[0; 1]; [2; 3]].
Proof.
  destruct (draw_line_list knobs0 false (fun a => a) 1 5)
    as (s0 & Hc & Hd); [lia|].
  exists s0. split; [exact Hc|].
  rewrite (Hd 5%nat) by lia. reflexivity.
Defined.

Lemma draw_line_strip_witness :
  exists s0,
    Cut.PA_FACTORY_paCut knobs0 false (fun a => a) 4 1 TOP_LINE_STRIP = Some s0
    /\ Cut.draw knobs0 4 [] true s0 = [[0; 1]; [1; 2]; [2; 3]].
Proof.
  destruct (draw_line_strip knobs0 false (fun a => a) 1 4)
    as (s0 & Hc & Hd); [lia|].
  exists s0. split; [exact Hc|].
  rewrite (Hd 4%nat) by lia. reflexivity.
Defined.

Lemma draw_line_list_adj_witness :
  exists s0,
    Cut.PA_FACTORY_paCut knobs0 false (fun a => a) 8 1 TOP_LINE_LIST_ADJ = Some s0
    /\ Cut.draw knobs0 8 [] true s0 = [[1; 2]; [5; 6]].
Proof.
  destruct (draw_line_list_adj knobs0 false (fun a => a) 1 8)
    as (s0 & Hc & Hd); [lia|].
  exists s0. split; [exact Hc|].
  rewrite (Hd 8%nat) by lia. reflexivity.
Defined.

Lemma draw_line_strip_adj_witness :
  exists s0,
    Cut.PA_FACTORY_paCut knobs0 true (fun a => a) 5 1 TOP_LISTSTRIP_ADJ = Some s0
    /\ Cut.draw knobs0 5 [] true s0 = [[0; 1; 2; 3]; [1; 2; 3; 4]].
Proof.
  destruct (draw_line_strip_adj knobs0 true (fun a => a) 1 5)
    as (s0 & Hc & Hd); [lia|].
  exists s0. split; [exact Hc|].
  rewrite (Hd 5%nat) by lia. reflexivity.
Defined.

Lemma draw_tri_list_adj_witness :
  (exists s0,
     Cut.PA_FACTORY_paCut knobs0 false (fun a => a) 12 1 TOP_TRI_LIST_ADJ
     = Some s0
     /\ Cut.draw knobs0 12 [] true s0 = [[0; 2; 4]; [6; 8; 10]])
  /\ (exists s0,
     Cut.PA_FACTORY_paCut knobs0 false (fun a => a) 96 1 TOP_TRI_LIST_ADJ
     = Some s0
     /\ Cut.draw knobs0 200 [] true s0 = []).
Proof.
  split.
  - destruct (draw_tri_list_adj knobs0 false (fun a => a) 1 12)
      as (s0 & Hc & Hd & _); [lia|].
    exists s0. split; [exact Hc|].
    rewrite (Hd ltac:(lia) 12%nat) by lia. reflexivity.
  - destruct (draw_tri_list_adj knobs0 false (fun a => a) 1 96)
      as (s0 & Hc & _ & Hd); [lia|].
    exists s0. split; [exact Hc|]. apply Hd. lia.
Defined.
(** *** The vertex loop, restarts and primitive ids *)

Section CutLoopFacts.

Variable k : Cut.Knobs.
Implicit Types s : Cut.PA_STATE_CUT.

Lemma ProcessVerts_loop_account (fuel : nat) s :
  0 < Cut.numVerts s <= 2 ^ 32 - 1 ->
  0 <= Cut.curVertex s < Cut.numVerts s ->
  0 <= Cut.numRemainingVerts s < 2 ^ 31 ->
  let s' := Cut.ProcessVerts_loop k fuel s in
  0 <= Cut.numRemainingVerts s' <= Cut.numRemainingVerts s
  /\ Cut.curVertex s'
     = (Cut.curVertex s
        + (Cut.numRemainingVerts s - Cut.numRemainingVerts s'))
       mod Cut.numVerts s.
Proof.
  cbv zeta. revert s. induction fuel as [|fuel IH]; intros s HN Hc Hr; simpl.
  - rewrite Z.sub_diag, Z.add_0_r, Z.mod_small by lia. lia.
  - destruct (Cut.ProcessVerts_cond s) eqn:Hcond.
    2:{ rewrite Z.sub_diag, Z.add_0_r, Z.mod_small by lia. lia. }
    apply ProcessVerts_cond_true in Hcond as (_ & Hpos & _).
    pose proof (ProcessVerts_vertex_frame k s) as Fr.
    assert (Hn : Cut.numVerts (Cut.ProcessVerts_body k s) = Cut.numVerts s)
      by (unfold Cut.ProcessVerts_body; cbn; apply (fr_numVerts _ _ Fr)).
    assert (Hrem : Cut.numRemainingVerts (Cut.ProcessVerts_body k s)
                   = Cut.numRemainingVerts s - 1)
      by (rewrite ProcessVerts_body_numRemainingVerts; apply s32_small; lia).
    assert (Hcur : Cut.curVertex (Cut.ProcessVerts_body k s)
                   = (Cut.curVertex s + 1) mod Cut.numVerts s).
    { unfold Cut.ProcessVerts_body. cbn.
      rewrite (fr_curVertex _ _ Fr), (fr_numVerts _ _ Fr).
      rewrite u32_small by lia. reflexivity. }
    destruct (IH (Cut.ProcessVerts_body k s)) as [H1 H2].
    + rewrite Hn. exact HN.
    + rewrite Hn, Hcur. apply Z.mod_pos_bound. lia.
    + rewrite Hrem. lia.
    + rewrite Hrem, Hn, Hcur in *. split; [lia|].
      rewrite H2. rewrite Zplus_mod_idemp_l. f_equal. lia.
Qed.

(** [ProcessVerts] stops for one of three reasons: the batch is full, the
    vertices of the draw are used up, or every vertex fed is processed.  It
    leaves no extra vertex pending at the end of the draw unless the batch
    is full, it takes the vertices it consumes off [numRemainingVerts] and
    moves [curVertex] on by as many around the ring, and a second call
    changes nothing. *)
Theorem ProcessVerts_settles s :
  0 < Cut.numVerts s <= 2 ^ 32 - 1 ->
  0 <= Cut.curVertex s < Cut.numVerts s ->
  0 <= Cut.numRemainingVerts s < 2 ^ 31 ->
  extra_vert_ok s ->
  let s' := Cut.ProcessVerts k s in
  (Cut.numPrimsAssembled s' = KNOB_SIMD_WIDTH
   \/ Cut.numRemainingVerts s' = 0
   \/ Cut.curVertex s' = Cut.headVertex s')
  /\ (Cut.numRemainingVerts s' = 0 ->
      Cut.numPrimsAssembled s' <> KNOB_SIMD_WIDTH ->
      Cut.adjExtraVert s' = -1)
  /\ 0 <= Cut.numRemainingVerts s' <= Cut.numRemainingVerts s
  /\ Cut.curVertex s'
     = (Cut.curVertex s
        + (Cut.numRemainingVerts s - Cut.numRemainingVerts s'))
       mod Cut.numVerts s
  /\ Cut.ProcessVerts k s' = s'.
Proof.
  intros HN Hc Hr He. cbv zeta.
  assert (Hinv : cut_inv s) by (split; [lia|exact He]).
  destruct (ProcessVerts_settled k s Hinv) as (Hcond & Hlast & _).
  assert (Hacc :
    0 <= Cut.numRemainingVerts (Cut.ProcessVerts k s)
      <= Cut.numRemainingVerts s
    /\ Cut.curVertex (Cut.ProcessVerts k s)
       = (Cut.curVertex s
          + (Cut.numRemainingVerts s
             - Cut.numRemainingVerts (Cut.ProcessVerts k s)))
         mod Cut.numVerts s).
  { unfold Cut.ProcessVerts. cbv zeta.
    pose proof (ProcessVerts_loop_account
                  (Z.to_nat (Cut.numRemainingVerts s)) s HN Hc Hr) as Hl.
    cbv zeta in Hl.
    set (s1 := Cut.ProcessVerts_loop k _ s) in *.
    destruct (Cut.ProcessVerts_last_cond s1); [|exact Hl].
    rewrite (fr_numRemainingVerts _ _ (call_pfnPa_frame k _ _ s1)),
      (fr_curVertex _ _ (call_pfnPa_frame k _ _ s1)).
    exact Hl. }
  destruct Hacc as [Hrem Hcur].
  set (s' := Cut.ProcessVerts k s) in *.
  unfold Cut.ProcessVerts_cond in Hcond.
  unfold Cut.ProcessVerts_last_cond in Hlast.
  split; [|split; [|split; [exact Hrem|split; [exact Hcur|]]]].
  - destruct (Z.eqb_spec (Cut.numPrimsAssembled s') KNOB_SIMD_WIDTH);
      [left; assumption|].
    destruct (Z.ltb_spec 0 (Cut.numRemainingVerts s')); [|right; left; lia].
    destruct (Z.eqb_spec (Cut.curVertex s') (Cut.headVertex s'));
      [right; right; assumption|discriminate Hcond].
  - intros H0 Hne.
    destruct (Z.eqb_spec (Cut.numPrimsAssembled s') KNOB_SIMD_WIDTH);
      [contradiction|].
    rewrite H0 in Hlast. cbn in Hlast.
    destruct (Z.eqb_spec (Cut.adjExtraVert s') (-1)); [assumption|].
    discriminate Hlast.
  - apply ProcessVerts_fix; [|exact Hlast].
    unfold Cut.ProcessVerts_cond. exact Hcond.
Qed.

(** A vertex whose restart bit is set, cut vertices not being processed:
    the topology state is reset, whatever the topology; nothing is
    assembled and the gather table and the window stay as they are, unless
    a triangle strip with adjacency has its last triangle pending, which is
    assembled before the restart. *)
Theorem cut_vertex_restarts s :
  Cut.processCutVerts s = false ->
  Cut.IsCutIndex (Cut.curVertex s) s = true ->
  extra_vert_ok s ->
  let s' := Cut.ProcessVerts_vertex k s in
  Cut.curIndex s' = 0
  /\ Cut.reverseWinding s' = false
  /\ Cut.adjExtraVert s' = -1
  /\ (Cut.adjExtraVert s = -1 -> s' = Cut.RestartTopology s)
  /\ (Cut.adjExtraVert s = -1 ->
      Cut.numPrimsAssembled s' = Cut.numPrimsAssembled s
      /\ Cut.indices s' = Cut.indices s
      /\ Cut.vert s' = Cut.vert s)
  /\ (Cut.adjExtraVert s <> -1 ->
      (exists gsEnabled,
         Cut.pfnPa s = Cut.pfn_ProcessVertTriStripAdj gsEnabled)
      /\ Cut.numPrimsAssembled s'
         = u32 (Cut.numPrimsAssembled s + 1)).
Proof.
  intros Hpcv Hcut He. cbv zeta. unfold Cut.ProcessVerts_vertex.
  rewrite Hcut, Hpcv. cbv zeta.
  destruct (Z.eqb_spec (Cut.adjExtraVert s) (-1)) as [E|E]; cbn [negb].
  - repeat split; try reflexivity; intros; contradiction.
  - split; [reflexivity|]. split; [reflexivity|]. split; [reflexivity|].
    split; [intros; contradiction|]. split; [intros; contradiction|].
    intros _. unfold extra_vert_ok in He. unfold Cut.call_pfnPa.
    destruct (Cut.pfnPa s) as [| | | |gsEnabled| | | | | | |];
      try contradiction.
    split; [exists gsEnabled; reflexivity|].
    unfold Cut.RestartTopology. cut_window.
    unfold Cut.ProcessVertTriStripAdj.
    destruct (Z.eqb_spec (Cut.adjExtraVert s) (-1)); [contradiction|].
    cbn [andb negb]. cbv zeta. cut_window.
    destruct (AssembleTriStripAdj_window gsEnabled
                (Cut.set_vert
                   (store (Cut.vert s) 3 (u32 (Cut.adjExtraVert s))) s))
      as (_ & _ & H & _).
    cbv zeta in H. rewrite H. cut_window. reflexivity.
Qed.

(** The restart mask the caller stores through [GetNextVsIndices()] for the
    batch it feeds is what [IsCutIndex] reads for the 8 vertices of that
    batch, bit [j] for vertex [j] of the batch; the bits of the other
    batches stay as they are, and feeding the vertices does not change
    any. *)
Theorem cut_mask_round_trip (mask : Z) s (j v : Z) :
  0 <= Cut.headVertex s -> Cut.headVertex s mod KNOB_SIMD_WIDTH = 0 ->
  Cut.headVertex s / KNOB_SIMD_WIDTH < Z.of_nat (length (Cut.pCutIndices s)) ->
  0 <= j < KNOB_SIMD_WIDTH -> 0 <= v ->
  v / KNOB_SIMD_WIDTH <> Cut.headVertex s / KNOB_SIMD_WIDTH ->
  let s' := snd (Cut.GetNextVsOutput (Cut.write_cut_mask mask s)) in
  Cut.IsCutIndex (Cut.headVertex s + j) s' = Z.testbit mask j
  /\ Cut.IsCutIndex v s' = Cut.IsCutIndex v s.
Proof.
  unfold KNOB_SIMD_WIDTH. intros Hh Hal Hlen Hj Hv Hne. cbv zeta.
  unfold Cut.IsCutIndex, Cut.write_cut_mask, Cut.GetNextVsIndices,
    KNOB_SIMD_WIDTH.
  cbn [snd Cut.GetNextVsOutput Cut.pCutIndices Cut.set_pCutIndices
       Cut.set_headVertex Cut.set_needOffsets].
  pose proof (Z.div_mod (Cut.headVertex s) 8 ltac:(lia)) as Hdm.
  assert (Hq : (Cut.headVertex s + j) / 8 = Cut.headVertex s / 8).
  { rewrite Hdm at 1. rewrite Hal, Z.add_0_r.
    rewrite (Z.mul_comm 8). rewrite Z.div_add_l by lia.
    rewrite (Z.div_small j 8) by lia. lia. }
  assert (Hr : Z.land (Cut.headVertex s + j) (8 - 1) = j).
  { change (8 - 1) with (Z.ones 3). rewrite Z.land_ones by lia.
    change (2 ^ 3) with 8.
    rewrite Zplus_mod, Hal, Z.add_0_l, Z.mod_mod by lia.
    apply Z.mod_small. lia. }
  assert (H0 : 0 <= Cut.headVertex s / 8) by (apply Z.div_pos; lia).
  split.
  - rewrite Hq, Hr. rewrite load_store_eq by lia. reflexivity.
  - assert (0 <= v / 8) by (apply Z.div_pos; lia).
    rewrite load_store_ne by lia. reflexivity.
Qed.

Lemma nth_add_set1_lane (a : simdscalari) (x : Z) (l : nat) :
  length a = 8%nat -> (l < 8)%nat ->
  nth l (_simd_add_epi32 a (_simd_set1_epi32 x)) 0 = s32 (nth l a 0 + s32 x)
  /\ length (_simd_add_epi32 a (_simd_set1_epi32 x)) = 8%nat.
Proof.
  intros Hlen Hl.
  destruct a as [|x0 [|x1 [|x2 [|x3 [|x4 [|x5 [|x6 [|x7 [|]]]]]]]]];
    try discriminate Hlen.
  split; [|reflexivity].
  do 8 (destruct l as [|l]; [reflexivity|]). lia.
Qed.

Lemma Advance_iter_vPrimId (j : nat) s (l : nat) :
  Cut.vPrimId s = _mm256_set_epi32_7_0 -> (l < 8)%nat ->
  8 * Z.of_nat j + 7 < 2 ^ 31 ->
  length (Cut.vPrimId (Nat.iter j Cut.Advance s)) = 8%nat
  /\ nth l (Cut.vPrimId (Nat.iter j Cut.Advance s)) 0
     = 8 * Z.of_nat j + Z.of_nat l.
Proof.
  intros H0 Hl. induction j as [|j IH]; intros Hj.
  - change (Nat.iter 0 Cut.Advance s) with s. rewrite H0.
    split; [reflexivity|].
    do 8 (destruct l as [|l]; [reflexivity|]). lia.
  - destruct IH as [IH1 IH2]; [lia|].
    rewrite Nat.iter_succ. unfold Cut.Advance at 1 3.
    cbn [Cut.vPrimId Cut.set_vPrimId Cut.set_numPrimsAssembled
         Cut.set_tailVertex].
    destruct (nth_add_set1_lane
                (Cut.vPrimId (Nat.iter j Cut.Advance s)) KNOB_SIMD_WIDTH l
                IH1 Hl) as [E1 E2].
    split; [exact E2|]. rewrite E1, IH2.
    unfold KNOB_SIMD_WIDTH. rewrite (s32_small 8) by lia.
    rewrite s32_small by lia. lia.
Qed.

(** Primitive ids run on from batch to batch: after [j] batches are retired
    since the construction or a [Reset()], [GetPrimID(startID)] gives lane
    [l] the id [startID + 8 j + l]. *)
Theorem GetPrimID_consecutive (startID : Z) (j : nat) s (l : nat) :
  Cut.vPrimId s = _mm256_set_epi32_7_0 -> (l < 8)%nat ->
  0 <= startID -> startID + 8 * Z.of_nat j + 7 < 2 ^ 31 ->
  nth l (Cut.GetPrimID startID (Nat.iter j Cut.Advance s)) 0
  = startID + 8 * Z.of_nat j + Z.of_nat l.
Proof.
  intros H0 Hl Hs Hj.
  destruct (Advance_iter_vPrimId j s l H0 Hl) as [E1 E2]; [lia|].
  unfold Cut.GetPrimID.
  remember (Cut.vPrimId (Nat.iter j Cut.Advance s)) as a eqn:Ea.
  destruct a as [|x0 [|x1 [|x2 [|x3 [|x4 [|x5 [|x6 [|x7 [|]]]]]]]]];
    try discriminate E1.
  assert (E : nth l (_simd_add_epi32 (_simd_set1_epi32 startID)
                       [x0; x1; x2; x3; x4; x5; x6; x7]) 0
              = s32 (s32 startID + nth l [x0; x1; x2; x3; x4; x5; x6; x7] 0))
    by (do 8 (destruct l as [|l]; [reflexivity|]); lia).
  rewrite E, E2. rewrite (s32_small startID) by lia.
  rewrite s32_small by lia. lia.
Qed.

End CutLoopFacts.

Lemma ProcessVerts_settles_witness :
  exists s0,
    Cut.PA_FACTORY_paCut knobs0 false (fun a => a) 20 1 TOP_TRIANGLE_STRIP
    = Some s0
    /\ (let s := Cut.run_ops knobs0 [Cut.op_feed 0 (fun a => a)] s0 in
        Cut.curVertex (Cut.ProcessVerts knobs0 s) = 8
        /\ Cut.ProcessVerts knobs0 (Cut.ProcessVerts knobs0 s)
           = Cut.ProcessVerts knobs0 s).
Proof.
  eexists. split; [vm_compute; reflexivity|]. cbv zeta.
  match goal with
  | |- Cut.curVertex (Cut.ProcessVerts _ ?s) = _ /\ _ =>
      destruct (ProcessVerts_settles knobs0 s)
        as (_ & _ & _ & _ & H);
      [vm_compute; split; [reflexivity|discriminate]
      |vm_compute; split; [discriminate|reflexivity]
      |vm_compute; split; [discriminate|reflexivity]
      |vm_compute; reflexivity|]
  end.
  split; [vm_compute; reflexivity|exact H].
Defined.

Lemma cut_vertex_restarts_witness :
  exists s0,
    Cut.PA_FACTORY_paCut knobs0 false (fun a => a) 4 1 TOP_TRIANGLE_STRIP
    = Some s0
    /\ (let before_cut :=
          Nat.iter 2 (Cut.ProcessVerts_body knobs0)
            (Cut.run_op knobs0 (Cut.op_feed 4 (fun a => a)) s0) in
        Cut.curIndex before_cut = 2
        /\ Cut.curIndex (Cut.ProcessVerts_vertex knobs0 before_cut) = 0).
Proof.
  eexists. split; [vm_compute; reflexivity|]. cbv zeta.
  split; [vm_compute; reflexivity|].
  match goal with
  | |- Cut.curIndex (Cut.ProcessVerts_vertex _ ?s) = 0 =>
      destruct (cut_vertex_restarts knobs0 s) as (H & _);
      [vm_compute; reflexivity ..| exact H]
  end.
Defined.

Lemma cut_mask_round_trip_witness :
  exists s0,
    Cut.PA_FACTORY_paCut knobs0 false (fun a => a) 20 1 TOP_TRIANGLE_STRIP
    = Some s0
    /\ (let s := Cut.run_ops knobs0 [Cut.op_feed 0 (fun a => a)] s0 in
        Cut.headVertex s = 8
        /\ Cut.IsCutIndex 10
             (snd (Cut.GetNextVsOutput (Cut.write_cut_mask 4 s))) = true).
Proof.
  eexists. split; [vm_compute; reflexivity|]. cbv zeta.
  split; [vm_compute; reflexivity|].
  match goal with
  | |- Cut.IsCutIndex _ (snd (Cut.GetNextVsOutput (Cut.write_cut_mask _ ?s)))
       = _ =>
      destruct (cut_mask_round_trip 4 s 2 0) as (H & _);
      [ vm_compute; discriminate | vm_compute; reflexivity
      | vm_compute; reflexivity | unfold KNOB_SIMD_WIDTH; lia | lia
      | vm_compute; discriminate | ];
      exact H
  end.
Defined.

Lemma GetPrimID_consecutive_witness :
  exists s0,
    Cut.PA_FACTORY_paCut knobs0 false (fun a => a) 20 1 TOP_TRIANGLE_STRIP
    = Some s0
    /\ nth 3 (Cut.GetPrimID 100 (Nat.iter 2 Cut.Advance s0)) 0 = 119.
Proof.
  eexists. split; [vm_compute; reflexivity|].
  match goal with
  | |- nth _ (Cut.GetPrimID _ (Nat.iter _ _ ?s)) _ = _ =>
      rewrite (GetPrimID_consecutive 100 2 s 3);
      [reflexivity | vm_compute; reflexivity | lia | lia | lia]
  end.
Defined.
(** ** Batches of the tessellation assembler, in order *)

Lemma for_insert_length {A B : Type} (F : nat -> list A -> A * B) (m : nat)
  (l : list A) :
  length (for_ m (fun i l => let '(v, _) := F i l in <[i := v]> l) l)
  = length l.
Proof.
  induction m as [|m IH]; [reflexivity|].
  cbn [for_]. destruct (F m _). rewrite length_insert. exact IH.
Qed.

Section TessBatches.

Variable imem : Z -> Z.
Implicit Types s : Tess.PA_TESS.

Local Abbreviation next := (fun s => snd (Tess.NextPrim s)).

(** After [j] full batches: the count is down by [8 j], the three index
    pointers are up by [8 j], and nothing else has changed. *)
Lemma Tess_after_batches (j : nat) s :
  0 <= Tess.m_numPrims s < 2 ^ 32 ->
  length (Tess.m_ppIndices s) = 3%nat ->
  KNOB_SIMD_WIDTH * Z.of_nat j <= Tess.m_numPrims s ->
  let s' := Nat.iter j next s in
  Tess.m_numPrims s' = Tess.m_numPrims s - KNOB_SIMD_WIDTH * Z.of_nat j
  /\ Tess.m_ppIndices s'
     = map (fun p => p + KNOB_SIMD_WIDTH * Z.of_nat j) (Tess.m_ppIndices s)
  /\ Tess.m_pVertexData s' = Tess.m_pVertexData s
  /\ Tess.m_attributeStrideInVectors s' = Tess.m_attributeStrideInVectors s
  /\ Tess.m_numAttributes s' = Tess.m_numAttributes s
  /\ Tess.m_numVertsPerPrim s' = Tess.m_numVertsPerPrim s.
Proof.
  unfold KNOB_SIMD_WIDTH. intros Hn Hlen. cbv zeta.
  induction j as [|j IH]; intros Hj.
  - change (Nat.iter 0 next s) with s.
    rewrite Z.mul_0_r, Z.sub_0_r. split; [reflexivity|].
    split; [|auto].
    destruct (Tess.m_ppIndices s) as [|a [|b [|c [|]]]]; try discriminate Hlen.
    cbn. rewrite !Z.add_0_r. reflexivity.
  - destruct IH as (I1 & I2 & I3 & I4 & I5 & I6); [lia|].
    rewrite Nat.iter_succ.
    set (sj := Nat.iter j next s) in *.
    assert (Hnp : Tess.NumPrims sj = 8)
      by (unfold Tess.NumPrims, KNOB_SIMD_WIDTH; rewrite I1; lia).
    assert (Hlenj : length (Tess.m_ppIndices sj) = 3%nat)
      by (rewrite I2, length_map; exact Hlen).
    split; [|split; [|auto]].
    + rewrite Tess_NextPrim_numPrims by (rewrite I1; lia).
      rewrite Hnp, I1. lia.
    + destruct (Tess.m_ppIndices sj) as [|a [|b [|c [|]]]] eqn:E;
        try discriminate Hlenj.
      cbn. rewrite E, Hnp. cbn.
      destruct (Tess.m_ppIndices s) as [|a0 [|b0 [|c0 [|]]]];
        try discriminate Hlen.
      cbn in I2. inversion I2. subst a b c.
      unfold store, load.
      change (Z.to_nat 0) with 0%nat. change (Z.to_nat 1) with 1%nat.
      change (Z.to_nat 2) with 2%nat. cbn.
      repeat (f_equal; try lia).
Qed.

(** Batch [j] of a draw holds the primitives [8 j], [8 j + 1], ... of the
    index arrays: after [j] calls of [NextPrim()], [NumPrims()] is what is
    left of the draw, capped at the batch width, and [AssembleSingle] of
    primitive [i] of the batch reads, for vertex [v], the float found at
    index [m_ppIndices[v][8 j + i]] as the arrays were at the start. *)
Theorem tess_batches_in_order s (slot : Z) (verts1 : list (list Z))
  (j v c i : nat) :
  0 <= Tess.m_numPrims s < 2 ^ 32 ->
  length (Tess.m_ppIndices s) = 3%nat ->
  0 <= slot < Tess.m_numAttributes s ->
  0 <= Tess.m_attributeStrideInVectors s ->
  slot * Tess.m_attributeStrideInVectors s * 4 < 2 ^ 32 ->
  Tess.m_attributeStrideInVectors s * KNOB_SIMD_WIDTH < 2 ^ 32 ->
  (v < Z.to_nat (Tess.m_numVertsPerPrim s))%nat -> (v < 3)%nat ->
  (v < length verts1)%nat ->
  length (nth v verts1 []) = 4%nat ->
  (c < 4)%nat -> (i < 8)%nat ->
  KNOB_SIMD_WIDTH * Z.of_nat j + Z.of_nat i < Tess.m_numPrims s ->
  let s' := Nat.iter j next s in
  Tess.NumPrims s'
  = Z.min KNOB_SIMD_WIDTH (Tess.m_numPrims s - KNOB_SIMD_WIDTH * Z.of_nat j)
  /\ exists out1,
       Tess.AssembleSingle imem slot (Z.of_nat i) verts1 s' = Some out1
       /\ nth c (nth v out1 []) 0
          = Tess.component_lane_array s slot (Z.of_nat c)
              (imem (load (Tess.m_ppIndices s) (Z.of_nat v)
                     + KNOB_SIMD_WIDTH * Z.of_nat j + Z.of_nat i)).
Proof.
  intros Hn Hlen Hslot Hstride Hovf1 Hovf2 Hv Hv3 Hvl Hshape Hc Hi Hji.
  cbv zeta.
  destruct (Tess_after_batches j s Hn Hlen) as (I1 & I2 & I3 & I4 & I5 & I6);
    [unfold KNOB_SIMD_WIDTH in *; lia|].
  cbv zeta in *.
  set (sj := Nat.iter j next s) in *.
  assert (Hnp : Tess.NumPrims sj
                = Z.min KNOB_SIMD_WIDTH
                    (Tess.m_numPrims s - KNOB_SIMD_WIDTH * Z.of_nat j))
    by (unfold Tess.NumPrims; rewrite I1; lia).
  split; [exact Hnp|].
  unfold Tess.AssembleSingle. rewrite I5.
  destruct (Z.ltb_spec slot (Tess.m_numAttributes s)); [|lia]. simpl negb.
  cbv iota.
  destruct (Z.ltb_spec (Z.of_nat i) (Tess.NumPrims sj));
    [|unfold KNOB_SIMD_WIDTH in *; lia].
  simpl negb. cbv iota. eexists. split; [reflexivity|].
  rewrite I3, I4, I6.
  set (base := Tess.sizeof_simdscalar * _).
  set (step := Tess.sizeof_float * u32 _).
  set (h := fun (i0 : nat) (old : list Z) =>
    fst (for_ 4 (fun c '(pVert, pVertData) =>
           (<[c := Tess.m_pVertexData s
                     (pVertData
                      + Tess.sizeof_float
                        * imem (load (Tess.m_ppIndices sj) (Z.of_nat i0)
                                + Z.of_nat i))]> pVert,
            pVertData + step))
          (old, base))).
  rewrite (for_ext _ (update_entry [] h))
    by (intros i0 x; unfold update_entry, h; cbv zeta;
        destruct (for_ 4 _ _); reflexivity).
  rewrite for_update_nth by lia.
  unfold h. rewrite Tess_AssembleSingle_components by assumption.
  assert (Hp : load (Tess.m_ppIndices sj) (Z.of_nat v)
               = load (Tess.m_ppIndices s) (Z.of_nat v)
                 + KNOB_SIMD_WIDTH * Z.of_nat j).
  { rewrite I2. unfold load. rewrite Nat2Z.id.
    destruct (Tess.m_ppIndices s) as [|a0 [|b0 [|c0 [|]]]];
      try discriminate Hlen.
    do 3 (destruct v as [|v]; [reflexivity|]). lia. }
  rewrite Hp.
  unfold Tess.component_lane_array, base, step.
  rewrite (Tess_attrib_base s slot) by lia.
  rewrite (u32_small (_ * KNOB_SIMD_WIDTH))
    by (unfold KNOB_SIMD_WIDTH in *; lia).
  unfold Tess.sizeof_simdscalar, Tess.sizeof_float, KNOB_SIMD_WIDTH.
  f_equal. ring.
Qed.

(** [Assemble] of the tessellation assembler has four outcomes.  It trips
    its assertion for an attribute slot out of range (the mask it asks
    [GenPrimMask] for is always one of at most [KNOB_SIMD_WIDTH] primitives,
    so that the assertion there cannot fire).  With no primitive left it
    returns false and leaves the caller's array alone.  With primitives left
    it loads the index array of each vertex with the aligned load: it
    faults when one of them is not aligned, and returns true, with an array
    of the length of the caller's, when all are. *)
Theorem tess_Assemble_outcome s (slot : Z) (verts : list simdvector) :
  0 <= Tess.m_numPrims s ->
  (~ slot < Tess.m_numAttributes s -> Tess.Assemble imem slot verts s = None)
  /\ (slot < Tess.m_numAttributes s ->
      (Tess.m_numPrims s = 0 ->
       Tess.Assemble imem slot verts s = Some (false, verts))
      /\ (0 < Tess.m_numPrims s -> indices_aligned s ->
          exists out,
            Tess.Assemble imem slot verts s = Some (true, out)
            /\ length out = length verts)
      /\ (forall v : nat,
            0 < Tess.m_numPrims s ->
            (v < Z.to_nat (Tess.m_numVertsPerPrim s))%nat ->
            (Tess.sizeof_uint32_t * load (Tess.m_ppIndices s) (Z.of_nat v))
              mod Tess.sizeof_simdscalari <> 0 ->
            Tess.Assemble imem slot verts s = None)).
Proof.
  intros Hn. unfold Tess.Assemble. split.
  - intros Hs. destruct (Z.ltb_spec slot (Tess.m_numAttributes s)); [lia|].
    reflexivity.
  - intros Hs. destruct (Z.ltb_spec slot (Tess.m_numAttributes s)); [|lia].
    simpl negb. cbv iota. split; [|split].
    + intros H0. unfold Tess.NumPrims. rewrite H0. reflexivity.
    + intros Hpos Hal.
      assert (Hnp : 0 < Tess.NumPrims s <= KNOB_SIMD_WIDTH)
        by (unfold Tess.NumPrims, KNOB_SIMD_WIDTH; lia).
      destruct (Z.eqb_spec 0 (Tess.NumPrims s)); [lia|].
      destruct (GenPrimMask_lane (Tess.NumPrims s) 0) as (mask & -> & _);
        [lia | lia |].
      cbv zeta. rewrite Tess_Assemble_loop by exact Hal.
      eexists. split; [reflexivity|]. apply for_update_length.
    + intros v Hpos Hv Hmis.
      assert (Hnp : 0 < Tess.NumPrims s <= KNOB_SIMD_WIDTH)
        by (unfold Tess.NumPrims, KNOB_SIMD_WIDTH; lia).
      destruct (Z.eqb_spec 0 (Tess.NumPrims s)); [lia|].
      destruct (GenPrimMask_lane (Tess.NumPrims s) 0) as (mask & -> & _);
        [lia | lia |].
      cbv zeta.
      match goal with
      | |- match for_ ?n ?f ?a with _ => _ end = None =>
          assert (E : for_ n f a = None)
      end.
      { apply (Tess_Assemble_loop_fault
                 (fun (i : nat) (verts : list simdvector) =>
                    match Tess._simd_load_si imem
                            (load (Tess.m_ppIndices s) (Z.of_nat i)) with
                    | None => None
                    | Some indices => _
                    end) _ v); [exact Hv|].
        intros x. unfold Tess._simd_load_si.
        destruct (Z.eqb_spec
                    ((Tess.sizeof_uint32_t
                      * load (Tess.m_ppIndices s) (Z.of_nat v))
                     mod Tess.sizeof_simdscalari) 0); [contradiction|].
        reflexivity. }
      rewrite E. reflexivity.
Qed.

End TessBatches.

(** ** The ring of the optimized assembler *)

Section OptRing.

Context {PFN_PA_FUNC PFN_PA_SINGLE_FUNC : Type}.
Local Abbreviation PA_STATE_OPT :=
  (Opt.PA_STATE_OPT PFN_PA_FUNC PFN_PA_SINGLE_FUNC).
Local Abbreviation next_opt :=
  (fun s : PA_STATE_OPT => snd (Opt.NextPrim s)).

(** With no further SIMD primitives and no reset staged, [NextPrim()] moves
    the state counter on by one and keeps what is staged. *)
Lemma Opt_NextPrim_counter (s : PA_STATE_OPT) :
  Opt.nextNumSimdPrims s <= 0 -> Opt.nextReset s = false ->
  let s' := next_opt s in
  Opt.counter s' = u32 (Opt.counter s + 1)
  /\ Opt.nextNumSimdPrims s' = Opt.nextNumSimdPrims s
  /\ Opt.nextReset s' = Opt.nextReset s
  /\ Opt.streamSizeInVerts s' = Opt.streamSizeInVerts s
  /\ Opt.cur s' = Opt.cur s
  /\ Opt.prev s' = Opt.prev s.
Proof.
  intros Hn Hr. cbv zeta. unfold Opt.NextPrim. cbn.
  rewrite Hr.
  destruct (Opt.isStreaming s); cbn;
    (destruct (Z.ltb_spec 0 (Opt.nextNumSimdPrims s)); [lia|]);
    cbn; auto 10.
Qed.

Lemma Opt_NextPrim_iter_counter (j : nat) (s : PA_STATE_OPT) :
  Opt.nextNumSimdPrims s <= 0 -> Opt.nextReset s = false ->
  0 <= Opt.counter s -> Opt.counter s + Z.of_nat j < 2 ^ 32 ->
  let s' := Nat.iter j next_opt s in
  Opt.counter s' = Opt.counter s + Z.of_nat j
  /\ Opt.nextNumSimdPrims s' = Opt.nextNumSimdPrims s
  /\ Opt.nextReset s' = Opt.nextReset s
  /\ Opt.streamSizeInVerts s' = Opt.streamSizeInVerts s
  /\ Opt.cur s' = Opt.cur s
  /\ Opt.prev s' = Opt.prev s.
Proof.
  intros Hn Hr H0. cbv zeta. induction j as [|j IH]; intros Hj.
  - change (Nat.iter 0 next_opt s) with s. rewrite Z.add_0_r. auto 10.
  - destruct IH as (I1 & I2 & I3 & I4 & I5 & I6); [lia|].
    rewrite Nat.iter_succ.
    destruct (Opt_NextPrim_counter (Nat.iter j next_opt s))
      as (J1 & J2 & J3 & J4 & J5 & J6); [lia | congruence |].
    cbv zeta in *.
    rewrite J1, J2, J3, J4, J5, J6, I1, I2, I3, I4, I5, I6.
    rewrite u32_small by lia. split; [lia|auto].
Qed.

(** The vertex shader output goes round the ring of the stream: with no
    further SIMD primitives and no reset staged, [GetNextVsOutput()] after
    [j] calls of [NextPrim()] selects batch [(counter + j) mod numSimdVerts]
    of the stream, a batch that lies inside the stream, and remembers the
    batch selected before as [prev]; on a stream of fewer than
    [KNOB_SIMD_WIDTH] vertices there is no batch to select. *)
Theorem opt_vs_output_round_robin (j : nat) (s : PA_STATE_OPT) :
  Opt.nextNumSimdPrims s <= 0 -> Opt.nextReset s = false ->
  0 <= Opt.counter s -> Opt.counter s + Z.of_nat j < 2 ^ 32 ->
  0 <= Opt.streamSizeInVerts s ->
  let numSimdVerts := Opt.streamSizeInVerts s / KNOB_SIMD_WIDTH in
  (Opt.streamSizeInVerts s < KNOB_SIMD_WIDTH ->
   Opt.GetNextVsOutput (Nat.iter j next_opt s) = None)
  /\ (KNOB_SIMD_WIDTH <= Opt.streamSizeInVerts s ->
      exists s',
        Opt.GetNextVsOutput (Nat.iter j next_opt s) = Some s'
        /\ Opt.cur s' = (Opt.counter s + Z.of_nat j) mod numSimdVerts
        /\ Opt.prev s' = Opt.cur s
        /\ 0 <= Opt.cur s'
        /\ (Opt.cur s' + 1) * KNOB_SIMD_WIDTH <= Opt.streamSizeInVerts s).
Proof.
  intros Hn Hr H0 Hj Hs numSimdVerts.
  destruct (Opt_NextPrim_iter_counter j s Hn Hr H0 Hj)
    as (I1 & _ & _ & I4 & I5 & _).
  cbv zeta in *. unfold Opt.GetNextVsOutput. rewrite I4. fold numSimdVerts.
  unfold KNOB_SIMD_WIDTH in *.
  pose proof (Z.div_mod (Opt.streamSizeInVerts s) 8 ltac:(lia)) as Hdm.
  pose proof (Z.mod_pos_bound (Opt.streamSizeInVerts s) 8 ltac:(lia)) as Hm.
  fold numSimdVerts in Hdm.
  split.
  - intros Hlt. assert (numSimdVerts = 0) by (apply Z.div_small; lia).
    destruct (Z.eqb_spec numSimdVerts 0); [reflexivity|lia].
  - intros Hge.
    assert (0 < numSimdVerts) by lia.
    destruct (Z.eqb_spec numSimdVerts 0); [lia|].
    eexists. split; [reflexivity|]. cbn. rewrite I1, I5.
    pose proof (Z.mod_pos_bound (Opt.counter s + Z.of_nat j) numSimdVerts
                  ltac:(lia)).
    split; [reflexivity|]. split; [reflexivity|]. split; lia.
Qed.

End OptRing.

Lemma tess_batches_in_order_witness :
  Tess.NumPrims (snd (Tess.NextPrim tess_eleven)) = 3
  /\ exists out1,
       Tess.AssembleSingle (fun a => a mod 16) 1 2 (repeat (repeat 0 4) 3)
         (snd (Tess.NextPrim tess_eleven)) = Some out1
       /\ nth 1 (nth 0 out1 []) 0 = 1376.
Proof.
  destruct (tess_batches_in_order (fun a => a mod 16) tess_eleven 1
              (repeat (repeat 0 4) 3) 1 0 1 2)
    as (H1 & out1 & H2 & H3);
    try (unfold tess_eleven, KNOB_SIMD_WIDTH; simpl; lia);
    try reflexivity.
  split; [exact H1|]. exists out1. split; [exact H2|].
  rewrite H3. reflexivity.
Defined.

Lemma tess_Assemble_outcome_witness :
  (exists out,
     Tess.Assemble (fun a => a mod 16) 1
       (repeat (repeat _simd_setzero_ps 4) 3) tess_aligned = Some (true, out)
     /\ length out = 3%nat)
  /\ Tess.Assemble (fun a => a mod 16) 1
       (repeat (repeat _simd_setzero_ps 4) 3) tess_eleven = None.
Proof.
  split.
  - destruct (tess_Assemble_outcome (fun a => a mod 16) tess_aligned 1
                (repeat (repeat _simd_setzero_ps 4) 3)) as (_ & H);
      [unfold tess_aligned; simpl; lia|].
    destruct H as (_ & H & _); [unfold tess_aligned; simpl; lia|].
    destruct H as (out & H1 & H2); [unfold tess_aligned; simpl; lia | |].
    { intros v Hv. do 3 (destruct v as [|v]; [reflexivity|]).
      unfold tess_aligned in Hv. simpl in Hv. lia. }
    exists out. split; [exact H1|]. rewrite H2. reflexivity.
  - destruct (tess_Assemble_outcome (fun a => a mod 16) tess_eleven 1
                (repeat (repeat _simd_setzero_ps 4) 3)) as (_ & H);
      [unfold tess_eleven; simpl; lia|].
    destruct H as (_ & _ & H); [unfold tess_eleven; simpl; lia|].
    apply (H 0%nat); [unfold tess_eleven; simpl; lia
                     | unfold tess_eleven; simpl; lia
                     | vm_compute; discriminate].
Defined.

Lemma opt_vs_output_round_robin_witness :
  exists s',
    Opt.GetNextVsOutput
      (Nat.iter 7 (fun s => snd (Opt.NextPrim s))
         (Opt.SetNextState tt tt 0 KNOB_SIMD_WIDTH false opt_draw3))
    = Some s'
    /\ Opt.cur s' = 1.
Proof.
  destruct (opt_vs_output_round_robin 7
              (Opt.SetNextState tt tt 0 KNOB_SIMD_WIDTH false opt_draw3))
    as (_ & H);
    [vm_compute; discriminate | reflexivity | vm_compute; discriminate
    | vm_compute; reflexivity | vm_compute; discriminate |].
  destruct H as (s' & H1 & H2 & _); [vm_compute; discriminate|].
  exists s'. split; [exact H1|]. rewrite H2. reflexivity.
Defined.
(** ** The factory *)

(** Whenever the factory selects the cut-aware assembler for the topology
    that the API state holds, the construction succeeds: every topology the
    test names is one the constructor implements.  The assembler it makes
    has the ring of [MAX_NUM_VERTS_PER_PRIM] batches, does not process cut
    vertices, has no restart bit set and nothing fed, so that the store is
    not full, and has work exactly when the draw has vertices; for a
    32-bit attribute mask that is not zero, its number of attributes is one
    more than the position of the highest bit of the mask. *)
Theorem factory_cut_constructs (k : Cut.Knobs)
  (KNOB_ENABLE_CUT_AWARE_PA IsIndexedT gsEnabled : bool)
  (topo : PRIMITIVE_TOPOLOGY) (feAttribMask : Z) (vertexStore : Z -> Z)
  (numVerts : Z) :
  PA_FACTORY_cutPA KNOB_ENABLE_CUT_AWARE_PA IsIndexedT topo = true ->
  exists s0,
    PA_FACTORY_cut k gsEnabled feAttribMask topo vertexStore numVerts
    = Some s0
    /\ Cut.numVerts s0 = MAX_NUM_VERTS_PER_PRIM * KNOB_SIMD_WIDTH
    /\ Cut.processCutVerts s0 = false
    /\ (forall v, Cut.IsCutIndex v s0 = false)
    /\ Cut.headVertex s0 = 0 /\ Cut.tailVertex s0 = 0
    /\ Cut.curVertex s0 = 0 /\ Cut.NumPrims s0 = 0
    /\ Cut.IsVertexStoreFull s0 = false
    /\ Cut.HasWork s0 = (0 <? s32 numVerts)
    /\ (0 < feAttribMask < 2 ^ 32 ->
        Cut.numAttribs s0 = Z.log2 feAttribMask + 1
        /\ 1 <= Cut.numAttribs s0 <= 32).
Proof.
  intros Hsel. unfold PA_FACTORY_cutPA in Hsel.
  assert (Htopo : topo <> TOP_UNKNOWN).
  { intros ->. destruct KNOB_ENABLE_CUT_AWARE_PA, IsIndexedT;
      discriminate Hsel. }
  unfold PA_FACTORY_cut, Cut.PA_FACTORY_paCut, Cut.PA_STATE_CUT_ctor.
  cbv zeta.
  assert (Hnocut : forall s : Cut.PA_STATE_CUT,
            Cut.pCutIndices s = repeat 0 (Z.to_nat MAX_NUM_VERTS_PER_PRIM) ->
            forall v, Cut.IsCutIndex v s = false).
  { intros s E v. apply IsCutIndex_no_cuts. rewrite E. repeat constructor. }
  assert (Hattr : 0 < feAttribMask < 2 ^ 32 ->
            u32 (_BitScanReverse k feAttribMask + 1) = Z.log2 feAttribMask + 1
            /\ 1 <= u32 (_BitScanReverse k feAttribMask + 1) <= 32).
  { intros Hm. unfold _BitScanReverse.
    destruct (Z.eqb_spec feAttribMask 0); [lia|].
    pose proof (Z.log2_nonneg feAttribMask).
    assert (Z.log2 feAttribMask < 32) by (apply Z.log2_lt_pow2; lia).
    rewrite u32_small by lia. lia. }
  destruct topo; try contradiction; destruct gsEnabled;
    (eexists; split; [reflexivity|];
     split; [reflexivity|]; split; [reflexivity|];
     split; [apply Hnocut; reflexivity|];
     split; [reflexivity|]; split; [reflexivity|];
     split; [reflexivity|]; split; [reflexivity|];
     split; [reflexivity|];
     split; [unfold Cut.HasWork; cbn; apply orb_false_r|];
     exact Hattr).
Qed.

Lemma factory_cut_constructs_witness :
  exists s0,
    PA_FACTORY_cut knobs0 false 5 TOP_TRI_LIST_ADJ (fun a => a) 12 = Some s0
    /\ Cut.numAttribs s0 = 3.
Proof.
  destruct (factory_cut_constructs knobs0 true false false TOP_TRI_LIST_ADJ 5
              (fun a => a) 12) as (s0 & H1 & H);
    [reflexivity|].
  exists s0. split; [exact H1|].
  destruct H as (_ & _ & _ & _ & _ & _ & _ & _ & _ & H).
  destruct H as [H _]; [lia|]. rewrite H. reflexivity.
Defined.
